(** * repohealth.twitter: tweet patterns, their matchers and the recency filter

    A shallow embedding of [src/repohealth/twitter.py].  The program leans on
    three pieces of the Python runtime, which are modelled first:

    - exceptions, as an error monad ([result]);
    - [str.format] / [string.Formatter] (the replacement-field mini language);
    - the [re] module, restricted to the constructs that the regular
      expressions built by [TweetPattern.re_match] can contain.

    Anything of Python that the model does not cover evaluates to
    [Raise (NotModelled _)], so that no statement silently depends on it.
    Strings are 8-bit character strings. *)

From Stdlib Require Import ZArith List String Ascii Bool Arith Lia DecimalString.
From Stdlib Require Import Sorted Permutation.
Import ListNotations.

Set Warnings "-register-all".

Open Scope string_scope.

(* ================================================================== *)
(** * Python exceptions *)

Inductive exn : Type :=
| KeyError (key : string)
| IndexError
| ValueError (msg : string)
| TypeError (msg : string)
| AttributeError (msg : string)
| re_error (msg : string)
| NotModelled (what : string).

Inductive result (A : Type) : Type :=
| Ok (a : A)
| Raise (e : exn).

Arguments Ok {A} a.
Arguments Raise {A} e.

Definition bind {A B : Type} (m : result A) (f : A -> result B) : result B :=
  match m with
  | Ok a => f a
  | Raise e => Raise e
  end.

Notation "x <- m ;; f" := (bind m (fun x => f))
  (at level 61, m at next level, right associativity).
Notation "' p <- m ;; f" := (bind m (fun x => let p := x in f))
  (at level 61, p pattern, m at next level, right associativity).

(* ================================================================== *)
(** * Characters and strings *)

Definition newline : ascii := Ascii.ascii_of_nat 10.

Definition is_digit (c : ascii) : bool :=
  let n := nat_of_ascii c in Nat.leb 48 n && Nat.leb n 57.

Definition is_ascii_letter (c : ascii) : bool :=
  let n := nat_of_ascii c in
  (Nat.leb 65 n && Nat.leb n 90) || (Nat.leb 97 n && Nat.leb n 122).

Fixpoint str_all (p : ascii -> bool) (s : string) : bool :=
  match s with
  | EmptyString => true
  | String c s' => p c && str_all p s'
  end.

Fixpoint str_mem (c : ascii) (s : string) : bool :=
  match s with
  | EmptyString => false
  | String c' s' => Ascii.eqb c c' || str_mem c s'
  end.

(** [s[:n]] *)
Fixpoint str_take (n : nat) (s : string) : string :=
  match n, s with
  | S n', String c s' => String c (str_take n' s')
  | _, _ => EmptyString
  end.

(** [str.isdigit()] *)
Definition isdigit (s : string) : bool :=
  negb (String.eqb s "") && str_all is_digit s.

(** [str.replace(old, new)] for a one-character [old]. *)
Fixpoint replace (old : ascii) (new : string) (s : string) : string :=
  match s with
  | EmptyString => EmptyString
  | String c s' =>
      if Ascii.eqb c old then new ++ replace old new s'
      else String c (replace old new s')
  end.

(** [str(n)] for a Python int. *)
Definition str_of_Z (z : Z) : string := NilZero.string_of_int (Z.to_int z).

(** [int(s)] for a string of decimal digits. *)
Fixpoint nat_of_digits_acc (acc : nat) (s : string) : nat :=
  match s with
  | EmptyString => acc
  | String c s' => nat_of_digits_acc (10 * acc + (nat_of_ascii c - 48)) s'
  end.

Definition nat_of_digits (s : string) : nat := nat_of_digits_acc 0 s.

(* ================================================================== *)
(** * The [re] module

    The fragment covers what [re_match] can build from a template:
    literal characters, backslash escapes of non-alphanumeric characters,
    [.], capturing groups, the quantifiers [*], [+], [?] and their lazy forms,
    and [$].  Alternation, character classes, [^], counted repetition,
    [(?...)] extensions, alphanumeric escapes and possessive quantifiers are
    reported as [NotModelled]. *)

Inductive regex : Type :=
| Eps
| Chr (c : ascii)
| Any                        (* [.] without DOTALL *)
| Eos                        (* [$] without MULTILINE *)
| Seq (r1 r2 : regex)
| Group (i : nat) (r : regex)
| Star (greedy : bool) (r : regex)
| Opt (greedy : bool) (r : regex).

Definition captures := list (nat * string).

Definition kont := string -> captures -> option captures.

(** The text consumed between the input [s] and its suffix [s']. *)
Definition consumed (s s' : string) : string :=
  str_take (String.length s - String.length s') s.

(** [$]: at the end of the string, or just before a newline that ends it. *)
Definition at_end (s : string) : bool :=
  match s with
  | EmptyString => true
  | String c EmptyString => Ascii.eqb c newline
  | _ => false
  end.

(** The loop of a repetition whose body is matched by [body]: at most one
    iteration per character of the input, since an iteration has to consume
    something. *)
Fixpoint star_loop (body : string -> captures -> kont -> option captures)
  (greedy : bool) (k : kont) (fuel : nat) (s : string) (caps : captures)
  {struct fuel} : option captures :=
  match fuel with
  | O => k s caps
  | S fuel' =>
      let again (_ : unit) :=
        body s caps
          (fun s' caps' =>
             if Nat.ltb (String.length s') (String.length s)
             then star_loop body greedy k fuel' s' caps' else None) in
      if greedy then
        match again tt with
        | Some c => Some c
        | None => k s caps
        end
      else
        match k s caps with
        | Some c => Some c
        | None => again tt
        end
  end.

(** A backtracking matcher in continuation-passing style: alternatives are
    tried in the priority order of the [sre] engine (greedy: one more
    iteration first; lazy: the continuation first). *)
Fixpoint rmatch (r : regex) (s : string) (caps : captures) (k : kont)
  : option captures :=
  match r with
  | Eps => k s caps
  | Chr c =>
      match s with
      | String c' s' => if Ascii.eqb c c' then k s' caps else None
      | EmptyString => None
      end
  | Any =>
      match s with
      | String c' s' => if Ascii.eqb c' newline then None else k s' caps
      | EmptyString => None
      end
  | Eos => if at_end s then k s caps else None
  | Seq r1 r2 => rmatch r1 s caps (fun s' caps' => rmatch r2 s' caps' k)
  | Group i r1 =>
      rmatch r1 s caps (fun s' caps' => k s' ((i, consumed s s') :: caps'))
  | Star greedy r1 =>
      star_loop (rmatch r1) greedy k (S (String.length s)) s caps
  | Opt greedy r1 =>
      if greedy then
        match rmatch r1 s caps k with
        | Some c => Some c
        | None => k s caps
        end
      else
        match k s caps with
        | Some c => Some c
        | None => rmatch r1 s caps k
        end
  end.

Fixpoint nullable (r : regex) : bool :=
  match r with
  | Eps | Eos | Star _ _ | Opt _ _ => true
  | Chr _ | Any => false
  | Seq r1 r2 => nullable r1 && nullable r2
  | Group _ r1 => nullable r1
  end.

(** ** Parsing a pattern ([sre_parse]) *)

Inductive qstate : Type :=
| QNone      (* the last item is not a quantifier *)
| QGreedy    (* the last item is a quantifier that a [?] may make lazy *)
| QLazy.     (* the last item is a lazy quantifier *)

Record pstate : Type := mk_pstate {
  cur : list regex;                  (* items of the open sequence, last first *)
  stack : list (nat * list regex);   (* enclosing groups: index, items before *)
  ngroups : nat;
  qst : qstate;
  esc : bool                         (* a backslash is pending *)
}.

Definition pstate0 : pstate := mk_pstate [] [] 0 QNone false.

Fixpoint seq_of_list (l : list regex) : regex :=
  match l with
  | [] => Eps
  | r :: l' => Seq r (seq_of_list l')
  end.

Definition make_lazy (r : regex) : regex :=
  match r with
  | Star _ r1 => Star false r1
  | Opt _ r1 => Opt false r1
  | Seq r0 (Star _ r1) => Seq r0 (Star false r1)
  | _ => r
  end.

Definition push_atom (st : pstate) (r : regex) : pstate :=
  mk_pstate (r :: cur st) (stack st) (ngroups st) QNone false.

Definition is_eos (r : regex) : bool :=
  match r with Eos => true | _ => false end.

(** A quantifier character [*], [+] or [?] after the items [cur st]. *)
Definition quantify (st : pstate) (c : ascii) : result pstate :=
  match cur st with
  | [] =>
      match stack st with
      | _ :: _ =>
          if Ascii.eqb c "?" then Raise (NotModelled "(?...) extension")
          else Raise (re_error "nothing to repeat")
      | [] => Raise (re_error "nothing to repeat")
      end
  | r :: items =>
      match qst st with
      | QGreedy =>
          if Ascii.eqb c "?" then
            Ok (mk_pstate (make_lazy r :: items) (stack st) (ngroups st) QLazy false)
          else if Ascii.eqb c "+" then Raise (NotModelled "possessive quantifier")
          else Raise (re_error "multiple repeat")
      | QLazy => Raise (re_error "multiple repeat")
      | QNone =>
          if is_eos r then Raise (re_error "nothing to repeat")
          else if Ascii.eqb c "?" then
            Ok (mk_pstate (Opt true r :: items) (stack st) (ngroups st) QGreedy false)
          else if nullable r then Raise (NotModelled "repetition of an empty match")
          else if Ascii.eqb c "*" then
            Ok (mk_pstate (Star true r :: items) (stack st) (ngroups st) QGreedy false)
          else
            Ok (mk_pstate (Seq r (Star true r) :: items) (stack st) (ngroups st)
                  QGreedy false)
      end
  end.

Definition re_step (st : pstate) (c : ascii) : result pstate :=
  if esc st then
    if is_ascii_letter c || is_digit c
    then Raise (NotModelled "alphanumeric escape")
    else Ok (push_atom st (Chr c))
  else if Ascii.eqb c "\" then
    Ok (mk_pstate (cur st) (stack st) (ngroups st) (qst st) true)
  else if Ascii.eqb c "(" then
    Ok (mk_pstate [] ((S (ngroups st), cur st) :: stack st) (S (ngroups st))
          QNone false)
  else if Ascii.eqb c ")" then
    match stack st with
    | [] => Raise (re_error "unbalanced parenthesis")
    | (i, before) :: stack' =>
        Ok (mk_pstate (Group i (seq_of_list (rev (cur st))) :: before) stack'
              (ngroups st) QNone false)
    end
  else if Ascii.eqb c "*" || Ascii.eqb c "+" || Ascii.eqb c "?" then quantify st c
  else if Ascii.eqb c "." then Ok (push_atom st Any)
  else if Ascii.eqb c "$" then Ok (push_atom st Eos)
  else if Ascii.eqb c "[" then Raise (NotModelled "character class")
  else if Ascii.eqb c "{" then Raise (NotModelled "counted repetition")
  else if Ascii.eqb c "|" then Raise (NotModelled "alternation")
  else if Ascii.eqb c "^" then Raise (NotModelled "start anchor")
  else Ok (push_atom st (Chr c)).

Fixpoint re_parse (st : pstate) (s : string) : result pstate :=
  match s with
  | EmptyString => Ok st
  | String c s' => st' <- re_step st c ;; re_parse st' s'
  end.

(** A compiled pattern: the program and its number of groups. *)
Record compiled : Type := mk_compiled {
  prog : regex;
  groupcount : nat
}.

(** [re.compile(pattern)] *)
Definition re_compile (pattern : string) : result compiled :=
  st <- re_parse pstate0 pattern ;;
  if esc st then Raise (re_error "bad escape (end of pattern)")
  else
    match stack st with
    | _ :: _ => Raise (re_error "missing ), unterminated subpattern")
    | [] => Ok (mk_compiled (seq_of_list (rev (cur st))) (ngroups st))
    end.

Fixpoint assoc {A : Type} (i : nat) (l : list (nat * A)) : option A :=
  match l with
  | [] => None
  | (j, a) :: l' => if Nat.eqb i j then Some a else assoc i l'
  end.

(** A match object, reduced to what the program reads: [Match.groups()]. *)
Definition match_obj := list (option string).

Definition groups_of (n : nat) (caps : captures) : match_obj :=
  map (fun i => assoc i caps) (seq 1 n).

(** [compiled.match(s)]: the pattern is tried at the start of [s] only. *)
Definition re_match_compiled (c : compiled) (s : string) : option match_obj :=
  match rmatch (prog c) s [] (fun _ caps => Some caps) with
  | Some caps => Some (groups_of (groupcount c) caps)
  | None => None
  end.

(* ================================================================== *)
(** * Python values and dictionaries

    A [dict] keeps its keys in insertion order, which is the order in which
    [items()] and [values()] enumerate it. *)

Inductive value : Type :=
| VStr (s : string)
| VInt (z : Z)
| VList (l : list value)
| VDict (d : list (string * value)).

Definition dict := list (string * value).

Fixpoint dict_get (k : string) (d : dict) : option value :=
  match d with
  | [] => None
  | (k', v) :: d' => if String.eqb k k' then Some v else dict_get k d'
  end.

Definition dict_mem (k : string) (d : dict) : bool :=
  match dict_get k d with Some _ => true | None => false end.

(** [d[k] = v] *)
Fixpoint dict_set (k : string) (v : value) (d : dict) : dict :=
  match d with
  | [] => [(k, v)]
  | (k', v') :: d' =>
      if String.eqb k k' then (k, v) :: d' else (k', v') :: dict_set k v d'
  end.

(** [d.pop(k)] for a key of [d] *)
Fixpoint dict_pop (k : string) (d : dict) : dict :=
  match d with
  | [] => []
  | (k', v) :: d' => if String.eqb k k' then d' else (k', v) :: dict_pop k d'
  end.

(** [d[k]] *)
Definition dict_item (k : string) (d : dict) : result value :=
  match dict_get k d with
  | Some v => Ok v
  | None => Raise (KeyError k)
  end.

(** [v[k]] where [v] has to be a dictionary *)
Definition subscript (v : value) (k : string) : result value :=
  match v with
  | VDict d => dict_item k d
  | VList _ => Raise (TypeError "list indices must be integers or slices, not str")
  | VStr _ => Raise (TypeError "string indices must be integers")
  | VInt _ => Raise (TypeError "'int' object is not subscriptable")
  end.

(** The keyword arguments of a call that unpacks the mapping [a] and then
    the mapping [b]: the two are merged, and a key of [b] that [a] already has is an error. *)
Fixpoint kwargs_merge (a b : dict) : result dict :=
  match b with
  | [] => Ok a
  | (k, v) :: b' =>
      if dict_mem k a
      then Raise (TypeError ("got multiple values for keyword argument '" ++ k ++ "'"))
      else kwargs_merge (a ++ [(k, v)])%list b'
  end.

(* ================================================================== *)
(** * Replacement fields ([str.format], [string.Formatter])

    [_string.formatter_parser] is an iterator: it hands out one
    (literal text, field name) pair at a time, and the caller substitutes the
    field before the next pair is parsed.  [format_loop] runs the two
    together, one character at a time, so that errors come in the order in
    which Python raises them.  Conversions ([!r]) and format specifications
    ([:>10]) are not modelled. *)

Inductive fmode : Type :=
| InLit                                   (* in literal text *)
| AfterOpen                               (* after a "{" *)
| AfterClose                              (* after a "}" in literal text *)
| InField (name : string) (inbr : bool).  (* in a field name, maybe in [..] *)

Inductive fstep : Type :=
| FCont (name : string) (inbr : bool)
| FEnd (name : string)
| FErr (e : exn).

(** One character of a field name ([parse_field]). *)
Definition field_char (name : string) (inbr : bool) (c : ascii) : fstep :=
  if inbr then FCont (name ++ String c "") (negb (Ascii.eqb c "]"))
  else if Ascii.eqb c "{" then FErr (ValueError "unexpected '{' in field name")
  else if Ascii.eqb c "[" then FCont (name ++ String c "") true
  else if Ascii.eqb c "}" then FEnd name
  else if Ascii.eqb c ":" || Ascii.eqb c "!"
  then FErr (NotModelled "conversion or format specification")
  else FCont (name ++ String c "") false.

Section FormatLoop.

Context {St : Type}.

(** What the caller does with a replacement field: the text that replaces
    it, and the caller's new state. *)
Variable on_field : St -> string -> result (string * St).

Fixpoint format_loop (m : fmode) (st : St) (s : string)
  : result (string * St) :=
  match s with
  | EmptyString =>
      match m with
      | InLit => Ok ("", st)
      | AfterOpen => Raise (ValueError "Single '{' encountered in format string")
      | AfterClose => Raise (ValueError "Single '}' encountered in format string")
      | InField _ _ => Raise (ValueError "expected '}' before end of string")
      end
  | String c s' =>
      let literal :=
        '(out, st') <- format_loop InLit st s' ;; Ok (String c out, st') in
      let field name inbr :=
        match field_char name inbr c with
        | FCont name' inbr' => format_loop (InField name' inbr') st s'
        | FEnd name' =>
            '(txt, st1) <- on_field st name' ;;
            '(out, st2) <- format_loop InLit st1 s' ;;
            Ok (txt ++ out, st2)
        | FErr e => Raise e
        end in
      match m with
      | InLit =>
          if Ascii.eqb c "{" then format_loop AfterOpen st s'
          else if Ascii.eqb c "}" then format_loop AfterClose st s'
          else literal
      | AfterOpen =>
          if Ascii.eqb c "{" then literal else field "" false
      | AfterClose =>
          if Ascii.eqb c "}" then literal
          else Raise (ValueError "Single '}' encountered in format string")
      | InField name inbr => field name inbr
      end
  end.

End FormatLoop.

(** ** [str.format] with keyword arguments *)

(** [format(v, "")] *)
Definition render (v : value) : result string :=
  match v with
  | VStr s => Ok s
  | VInt z => Ok (str_of_Z z)
  | VList _ => Raise (NotModelled "repr of a list")
  | VDict _ => Raise (NotModelled "repr of a dict")
  end.

(** [v[key]] inside a replacement field: a key made of digits is an int. *)
Definition getitem (v : value) (key : string) : result value :=
  if String.eqb key "" then Raise (ValueError "Empty attribute in format string")
  else if str_all is_digit key then
    match v with
    | VList l =>
        match nth_error l (nat_of_digits key) with
        | Some x => Ok x
        | None => Raise IndexError
        end
    | VStr s =>
        match String.get (nat_of_digits key) s with
        | Some c => Ok (VStr (String c ""))
        | None => Raise IndexError
        end
    | VDict _ => Raise (KeyError key)
    | VInt _ => Raise (TypeError "'int' object is not subscriptable")
    end
  else subscript v key.

Definition getattr (v : value) (name : string) : result value :=
  if String.eqb name "" then Raise (ValueError "Empty attribute in format string")
  else Raise (NotModelled "attribute lookup in a replacement field").

Inductive amode : Type :=
| AStart
| AAttr (name : string)
| AItem (key : string).

(** The part of a field name after its first component
    ([FieldNameIterator]): [.attr] and [[key]] steps, applied as they are
    read. *)
Fixpoint accessors (m : amode) (v : value) (s : string) : result value :=
  match s with
  | EmptyString =>
      match m with
      | AStart => Ok v
      | AAttr name => getattr v name
      | AItem _ => Raise (ValueError "Missing ']' in format string")
      end
  | String c s' =>
      match m with
      | AStart =>
          if Ascii.eqb c "." then accessors (AAttr "") v s'
          else if Ascii.eqb c "[" then accessors (AItem "") v s'
          else Raise (ValueError
                 "Only '.' or '[' may follow ']' in format field specifier")
      | AAttr name =>
          if Ascii.eqb c "." then
            v' <- getattr v name ;; accessors (AAttr "") v' s'
          else if Ascii.eqb c "[" then
            v' <- getattr v name ;; accessors (AItem "") v' s'
          else accessors (AAttr (name ++ String c "")) v s'
      | AItem key =>
          if Ascii.eqb c "]" then v' <- getitem v key ;; accessors AStart v' s'
          else accessors (AItem (key ++ String c "")) v s'
      end
  end.

(** The first component of a field name: up to the first "." or "[". *)
Fixpoint split_first (s : string) : string * string :=
  match s with
  | EmptyString => ("", "")
  | String c s' =>
      if Ascii.eqb c "." || Ascii.eqb c "[" then ("", s)
      else let '(a, b) := split_first s' in (String c a, b)
  end.

(** A replacement field of [str.format] called with keyword arguments only:
    an empty or numeric first component indexes the (empty) positional
    arguments. *)
Definition str_format_field (kwargs : dict) (st : unit) (field_name : string)
  : result (string * unit) :=
  let '(first, rest) := split_first field_name in
  if String.eqb first "" || str_all is_digit first then Raise IndexError
  else
    v <- dict_item first kwargs ;;
    v' <- accessors AStart v rest ;;
    txt <- render v' ;;
    Ok (txt, tt).

Definition str_format (template : string) (kwargs : dict) : result string :=
  '(out, _) <- format_loop (str_format_field kwargs) InLit tt template ;;
  Ok out.

(* ================================================================== *)
(** * [RegexpFormatter] *)

Record RegexpFormatter : Type := mk_RegexpFormatter {
  fields : list string
}.

(** [__init__] *)
Definition RegexpFormatter_init : RegexpFormatter := mk_RegexpFormatter [].

Fixpoint special_get (k : string) (special : list (string * string))
  (default : string) : string :=
  match special with
  | [] => default
  | (k', v) :: special' =>
      if String.eqb k k' then v else special_get k special' default
  end.

(** [get_field(self, field_name, args, kwargs)], where [special] is
    [kwargs.get('special', {})]. *)
Definition get_field (self : RegexpFormatter) (field_name : string)
  (special : list (string * string)) : (string * string) * RegexpFormatter :=
  let field := special_get field_name special ".*?" in
  let self' := mk_RegexpFormatter (fields self ++ [field_name]) in
  (("(" ++ field ++ ")", field_name), self').

(** One replacement field in [string.Formatter._vformat]: automatic
    numbering of empty names ([auto = None] stands for [False]), then
    [get_field]; without a conversion or a format specification the object
    is inserted as it is. *)
Definition vformat_field (special : list (string * string))
  (st : option nat * RegexpFormatter) (field_name : string)
  : result (string * (option nat * RegexpFormatter)) :=
  let '(auto, self) := st in
  let switch := ValueError
    "cannot switch from manual field specification to automatic field numbering" in
  '(name, auto') <-
    (if String.eqb field_name "" then
       match auto with
       | None => Raise switch
       | Some n => Ok (str_of_Z (Z.of_nat n), Some (S n))
       end
     else if isdigit field_name then
       match auto with
       | Some (S _) => Raise switch
       | _ => Ok (field_name, None)
       end
     else Ok (field_name, auto)) ;;
  let '((obj, _), self') := get_field self name special in
  Ok (obj, (auto', self')).

(** [self.format(format_string, special=special)] *)
Definition RegexpFormatter_format (self : RegexpFormatter)
  (format_string : string) (special : list (string * string))
  : result (string * RegexpFormatter) :=
  '(out, (_, self')) <-
    format_loop (vformat_field special) InLit (Some 0, self) format_string ;;
  Ok (out, self').

(* ================================================================== *)
(** * [TweetPattern] and its subclasses *)

Inductive klass : Type :=
| TweetPattern
| NReposInCachePattern
| RepoTweet
| LotsOfStars
| LotsOfForks.

(** [cls.patterns] *)
Definition patterns (cls : klass) : list string :=
  match cls with
  | TweetPattern =>
      ["We generate a report of repository metrics for any public github repo. Try it out at {repohealth_url}";
       "If you want to find out how your favourite repository is faring, take a look at {repohealth_url}"]
  | NReposInCachePattern =>
      ["I recently generated reports for #{names[0]} and #{names[1]} on {repohealth_url}"]
  | RepoTweet =>
      ["Just generated a health report for {name} at {url}"]
  | LotsOfStars =>
      ["Just compiled a repo report for {name} - it now has {stars_over_or_nearly}{n_stargazers} stargazers!";
       "Did you know that {name} now has {stars_over_or_nearly}{n_stargazers} stargazers on GitHub? Full report at {url}"]
  | LotsOfForks =>
      ["{name} now has {forks_over_or_nearly}{forks} forks! See the full report at {url}"]
  end.

(** A pattern object: its identity, its class, and the attribute set by
    [__init__]. *)
Record pattern_obj : Type := mk_pattern {
  oid : nat;
  cls : klass;
  pattern : string
}.

(** The attributes that [re_match] sets on first use. *)
Record matcher : Type := mk_matcher {
  re_fields : list string;
  compiled_regexp : compiled
}.

(** Which objects have these attributes, and their values. *)
Definition attrs := list (nat * matcher).

(** The class hierarchy, in [__subclasses__()] order. *)
Inductive class_tree : Type :=
| ClassNode (k : klass) (subclasses : list class_tree).

Definition hierarchy : class_tree :=
  ClassNode TweetPattern
    [ClassNode NReposInCachePattern [];
     ClassNode RepoTweet [ClassNode LotsOfStars []; ClassNode LotsOfForks []]].

Definition class_of (t : class_tree) : klass :=
  match t with ClassNode k _ => k end.

Fixpoint all_subclasses (t : class_tree) (include_self : bool) : list klass :=
  match t with
  | ClassNode k subs =>
      ((if include_self then [k] else [])
       ++ flat_map (fun sub => class_of sub :: all_subclasses sub false) subs)%list
  end.

(** [cls.all_patterns()], the objects being numbered from [next]. *)
Definition all_patterns (k : klass) (next : nat) : list pattern_obj :=
  map (fun '(i, p) => mk_pattern i k p)
      (combine (seq next (List.length (patterns k))) (patterns k)).

Fixpoint all_patterns_of (ks : list klass) (next : nat) : list pattern_obj :=
  match ks with
  | [] => []
  | k :: ks' =>
      (all_patterns k next
       ++ all_patterns_of ks' (next + List.length (patterns k)))%list
  end.

(** What the generator [cls.all_patterns_all_subclasses()] yields. *)
Definition all_patterns_all_subclasses (t : class_tree) (include_self : bool)
  : list pattern_obj :=
  all_patterns_of (all_subclasses t include_self) 0.

(** ** [re_match] *)

Definition escape (pattern : string) : string :=
  replace "." "\." (replace "*" "\*" (replace "?" "\?" pattern)).

(** The body of [if not hasattr(self, 'compiled_regexp')]. *)
Definition compile_pattern (pattern : string) : result matcher :=
  let p := escape pattern in
  let re_formatter := RegexpFormatter_init in
  '(regexp, re_formatter') <- RegexpFormatter_format re_formatter p [] ;;
  c <- re_compile (regexp ++ "$") ;;
  Ok (mk_matcher (fields re_formatter') c).

Definition hasattr (h : attrs) (self : pattern_obj) : bool :=
  match assoc (oid self) h with Some _ => true | None => false end.

Definition getattrs (h : attrs) (self : pattern_obj) : result matcher :=
  match assoc (oid self) h with
  | Some m => Ok m
  | None => Raise (AttributeError "object has no attribute 'compiled_regexp'")
  end.

Definition re_match (self : pattern_obj) (tweet : string) (h : attrs)
  : result (option match_obj * attrs) :=
  h' <- (if negb (hasattr h self) then
           m <- compile_pattern (pattern self) ;;
           Ok ((oid self, m) :: h)
         else Ok h) ;;
  m <- getattrs h' self ;;
  Ok (re_match_compiled (compiled_regexp m) tweet, h').

(** ** [format] *)

(** Unpacking [v] into keyword arguments: [v] has to be a mapping. *)
Definition as_mapping (v : value) : result dict :=
  match v with
  | VDict d => Ok d
  | _ => Raise (TypeError "argument after ** must be a mapping")
  end.

(** [self.pattern.format] called with the keyword arguments
    [extra_context or {}] unpacked first and [context] unpacked second. *)
Definition format (self : pattern_obj) (context : value)
  (extra_context : option dict) : result string :=
  let extra := match extra_context with Some d => d | None => [] end in
  d <- as_mapping context ;;
  kwargs <- kwargs_merge extra d ;;
  str_format (pattern self) kwargs.

(** ** [drop_content] *)

Definition checkable : list string := ["uuid"; "name"; "url"].

Definition group_eqb (txt : string) (g : option string) : bool :=
  match g with
  | Some s => String.eqb txt s
  | None => false
  end.

(** The loop over [content.items()] for one field [f] with group [g]:
    [Some] of the pool after the [pop] when a record is found. *)
Fixpoint drop_first_match (f : string) (g : option string) (items : dict)
  (content : dict) : result (option dict) :=
  match items with
  | [] => Ok None
  | (uuid, context) :: items' =>
      d <- as_mapping context ;;
      txt <- str_format ("{" ++ f ++ "}") d ;;
      if group_eqb txt g then Ok (Some (dict_pop uuid content))
      else drop_first_match f g items' content
  end.

(** The loop over [zip(self.re_fields, match.groups())]. *)
Fixpoint drop_content_loop (fgs : list (string * option string))
  (content : dict) : result dict :=
  match fgs with
  | [] => Ok content
  | (f, g) :: fgs' =>
      if existsb (String.eqb f) checkable then
        r <- drop_first_match f g content content ;;
        match r with
        | Some content' => Ok content'
        | None => drop_content_loop fgs' content
        end
      else drop_content_loop fgs' content
  end.

Definition RepoTweet_drop_content (self : pattern_obj) (message : string)
  (content : dict) (h : attrs) : result (dict * attrs) :=
  '(m, h') <- re_match self message h ;;
  flds <- getattrs h' self ;;
  match m with
  | None => Raise (AttributeError "'NoneType' object has no attribute 'groups'")
  | Some groups =>
      content' <- drop_content_loop (combine (re_fields flds) groups) content ;;
      Ok (content', h')
  end.

(** [self.drop_content(message, content)], by the class of [self]. *)
Definition drop_content (self : pattern_obj) (message : string)
  (content : dict) (h : attrs) : result (dict * attrs) :=
  match cls self with
  | TweetPattern | NReposInCachePattern => Ok (content, h)
  | RepoTweet | LotsOfStars | LotsOfForks =>
      RepoTweet_drop_content self message content h
  end.

(* ================================================================== *)
(** * Rounding *)

Open Scope Z_scope.

(** [floor(log10(x))] for [x > 0].  [math.log10] is taken to be exact: the
    floating-point value it returns is not modelled. *)
Fixpoint floor_log10_fuel (fuel : nat) (x : Z) : Z :=
  match fuel with
  | O => 0
  | S fuel' => if x <? 10 then 0 else 1 + floor_log10_fuel fuel' (x / 10)
  end.

Definition floor_log10 (x : Z) : Z :=
  floor_log10_fuel (S (Z.to_nat (Z.log2 x))) x.

(** [divmod] rounding the quotient to the nearest integer, ties to even
    ([_PyLong_DivmodNear]), for a positive divisor. *)
Definition divmod_near (a b : Z) : Z * Z :=
  let q := a / b in
  let r := a mod b in
  if (b <? 2 * r) || ((2 * r =? b) && Z.odd q) then (q + 1, r - b) else (q, r).

(** [round(x, ndigits)] for an int [x] *)
Definition round (x ndigits : Z) : Z :=
  if 0 <=? ndigits then x
  else x - snd (divmod_near x (10 ^ (- ndigits))).

Definition round_sig (x : Z) (sig : Z) : result Z :=
  if x <=? 0 then Raise (ValueError "math domain error")
  else Ok (round x (sig - floor_log10 x - 1)).

Definition round_with_direction_string (x : Z) : result (Z * string) :=
  rounded <- round_sig x 2 ;;
  let over_nearly_or_exactly :=
    if rounded <? x then "less than"%string
    else if x <? rounded then "more than"%string
    else "same as"%string in
  Ok (rounded, over_nearly_or_exactly).

(** ** Statistics of a record *)

Definition stargazers (context : value) : result value :=
  github <- subscript context "github" ;;
  repo <- subscript github "repo" ;;
  subscript repo "stargazers_count".

Definition forks (context : value) : result value :=
  github <- subscript context "github" ;;
  repo <- subscript github "repo" ;;
  subscript repo "forks_count".

Definition repo_name (context : value) : result value :=
  github <- subscript context "github" ;;
  repo <- subscript github "repo" ;;
  subscript repo "name".

(** A statistic used as a number. *)
Definition as_int (v : value) : result Z :=
  match v with
  | VInt z => Ok z
  | _ => Raise (TypeError "an int is required")
  end.

(** ** [condition], [updated_context], [context] *)

Definition len (v : value) : result Z :=
  match v with
  | VDict d => Ok (Z.of_nat (List.length d))
  | VList l => Ok (Z.of_nat (List.length l))
  | VStr s => Ok (Z.of_nat (String.length s))
  | VInt _ => Raise (TypeError "object of type 'int' has no len()")
  end.

Definition condition (self : pattern_obj) (context : value) : result bool :=
  match cls self with
  | TweetPattern | RepoTweet => Ok true
  | NReposInCachePattern => n <- len context ;; Ok (2 <=? n)
  | LotsOfStars => v <- stargazers context ;; n <- as_int v ;; Ok (50 <=? n)
  | LotsOfForks => v <- forks context ;; n <- as_int v ;; Ok (50 <=? n)
  end.

(** The qualifier shown for a rounding direction. *)
Definition over_nearly_or_exactly (direction : string) : result string :=
  if String.eqb direction "less than" then Ok "over "%string
  else if String.eqb direction "more than" then Ok "nearly "%string
  else if String.eqb direction "same as" then Ok ""%string
  else Raise (KeyError direction).

(** [sorted(l, key=...)] on keys already computed: a stable insertion. *)
Fixpoint insert_sorted (x : Z * value) (l : list (Z * value)) : list (Z * value) :=
  match l with
  | [] => [x]
  | y :: l' => if fst x <? fst y then x :: l else y :: insert_sorted x l'
  end.

Definition sort_by_key (l : list (Z * value)) : list (Z * value) :=
  fold_left (fun acc x => insert_sorted x acc) l [].

Fixpoint mapM {A B : Type} (f : A -> result B) (l : list A) : result (list B) :=
  match l with
  | [] => Ok []
  | a :: l' => b <- f a ;; bs <- mapM f l' ;; Ok (b :: bs)
  end.

(** [context.copy()], followed by a statistic read from the copy: only a
    dictionary gets through both. *)
Definition copy_for_update (context : value) : result dict :=
  match context with
  | VDict d => Ok d
  | VList _ => Raise (TypeError "list indices must be integers or slices, not str")
  | _ => Raise (AttributeError "object has no attribute 'copy'")
  end.

(** [context.values()] *)
Definition values (context : value) : result (list value) :=
  match context with
  | VDict d => Ok (map snd d)
  | _ => Raise (AttributeError "object has no attribute 'values'")
  end.

(** A sort key: only ints are ordered in the model. *)
Definition sort_key (v : value) : result Z :=
  match v with
  | VInt z => Ok z
  | _ => Raise (NotModelled "ordering of values other than ints")
  end.

(** The rounded statistic and its qualifier, stored under the two keys. *)
Definition with_rounded (stat : value -> result value) (count_key qual_key : string)
  (context : value) : result value :=
  d <- copy_for_update context ;;
  v <- stat (VDict d) ;;
  n <- as_int v ;;
  '(n_rd, direction) <- round_with_direction_string n ;;
  q <- over_nearly_or_exactly direction ;;
  Ok (VDict (dict_set qual_key (VStr q) (dict_set count_key (VInt n_rd) d))).

Definition updated_context (self : pattern_obj) (context : value) : result value :=
  match cls self with
  | TweetPattern | RepoTweet => Ok context
  | NReposInCachePattern =>
      vals <- values context ;;
      keyed <- mapM (fun c => v <- stargazers c ;; n <- sort_key v ;; Ok (n, c)) vals ;;
      let top_repos := map snd (sort_by_key keyed) in
      names <- mapM repo_name (firstn 3 top_repos) ;;
      n_repos <- len context ;;
      d <- as_mapping context ;;
      d' <- kwargs_merge d [("n_repos"%string, VInt n_repos);
                            ("names"%string, VList names)] ;;
      Ok (VDict d')
  | LotsOfStars =>
      with_rounded stargazers "n_stargazers" "stars_over_or_nearly" context
  | LotsOfForks =>
      with_rounded forks "forks" "forks_over_or_nearly" context
  end.

(** [TweetPattern.context]: at most one (pattern, context) pair. *)
Definition TweetPattern_context (self : pattern_obj) (context : value)
  : result (list (pattern_obj * value)) :=
  c <- condition self context ;;
  if c then context' <- updated_context self context ;; Ok [(self, context')]
  else Ok [].

(** [self.context(content)], a generator: each element is one step of it,
    which yields some pairs or raises. *)
Definition context (self : pattern_obj) (full_context : dict)
  : list (result (list (pattern_obj * value))) :=
  match cls self with
  | TweetPattern | NReposInCachePattern =>
      [TweetPattern_context self (VDict full_context)]
  | RepoTweet | LotsOfStars | LotsOfForks =>
      map (fun '(uuid, context) => TweetPattern_context self context) full_context
  end.

Close Scope Z_scope.

(* ================================================================== *)
(** * The recency filter *)

(** What a caller may pass as [patterns]. *)
Inductive py_iterable : Type :=
| PyList (l : list pattern_obj)
| PyGenerator (yields : list pattern_obj).

(** Objects are compared by identity. *)
Definition same_object (p q : pattern_obj) : bool := Nat.eqb (oid p) (oid q).

(** [p in l] *)
Definition list_in (p : pattern_obj) (l : list pattern_obj) : bool :=
  existsb (same_object p) l.

(** [l.remove(p)] for a member [p] *)
Fixpoint list_remove (p : pattern_obj) (l : list pattern_obj) : list pattern_obj :=
  match l with
  | [] => []
  | q :: l' => if same_object p q then l' else q :: list_remove p l'
  end.

(** The loop over [recent_messages] for one pattern. *)
Fixpoint drop_recent_messages (pattern : pattern_obj) (recent_messages : list string)
  (content : dict) (res : list pattern_obj) (h : attrs)
  : result (list pattern_obj * dict * attrs) :=
  match recent_messages with
  | [] => Ok (res, content, h)
  | message :: rest =>
      '(m, h1) <- re_match pattern message h ;;
      match m with
      | Some _ =>
          '(content', h2) <- drop_content pattern message content h1 ;;
          let res' := if list_in pattern res then list_remove pattern res else res in
          drop_recent_messages pattern rest content' res' h2
      | None => drop_recent_messages pattern rest content res h1
      end
  end.

(** The loop over [patterns]. *)
Fixpoint drop_recent_patterns (patterns : list pattern_obj)
  (recent_messages : list string) (content : dict) (res : list pattern_obj)
  (h : attrs) : result (list pattern_obj * dict * attrs) :=
  match patterns with
  | [] => Ok (res, content, h)
  | pattern :: rest =>
      '(res', content', h') <-
        drop_recent_messages pattern recent_messages content res h ;;
      drop_recent_patterns rest recent_messages content' res' h'
  end.

(** [drop_recent(recent_messages, patterns, content)]: the list returned,
    the pool and the pattern attributes after the call. *)
Definition drop_recent (recent_messages : list string) (patterns : py_iterable)
  (content : dict) (h : attrs) : result (list pattern_obj * dict * attrs) :=
  match patterns with
  | PyGenerator _ =>
      Raise (AttributeError "'generator' object has no attribute 'copy'")
  | PyList l =>
      let res := l in
      drop_recent_patterns l recent_messages content res h
  end.

(* ================================================================== *)
(** * The cycle *)

(** The loops that fill [tweet_options]: the list as it stands when the
    loops end, and the exception that ended them, if any. *)
Fixpoint render_pairs (pairs : list (pattern_obj * value)) (global_context : dict)
  (tweet_options : list string) : list string * option exn :=
  match pairs with
  | [] => (tweet_options, None)
  | (pattern, context) :: pairs' =>
      match format pattern context (Some global_context) with
      | Ok msg => render_pairs pairs' global_context (tweet_options ++ [msg])%list
      | Raise e => (tweet_options, Some e)
      end
  end.

Fixpoint render_steps (steps : list (result (list (pattern_obj * value))))
  (global_context : dict) (tweet_options : list string)
  : list string * option exn :=
  match steps with
  | [] => (tweet_options, None)
  | Raise e :: _ => (tweet_options, Some e)
  | Ok pairs :: steps' =>
      match render_pairs pairs global_context tweet_options with
      | (tweet_options', None) => render_steps steps' global_context tweet_options'
      | stopped => stopped
      end
  end.

Fixpoint render_options (patterns : list pattern_obj) (content : dict)
  (global_context : dict) (tweet_options : list string)
  : list string * option exn :=
  match patterns with
  | [] => (tweet_options, None)
  | pattern_gen :: rest =>
      match render_steps (context pattern_gen content) global_context tweet_options with
      | (tweet_options', None) => render_options rest content global_context tweet_options'
      | stopped => stopped
      end
  end.

(** The loop that adds [uuid], [name] and [url] to every record. *)
Fixpoint add_extra_content (content : dict) : result dict :=
  match content with
  | [] => Ok []
  | (uuid, context) :: content' =>
      d <- as_mapping context ;;
      let d1 := if dict_mem "uuid" d then d else dict_set "uuid" (VStr uuid) d in
      name <- repo_name (VDict d1) ;;
      let d2 := dict_set "name" name d1 in
      let d3 := dict_set "url" (VStr ("repohealth.info/report/" ++ uuid)) d2 in
      rest <- add_extra_content content' ;;
      Ok ((uuid, VDict d3) :: rest)
  end.

(** How a cycle ends. *)
Inductive outcome : Type :=
| NothingToTweet
| Tweeted (msg : string)
| Raised (e : exn).

(** [tweet_status()].  Its inputs are what the collaborators return: the
    cached reports by uuid, the texts of the timeline, and the index drawn by
    [random.choice].  The result is [tweet_options] as it stands when the
    function ends, and how it ends. *)
Definition tweet_status (cached : dict) (timeline : list string) (pick : nat)
  : list string * outcome :=
  let patterns := PyGenerator (all_patterns_all_subclasses hierarchy true) in
  let recently_tweeted := timeline in
  match add_extra_content cached with
  | Raise e => ([], Raised e)
  | Ok content =>
      let global_context := [("repohealth_url", VStr "repohealth.info")] in
      match drop_recent recently_tweeted patterns content [] with
      | Raise e => ([], Raised e)
      | Ok (patterns', content', _) =>
          match render_options patterns' content' global_context [] with
          | (tweet_options, Some e) => (tweet_options, Raised e)
          | ([], None) => ([], NothingToTweet)
          | (tweet_options, None) =>
              (tweet_options,
               Tweeted (nth (pick mod List.length tweet_options) tweet_options ""))
          end
      end
  end.

(* ================================================================== *)
(** * Vocabulary of the statements *)

(** A field name that is a single keyword: not empty, not a number, and
    without any character that the replacement-field syntax reads. *)
Definition field_name_char (c : ascii) : bool :=
  negb (str_mem c "{}[].:!").

Definition plain_name (name : string) : bool :=
  negb (String.eqb name "") && str_all field_name_char name
  && negb (str_all is_digit name).

(** Successive calls of [re_match] on one object. *)
Fixpoint re_match_each (self : pattern_obj) (tweets : list string) (h : attrs)
  : result (list (option match_obj) * attrs) :=
  match tweets with
  | [] => Ok ([], h)
  | tweet :: tweets' =>
      '(m, h1) <- re_match self tweet h ;;
      '(ms, h2) <- re_match_each self tweets' h1 ;;
      Ok (m :: ms, h2)
  end.

(** A template as a sequence of literal texts and placeholders. *)
Inductive segment : Type :=
| Lit (text : string)
| Field (name : string).

Fixpoint template_of (segs : list segment) : string :=
  match segs with
  | [] => ""
  | Lit t :: segs' => t ++ template_of segs'
  | Field n :: segs' => "{" ++ n ++ "}" ++ template_of segs'
  end.

Fixpoint field_names (segs : list segment) : list string :=
  match segs with
  | [] => []
  | Lit _ :: segs' => field_names segs'
  | Field n :: segs' => n :: field_names segs'
  end.

(** The template with the values [vals] in the place of its placeholders. *)
Fixpoint fill (segs : list segment) (vals : list string) : string :=
  match segs with
  | [] => ""
  | Lit t :: segs' => t ++ fill segs' vals
  | Field _ :: segs' =>
      match vals with
      | v :: vals' => v ++ fill segs' vals'
      | [] => fill segs' []
      end
  end.

(** Literal text that [escape] makes safe: no brace, and no character with
    a meaning in a regular expression other than the three that [escape]
    handles. *)
Definition literal_char (c : ascii) : bool :=
  negb (str_mem c "{}\()[|^$+").

(** A field name that reaches [get_field] unchanged: [escape] leaves it as
    it is, and the field ends at the first closing brace outside brackets. *)
Fixpoint field_name_ok_from (inbr : bool) (s : string) : bool :=
  match s with
  | EmptyString => negb inbr
  | String c s' =>
      negb (str_mem c "?*.") &&
      (if inbr then field_name_ok_from (negb (Ascii.eqb c "]")) s'
       else negb (str_mem c "{}:!") && field_name_ok_from (Ascii.eqb c "[") s')
  end.

Definition placeholder_name (name : string) : bool :=
  negb (String.eqb name "") && negb (str_all is_digit name)
  && field_name_ok_from false name.

Definition plain_segment (sg : segment) : bool :=
  match sg with
  | Lit t => str_all literal_char t
  | Field n => placeholder_name n
  end.

Definition plain_template (segs : list segment) : bool :=
  forallb plain_segment segs.

Definition no_newline (v : string) : bool := negb (str_mem newline v).

(** Every placeholder value is free of newlines and is followed by the end
    of the template or by literal text whose first character the value does
    not contain. *)
Fixpoint separated (segs : list segment) (vals : list string) : bool :=
  match segs with
  | [] => match vals with [] => true | _ => false end
  | Lit _ :: segs' => separated segs' vals
  | Field _ :: segs' =>
      match vals with
      | [] => false
      | v :: vals' =>
          no_newline v
          && match segs' with
             | [] => true
             | Lit (String c _) :: _ => negb (str_mem c v)
             | _ => false
             end
          && separated segs' vals'
      end
  end.

(** The program that [re.compile] builds for a plain template. *)
Definition lazy_group (i : nat) : regex := Group i (Seq (Star false Any) Eps).

Fixpoint chrs (t : string) : list regex :=
  match t with
  | EmptyString => []
  | String c t' => Chr c :: chrs t'
  end.

Fixpoint items (segs : list segment) (i : nat) : list regex :=
  match segs with
  | [] => []
  | Lit t :: segs' => (chrs t ++ items segs' i)%list
  | Field _ :: segs' => lazy_group i :: items segs' (S i)
  end.

Definition matcher_of (segs : list segment) : matcher :=
  mk_matcher (field_names segs)
    (mk_compiled (seq_of_list (items segs 1 ++ [Eos])%list)
       (List.length (field_names segs))).

Definition escape_segment (sg : segment) : segment :=
  match sg with
  | Lit t => Lit (escape t)
  | Field n => Field n
  end.

(** The text that [RegexpFormatter.format] returns for a plain template. *)
Fixpoint regexp_of (segs : list segment) : string :=
  match segs with
  | [] => ""
  | Lit t :: segs' => escape t ++ regexp_of segs'
  | Field _ :: segs' => "(.*?)" ++ regexp_of segs'
  end.

(** The parser state after a literal text, a lazy group, a plain template. *)
Fixpoint push_lit (st : pstate) (t : string) : pstate :=
  match t with
  | EmptyString => st
  | String c t' => push_lit (push_atom st (Chr c)) t'
  end.

Definition push_group (st : pstate) : pstate :=
  mk_pstate (lazy_group (S (ngroups st)) :: cur st) (stack st)
    (S (ngroups st)) QNone false.

Fixpoint push_segs (st : pstate) (segs : list segment) : pstate :=
  match segs with
  | [] => st
  | Lit t :: segs' => push_segs (push_lit st t) segs'
  | Field _ :: segs' => push_segs (push_group st) segs'
  end.

(** [s] without its prefix [t], when it starts with [t]. *)
Fixpoint strip_prefix (t s : string) : option string :=
  match t with
  | EmptyString => Some s
  | String c t' =>
      match s with
      | String c' s' => if Ascii.eqb c c' then strip_prefix t' s' else None
      | EmptyString => None
      end
  end.

(** A lazy run of [.]: the shortest newline-free extension of [pre] after
    which [k] succeeds. *)
Fixpoint lazy_any (k : string -> string -> option captures) (pre s : string)
  : option captures :=
  match k pre s with
  | Some c => Some c
  | None =>
      match s with
      | String ch s' =>
          if Ascii.eqb ch newline then None
          else lazy_any k (pre ++ String ch "") s'
      | EmptyString => None
      end
  end.

(** The matcher of a plain template, segment by segment. *)
Fixpoint seg_match (segs : list segment) (i : nat) (s : string) (caps : captures)
  : option captures :=
  match segs with
  | [] => if at_end s then Some caps else None
  | Lit t :: segs' =>
      match strip_prefix t s with
      | Some s' => seg_match segs' i s' caps
      | None => None
      end
  | Field _ :: segs' =>
      lazy_any (fun pre rest => seg_match segs' (S i) rest ((i, pre) :: caps)) "" s
  end.

(** The captures after the groups [i], [i+1], ... took the values [vals]. *)
Fixpoint bind_groups (i : nat) (vals : list string) (caps : captures) : captures :=
  match vals with
  | [] => caps
  | v :: vals' => bind_groups (S i) vals' ((i, v) :: caps)
  end.

(** A record that carries the fields that [drop_content] may render, as
    [tweet_status] prepares every record of the pool. *)
Definition scalar_field (f : string) (d : dict) : bool :=
  match dict_get f d with
  | Some (VStr _) | Some (VInt _) => true
  | _ => false
  end.

Definition record_ready (v : value) : bool :=
  match v with
  | VDict d => forallb (fun f => scalar_field f d) checkable
  | _ => false
  end.

Definition pool_ready (content : dict) : bool :=
  forallb (fun kv => record_ready (snd kv)) content.

(** The field [f] of the record, rendered, is the text of the group [g]. *)
Definition field_matches (f : string) (g : option string) (rec : value) : bool :=
  match rec with
  | VDict d =>
      match str_format ("{" ++ f ++ "}") d with
      | Ok txt => group_eqb txt g
      | Raise _ => false
      end
  | _ => false
  end.

(** The first record of [items] that matches, by its key. *)
Fixpoint find_record (f : string) (g : option string) (items : dict)
  : option string :=
  match items with
  | [] => None
  | (uuid, rec) :: items' =>
      if field_matches f g rec then Some uuid else find_record f g items'
  end.

(** The (field, group) pairs that [drop_content] looks at. *)
Definition checkable_pairs (flds : list string) (groups : match_obj)
  : list (string * option string) :=
  filter (fun fg => existsb (String.eqb (fst fg)) checkable) (combine flds groups).

(** What a retraction does to the pool: nothing when no record matches any
    pair; otherwise the record removed is the first match, in the order of
    the pool, of the first pair that has a match. *)
Definition retracts (fgs : list (string * option string)) (content content' : dict)
  : Prop :=
  (content' = content /\
   forall f g uuid rec,
     In (f, g) fgs -> In (uuid, rec) content -> field_matches f g rec = false)
  \/
  (exists fgs1 f g fgs2 before uuid rec after,
     fgs = (fgs1 ++ (f, g) :: fgs2)%list /\
     (forall f' g' uuid' rec',
        In (f', g') fgs1 -> In (uuid', rec') content ->
        field_matches f' g' rec' = false) /\
     content = (before ++ (uuid, rec) :: after)%list /\
     (forall uuid' rec', In (uuid', rec') before -> field_matches f g rec' = false) /\
     field_matches f g rec = true /\
     content' = (before ++ after)%list /\
     dict_get uuid content' = None /\
     S (List.length content') = List.length content).

(** Whether the attributes stored for [p], if any, are those of its
    template. *)
Definition attrs_ok (h : attrs) (p : pattern_obj) : Prop :=
  forall m, assoc (oid p) h = Some m -> compile_pattern (pattern p) = Ok m.

(** Whether the matcher of [p] matches the message. *)
Definition accepts (p : pattern_obj) (message : string) : bool :=
  match compile_pattern (pattern p) with
  | Ok m =>
      match re_match_compiled (compiled_regexp m) message with
      | Some _ => true
      | None => false
      end
  | Raise _ => false
  end.

(** The pool after [p.drop_content(message, content)]. *)
Definition retraction (p : pattern_obj) (message : string) (content : dict) : dict :=
  match cls p with
  | TweetPattern | NReposInCachePattern => content
  | RepoTweet | LotsOfStars | LotsOfForks =>
      match compile_pattern (pattern p) with
      | Ok m =>
          match re_match_compiled (compiled_regexp m) message with
          | Some groups =>
              match drop_content_loop (combine (re_fields m) groups) content with
              | Ok content' => content'
              | Raise _ => content
              end
          | None => content
          end
      | Raise _ => content
      end
  end.

(** [result.remove(pattern)] guarded by [pattern in result]. *)
Definition remove_obj (p : pattern_obj) (res : list pattern_obj) : list pattern_obj :=
  if list_in p res then list_remove p res else res.

(** The patterns that no recent message matches. *)
Definition unmatched (recent_messages : list string) (pats : list pattern_obj)
  : list pattern_obj :=
  filter (fun p => negb (existsb (accepts p) recent_messages)) pats.

(** The pool after the retractions of a run of [drop_recent]: one for each
    pattern and message that the pattern matches, pattern by pattern. *)
Definition pruned_pool (recent_messages : list string) (pats : list pattern_obj)
  (content : dict) : dict :=
  fold_left
    (fun c pm => if accepts (fst pm) (snd pm) then retraction (fst pm) (snd pm) c else c)
    (list_prod pats recent_messages) content.

(** The template of the pattern compiles. *)
Definition compiles (p : pattern_obj) : Prop :=
  exists m, compile_pattern (pattern p) = Ok m.

(** Text without braces. *)
Definition brace_free (t : string) : bool :=
  str_all (fun c => negb (str_mem c "{}")) t.

(** A field name that the replacement-field parser reads up to the closing
    brace that follows it. *)
Fixpoint field_name_closed_from (inbr : bool) (s : string) : bool :=
  match s with
  | EmptyString => negb inbr
  | String c s' =>
      if inbr then field_name_closed_from (negb (Ascii.eqb c "]")) s'
      else negb (str_mem c "{}:!") && field_name_closed_from (Ascii.eqb c "[") s'
  end.

(** A name that [string.Formatter] hands to [get_field] as it is written:
    not empty and not a number, which are numbered automatically. *)
Definition keyword_name (name : string) : bool :=
  negb (String.eqb name "") && negb (str_all is_digit name)
  && field_name_closed_from false name.

Definition formatter_segment (sg : segment) : bool :=
  match sg with
  | Lit t => brace_free t
  | Field n => keyword_name n
  end.

(** The text of a template in which every placeholder is replaced by the
    group of its override in [special], or of the lazy wildcard. *)
Fixpoint regexp_with (special : list (string * string)) (segs : list segment)
  : string :=
  match segs with
  | [] => ""
  | Lit t :: segs' => t ++ regexp_with special segs'
  | Field n :: segs' =>
      "(" ++ special_get n special ".*?" ++ ")" ++ regexp_with special segs'
  end.

(** A message that the template spells: the template with a newline-free
    value in the place of each placeholder, and at most one newline after
    it. *)
Definition instance_of (segs : list segment) (message : string) : Prop :=
  exists vals : list string,
    List.length vals = List.length (field_names segs) /\
    Forall (fun v => no_newline v = true) vals /\
    (message = fill segs vals \/
     message = (fill segs vals ++ String newline "")%string).

(** Literal texts without newlines. *)
Definition one_line_segment (sg : segment) : bool :=
  match sg with
  | Lit t => no_newline t
  | Field _ => true
  end.

(** What the preparation loop of [tweet_status] makes of a record. *)
Definition prepared (uuid : string) (rec rec' : value) : Prop :=
  exists (d d' : dict) (name : value),
    rec = VDict d /\ rec' = VDict d' /\
    repo_name (VDict d) = Ok name /\
    dict_get "uuid" d' =
      Some (match dict_get "uuid" d with Some v => v | None => VStr uuid end) /\
    dict_get "name" d' = Some name /\
    dict_get "url" d' = Some (VStr ("repohealth.info/report/" ++ uuid)) /\
    forall k, k <> "uuid" -> k <> "name" -> k <> "url" ->
      dict_get k d' = dict_get k d.

(** A cached report that the preparation loop accepts and makes ready: a
    dictionary whose repository name is a string and whose uuid, if it has
    one, is a string or an int. *)
Definition report_ok (rec : value) : Prop :=
  exists (d : dict) (name : string),
    rec = VDict d /\ repo_name (VDict d) = Ok (VStr name) /\
    (dict_get "uuid" d = None \/ scalar_field "uuid" d = true).

(** The classes of a tree, each before its subclasses. *)
Fixpoint preorder (t : class_tree) : list klass :=
  match t with
  | ClassNode k subs => k :: flat_map preorder subs
  end.

(** The count of stargazers and the name of a record that has them. *)
Definition stars_of (v : value) : Z :=
  match stargazers v with
  | Ok (VInt n) => n
  | _ => 0%Z
  end.

Definition name_of (v : value) : value :=
  match repo_name v with
  | Ok name => name
  | Raise _ => VStr ""
  end.

(** The order of the sort keys. *)
Definition le_key (a b : Z * value) : Prop := (fst a <= fst b)%Z.

(** A record that [NReposInCachePattern] can rank and name. *)
Definition rankable (v : value) : Prop :=
  (exists n, stargazers v = Ok (VInt n)) /\ (exists name, repo_name v = Ok name).

(** What a call returns, without the state it leaves. *)
Definition returned {A B : Type} (r : result (A * B)) : result A :=
  '(a, _) <- r ;; Ok a.

(* ================================================================== *)
(** * Properties *)

(** ** Strings *)

Lemma append_assoc (a b c : string) : ((a ++ b) ++ c = a ++ (b ++ c))%string.
Proof. induction a as [|x a IH]; cbn; [reflexivity | now rewrite IH]. Qed.

Lemma append_nil_r (a : string) : (a ++ "")%string = a.
Proof. induction a as [|x a IH]; cbn; [reflexivity | now rewrite IH]. Qed.

Lemma str_all_app (p : ascii -> bool) (a b : string) :
  str_all p (a ++ b) = str_all p a && str_all p b.
Proof.
  induction a as [|x a IH]; cbn; [reflexivity | now rewrite IH, andb_assoc].
Qed.

Lemma length_append (a b : string) :
  String.length (a ++ b) = String.length a + String.length b.
Proof. induction a as [|x a IH]; cbn; [reflexivity | now rewrite IH]. Qed.

(** ** Rounding *)

Section Rounding.

Open Scope Z_scope.

Lemma floor_log10_fuel_spec (fuel : nat) :
  forall x, 0 < x < 2 ^ Z.of_nat fuel ->
    0 <= floor_log10_fuel fuel x /\
    10 ^ floor_log10_fuel fuel x <= x < 10 ^ (floor_log10_fuel fuel x + 1).
Proof.
  induction fuel as [|fuel IH]; intros x Hx.
  - simpl in Hx. lia.
  - cbn [floor_log10_fuel]. destruct (x <? 10) eqn:E.
    + apply Z.ltb_lt in E. simpl. lia.
    + apply Z.ltb_ge in E.
      assert (Hd : 0 < x / 10 < 2 ^ Z.of_nat fuel).
      { rewrite Nat2Z.inj_succ, Z.pow_succ_r in Hx by lia.
        split.
        - apply Z.div_str_pos. lia.
        - apply Z.div_lt_upper_bound; lia. }
      destruct (IH _ Hd) as (H0 & Hlo & Hhi).
      set (e := floor_log10_fuel fuel (x / 10)) in *.
      pose proof (Z.div_mod x 10 ltac:(lia)) as Hdm.
      pose proof (Z.mod_pos_bound x 10 ltac:(lia)) as Hm.
      replace (1 + e) with (Z.succ e) by lia.
      replace (Z.succ e + 1) with (Z.succ (e + 1)) by lia.
      rewrite !Z.pow_succ_r by lia.
      lia.
Qed.

Lemma floor_log10_spec (x : Z) :
  0 < x ->
  0 <= floor_log10 x /\ 10 ^ floor_log10 x <= x < 10 ^ (floor_log10 x + 1).
Proof.
  intros Hx. unfold floor_log10. apply floor_log10_fuel_spec.
  split; [lia|].
  rewrite Nat2Z.inj_succ, Z2Nat.id by apply Z.log2_nonneg.
  apply Z.log2_spec; lia.
Qed.

Lemma divmod_near_spec (a b : Z) :
  0 < b ->
  a = b * fst (divmod_near a b) + snd (divmod_near a b) /\
  2 * Z.abs (snd (divmod_near a b)) <= b.
Proof.
  intros Hb. unfold divmod_near.
  pose proof (Z.div_mod a b ltac:(lia)) as Hdm.
  pose proof (Z.mod_pos_bound a b Hb) as Hm.
  destruct (b <? 2 * (a mod b)) eqn:E1; cbn [orb fst snd].
  - apply Z.ltb_lt in E1. lia.
  - apply Z.ltb_ge in E1.
    destruct (2 * (a mod b) =? b) eqn:E2; cbn [andb].
    + apply Z.eqb_eq in E2. destruct (Z.odd (a / b)); cbn [fst snd]; lia.
    + cbn [fst snd]. lia.
Qed.

Lemma round_spec (x ndigits : Z) :
  let p := 10 ^ Z.max 0 (- ndigits) in
  (exists m, round x ndigits = m * p) /\ 2 * Z.abs (round x ndigits - x) <= p.
Proof.
  cbv zeta. unfold round. destruct (0 <=? ndigits) eqn:E.
  - apply Z.leb_le in E. replace (Z.max 0 (- ndigits)) with 0 by lia.
    rewrite Z.pow_0_r. split; [exists x; lia | lia].
  - apply Z.leb_gt in E. replace (Z.max 0 (- ndigits)) with (- ndigits) by lia.
    assert (Hp : 0 < 10 ^ (- ndigits)) by (apply Z.pow_pos_nonneg; lia).
    destruct (divmod_near_spec x _ Hp) as [H1 H2].
    split.
    + exists (fst (divmod_near x (10 ^ (- ndigits)))). lia.
    + lia.
Qed.

End Rounding.

(** C7. [round_with_direction_string(1234)] is [(1200, "less than")] and
    [round_with_direction_string(50)] is [(50, "same as")]; the qualifiers
    shown are "over " for "less than", "nearly " for "more than" and the empty
    string for "same as".  For every positive integer [x] the function
    returns, the rounded value is the multiple of the unit of the second
    significant digit of [x] that is nearest to [x], the direction is
    "less than", "more than" or "same as" as the rounded value is below,
    above or equal to [x], and [LotsOfStars.updated_context] stores the
    rounded value with the qualifier of that direction. *)
Theorem rounding_qualifier (x : Z) :
  (0 < x)%Z ->
  round_with_direction_string 1234 = Ok (1200%Z, "less than") /\
  round_with_direction_string 50 = Ok (50%Z, "same as") /\
  over_nearly_or_exactly "less than" = Ok "over " /\
  over_nearly_or_exactly "more than" = Ok "nearly " /\
  over_nearly_or_exactly "same as" = Ok "" /\
  exists (rounded : Z) (direction qualifier : string),
    round_with_direction_string x = Ok (rounded, direction) /\
    over_nearly_or_exactly direction = Ok qualifier /\
    (10 ^ floor_log10 x <= x < 10 ^ (floor_log10 x + 1))%Z /\
    (let unit := (10 ^ Z.max 0 (floor_log10 x - 1))%Z in
     (exists m : Z, rounded = (m * unit)%Z) /\
     (2 * Z.abs (rounded - x) <= unit)%Z) /\
    ((rounded < x)%Z -> direction = "less than" /\ qualifier = "over ") /\
    ((x < rounded)%Z -> direction = "more than" /\ qualifier = "nearly ") /\
    (rounded = x -> direction = "same as" /\ qualifier = "") /\
    forall (self : pattern_obj) (d : dict),
      cls self = LotsOfStars ->
      stargazers (VDict d) = Ok (VInt x) ->
      updated_context self (VDict d) =
        Ok (VDict (dict_set "stars_over_or_nearly" (VStr qualifier)
                     (dict_set "n_stargazers" (VInt rounded) d))).
Proof.
  intros Hx.
  do 5 (split; [reflexivity|]).
  pose proof (floor_log10_spec x Hx) as (He & Hbounds).
  pose proof (round_spec x (2 - floor_log10 x - 1)) as Hr. cbv zeta in Hr.
  replace (Z.max 0 (- (2 - floor_log10 x - 1)))
    with (Z.max 0 (floor_log10 x - 1)) in Hr by lia.
  set (rounded := round x (2 - floor_log10 x - 1)) in *.
  assert (Hrs : round_sig x 2 = Ok rounded).
  { unfold round_sig. destruct (x <=? 0)%Z eqn:E; [apply Z.leb_le in E; lia|].
    reflexivity. }
  assert (Hcases :
    exists direction qualifier,
      round_with_direction_string x = Ok (rounded, direction) /\
      over_nearly_or_exactly direction = Ok qualifier /\
      ((rounded < x)%Z -> direction = "less than" /\ qualifier = "over ") /\
      ((x < rounded)%Z -> direction = "more than" /\ qualifier = "nearly ") /\
      (rounded = x -> direction = "same as" /\ qualifier = "")).
  { unfold round_with_direction_string. rewrite Hrs. cbn [bind].
    destruct (rounded <? x)%Z eqn:E1.
    - apply Z.ltb_lt in E1. exists "less than", "over ".
      repeat split; try reflexivity; lia.
    - apply Z.ltb_ge in E1. destruct (x <? rounded)%Z eqn:E2.
      + apply Z.ltb_lt in E2. exists "more than", "nearly ".
        repeat split; try reflexivity; lia.
      + apply Z.ltb_ge in E2. exists "same as", "".
        repeat split; try reflexivity; lia. }
  destruct Hcases as (direction & qualifier & Hrd & Hq & Hlt & Hgt & Heq).
  exists rounded, direction, qualifier.
  split; [exact Hrd|]. split; [exact Hq|]. split; [exact Hbounds|].
  split; [exact Hr|].
  split; [exact Hlt|]. split; [exact Hgt|]. split; [exact Heq|].
  intros self d Hcls Hstars.
  unfold updated_context, with_rounded. rewrite Hcls.
  cbn [copy_for_update bind]. rewrite Hstars. cbn [bind as_int].
  rewrite Hrd. cbn [bind]. rewrite Hq. reflexivity.
Qed.

Lemma rounding_qualifier_witness :
  exists (rounded : Z) (direction qualifier : string),
    round_with_direction_string 999 = Ok (rounded, direction) /\
    over_nearly_or_exactly direction = Ok qualifier /\
    ((999 < rounded)%Z -> direction = "more than" /\ qualifier = "nearly ").
Proof.
  destruct (rounding_qualifier 999 ltac:(lia))
    as (_ & _ & _ & _ & _ & r & dir & q & H1 & H2 & _ & _ & _ & H3 & _).
  exists r, dir, q. repeat split; try assumption; apply H3; assumption.
Defined.

(** ** The cycle and the generator of patterns *)

(** C10. [drop_recent] starts with [patterns.copy()], which a generator does
    not have; [tweet_status] passes the generator returned by
    [all_patterns_all_subclasses], so every run that reaches the pruning step
    ends there with an [AttributeError], [tweet_options] being still empty. *)
Theorem tweet_status_raises_at_pruning
  (cached : dict) (timeline : list string) (pick : nat) (content : dict) :
  add_extra_content cached = Ok content ->
  (forall (yields : list pattern_obj) (h : attrs),
     drop_recent timeline (PyGenerator yields) content h =
       Raise (AttributeError "'generator' object has no attribute 'copy'")) /\
  tweet_status cached timeline pick =
    ([], Raised (AttributeError "'generator' object has no attribute 'copy'")).
Proof.
  intros Hready. split.
  - intros yields h. reflexivity.
  - unfold tweet_status. rewrite Hready. reflexivity.
Qed.

Lemma tweet_status_raises_at_pruning_witness :
  tweet_status
    [("a", VDict [("github", VDict [("repo", VDict [("name", VStr "octo")])])])]
    ["Just generated a health report for octo at repohealth.info/report/a"] 0 =
    ([], Raised (AttributeError "'generator' object has no attribute 'copy'")).
Proof.
  refine (proj2 (tweet_status_raises_at_pruning _ _ _ _ _)).
  vm_compute. reflexivity.
Defined.

(** ** Keyword arguments *)

Lemma dict_mem_app (k : string) (a b : dict) :
  dict_mem k (a ++ b)%list = dict_mem k a || dict_mem k b.
Proof.
  unfold dict_mem. induction a as [|[k' v] a IH]; simpl.
  - reflexivity.
  - destruct (String.eqb k k'); [reflexivity | exact IH].
Qed.

Lemma dict_mem_In (k : string) (d : dict) :
  dict_mem k d = true <-> In k (map fst d).
Proof.
  unfold dict_mem. induction d as [|[k' v] d IH]; simpl.
  - split; [discriminate | tauto].
  - destruct (String.eqb_spec k k') as [->|Hne].
    + split; auto.
    + rewrite IH. split; [auto | intros [H|H]; [congruence | exact H]].
Qed.

Lemma kwargs_merge_shared (b : dict) :
  forall (a : dict) (k : string),
    dict_mem k a = true -> dict_mem k b = true ->
    exists k',
      dict_mem k' b = true /\
      (NoDup (map fst b) -> dict_mem k' a = true) /\
      kwargs_merge a b =
        Raise (TypeError ("got multiple values for keyword argument '" ++ k' ++ "'")).
Proof.
  induction b as [|[k0 v] b IH]; intros a k Ha Hb.
  - discriminate.
  - cbn [kwargs_merge]. destruct (dict_mem k0 a) eqn:E.
    + exists k0. split; [|split; [intros _; exact E | reflexivity]].
      apply dict_mem_In. now left.
    + assert (Hk : dict_mem k b = true).
      { apply dict_mem_In in Hb. destruct Hb as [Hb|Hb].
        - simpl in Hb. subst k0. congruence.
        - apply dict_mem_In. exact Hb. }
      destruct (IH (a ++ [(k0, v)])%list k) as (k' & Hk' & Hnd & Hraise).
      { rewrite dict_mem_app, Ha. reflexivity. }
      { exact Hk. }
      exists k'. split; [|split; [|exact Hraise]].
      * apply dict_mem_In. right. apply dict_mem_In. exact Hk'.
      * intros Hnodup. simpl in Hnodup. inversion Hnodup as [|? ? Hnotin Hnd']; subst.
        specialize (Hnd Hnd'). rewrite dict_mem_app in Hnd.
        apply orb_true_iff in Hnd. destruct Hnd as [Hnd|Hnd]; [exact Hnd|].
        apply dict_mem_In in Hnd. simpl in Hnd. destruct Hnd as [<-|[]].
        apply dict_mem_In in Hk'. contradiction.
Qed.

(** C3, as the code has it.  When [context] and [extra_context] share a key,
    [format] does not return: unpacking both into the keyword arguments of
    [str.format] raises a [TypeError] that names a key of [context] (a shared
    key, the keys of [context] being distinct), whatever the template. *)
Theorem format_shared_key_raises
  (self : pattern_obj) (context extra_context : dict) (k : string) :
  dict_mem k context = true ->
  dict_mem k extra_context = true ->
  exists k',
    dict_mem k' context = true /\
    (NoDup (map fst context) -> dict_mem k' extra_context = true) /\
    format self (VDict context) (Some extra_context) =
      Raise (TypeError ("got multiple values for keyword argument '" ++ k' ++ "'")).
Proof.
  intros Hc He.
  destruct (kwargs_merge_shared context extra_context k He Hc)
    as (k' & Hk' & Hnd & Hraise).
  exists k'. split; [exact Hk'|]. split; [exact Hnd|].
  unfold format. cbn [as_mapping bind]. rewrite Hraise. reflexivity.
Qed.

Lemma format_shared_key_raises_witness :
  exists k',
    format (mk_pattern 0 TweetPattern "Try it out at {repohealth_url}")
      (VDict [("repohealth_url", VStr "example.org")])
      (Some [("repohealth_url", VStr "repohealth.info")]) =
      Raise (TypeError ("got multiple values for keyword argument '" ++ k' ++ "'")).
Proof.
  destruct (format_shared_key_raises
              (mk_pattern 0 TweetPattern "Try it out at {repohealth_url}")
              [("repohealth_url", VStr "example.org")]
              [("repohealth_url", VStr "repohealth.info")]
              "repohealth_url" eq_refl eq_refl) as (k' & _ & _ & H).
  exists k'. exact H.
Defined.

(** C3 fails as stated: with the key [repohealth_url] in both mappings the
    call raises instead of rendering the value of [context]. *)
Lemma format_shared_key_counterexample :
  let self := mk_pattern 0 TweetPattern "Try it out at {repohealth_url}" in
  let context := VDict [("repohealth_url", VStr "example.org")] in
  let extra_context := [("repohealth_url", VStr "repohealth.info")] in
  format self context (Some extra_context) <> Ok "Try it out at example.org" /\
  format self context (Some extra_context) =
    Raise (TypeError "got multiple values for keyword argument 'repohealth_url'").
Proof.
  cbv zeta. split; [|vm_compute; reflexivity].
  vm_compute. discriminate.
Qed.

(** ** Missing fields *)

Section FormatLoopFacts.

Context {St : Type}.
Variable on_field : St -> string -> result (string * St).

Lemma bind_pair_eta (r : result (string * St)) :
  ('(o, st) <- r ;; Ok (("" ++ o)%string, st)) = r.
Proof. destruct r as [[o st]|e]; reflexivity. Qed.

Lemma format_loop_app (pre : string) :
  forall (m : fmode) (st : St) (out : string) (st' : St),
    format_loop on_field m st pre = Ok (out, st') ->
    forall s,
      format_loop on_field m st (pre ++ s) =
        ('(o2, st2) <- format_loop on_field InLit st' s ;; Ok (out ++ o2, st2)).
Proof.
  induction pre as [|c pre IH]; intros m st out st' H s.
  - destruct m; cbn in H; try discriminate.
    injection H as <- <-. cbn [append]. symmetry. apply bind_pair_eta.
  - cbn [append]. cbn [format_loop] in H |- *.
    assert (Hlit :
      ('(o, st0) <- format_loop on_field InLit st pre ;; Ok (String c o, st0))
        = Ok (out, st') ->
      ('(o, st0) <- format_loop on_field InLit st (pre ++ s) ;; Ok (String c o, st0))
        = ('(o2, st2) <- format_loop on_field InLit st' s ;; Ok (out ++ o2, st2))).
    { intros Hl.
      destruct (format_loop on_field InLit st pre) as [[o st0]|e] eqn:E;
        cbn in Hl; [|discriminate].
      injection Hl as <- <-. rewrite (IH _ _ _ _ E).
      destruct (format_loop on_field InLit st0 s) as [[o2 st2]|e2]; reflexivity. }
    assert (Hfield : forall name inbr,
      match field_char name inbr c with
      | FCont name' inbr' => format_loop on_field (InField name' inbr') st pre
      | FEnd name' =>
          '(txt, st1) <- on_field st name' ;;
          '(o, st2) <- format_loop on_field InLit st1 pre ;;
          Ok (txt ++ o, st2)
      | FErr e => Raise e
      end = Ok (out, st') ->
      match field_char name inbr c with
      | FCont name' inbr' => format_loop on_field (InField name' inbr') st (pre ++ s)
      | FEnd name' =>
          '(txt, st1) <- on_field st name' ;;
          '(o, st2) <- format_loop on_field InLit st1 (pre ++ s) ;;
          Ok (txt ++ o, st2)
      | FErr e => Raise e
      end = ('(o2, st2) <- format_loop on_field InLit st' s ;; Ok (out ++ o2, st2))).
    { intros name inbr Hf.
      destruct (field_char name inbr c) as [name' inbr'|name'|e].
      - apply IH. exact Hf.
      - destruct (on_field st name') as [[txt st1]|e]; cbn in Hf |- *; [|discriminate].
        destruct (format_loop on_field InLit st1 pre) as [[o st2]|e] eqn:E;
          cbn in Hf; [|discriminate].
        injection Hf as <- <-. rewrite (IH _ _ _ _ E).
        destruct (format_loop on_field InLit st2 s) as [[o2 st3]|e2]; cbn;
          [|reflexivity].
        rewrite append_assoc. reflexivity.
      - discriminate. }
    destruct m as [| | |name inbr].
    + destruct (Ascii.eqb c "{"); [apply IH; exact H|].
      destruct (Ascii.eqb c "}"); [apply IH; exact H|].
      apply Hlit. exact H.
    + destruct (Ascii.eqb c "{"); [apply Hlit; exact H | apply Hfield; exact H].
    + destruct (Ascii.eqb c "}"); [apply Hlit; exact H | discriminate].
    + apply Hfield. exact H.
Qed.

Lemma field_name_char_step (acc : string) (c : ascii) :
  field_name_char c = true ->
  field_char acc false c = FCont (acc ++ String c "") false.
Proof.
  unfold field_name_char, field_char. cbn [str_mem].
  rewrite negb_true_iff, !orb_false_iff. intros (H1 & H2 & H3 & H4 & H5 & H6 & H7 & _).
  cbn [negb]. rewrite H1, H3, H2, H6, H7. reflexivity.
Qed.

Lemma format_loop_in_field (name : string) :
  str_all field_name_char name = true ->
  forall (acc : string) (st : St) (post : string),
    format_loop on_field (InField acc false) st (name ++ String "}" post) =
      ('(txt, st1) <- on_field st (acc ++ name) ;;
       '(out, st2) <- format_loop on_field InLit st1 post ;;
       Ok (txt ++ out, st2)).
Proof.
  induction name as [|c name IH]; intros Hname acc st post.
  - cbn [append format_loop]. unfold field_char. cbn.
    rewrite append_nil_r. reflexivity.
  - cbn [str_all] in Hname. apply andb_true_iff in Hname as [Hc Hname].
    cbn [append format_loop]. rewrite (field_name_char_step _ _ Hc).
    rewrite (IH Hname). rewrite append_assoc. reflexivity.
Qed.

Lemma format_loop_open_field (name : string) :
  str_all field_name_char name = true ->
  forall (st : St) (post : string),
    format_loop on_field InLit st (String "{" (name ++ String "}" post)) =
      ('(txt, st1) <- on_field st name ;;
       '(out, st2) <- format_loop on_field InLit st1 post ;;
       Ok (txt ++ out, st2)).
Proof.
  intros Hname st post.
  pose proof (format_loop_in_field name Hname "" st post) as Hin.
  cbn [append] in Hin. rewrite <- Hin. clear Hin.
  destruct name as [|c name].
  - reflexivity.
  - cbn [str_all] in Hname. apply andb_true_iff in Hname as [Hc _].
    cbn [append]. cbn [format_loop]. cbn.
    destruct (Ascii.eqb c "{") eqn:E; [|reflexivity].
    apply Ascii.eqb_eq in E. subst c. discriminate.
Qed.

End FormatLoopFacts.

Lemma split_first_plain (name : string) :
  str_all field_name_char name = true -> split_first name = (name, "").
Proof.
  induction name as [|c name IH]; intros H.
  - reflexivity.
  - cbn [str_all] in H. apply andb_true_iff in H as [Hc H].
    cbn [split_first]. rewrite (IH H).
    unfold field_name_char in Hc. cbn [str_mem] in Hc.
    rewrite negb_true_iff, !orb_false_iff in Hc.
    destruct Hc as (_ & _ & H3 & _ & H5 & _).
    rewrite H5, H3. reflexivity.
Qed.

Lemma str_format_field_missing (kwargs : dict) (name : string) :
  plain_name name = true ->
  dict_get name kwargs = None ->
  str_format_field kwargs tt name = Raise (KeyError name).
Proof.
  unfold plain_name. rewrite !andb_true_iff, !negb_true_iff.
  intros [[Hne Hchars] Hnum] Hget.
  unfold str_format_field. rewrite (split_first_plain _ Hchars).
  rewrite Hne, Hnum. cbn [orb]. unfold dict_item. rewrite Hget. reflexivity.
Qed.

(** C4, as the code has it.  When the merged keyword arguments lack the name
    of a replacement field, and the template renders up to that field,
    [format] raises the built-in [KeyError] for that name; the loops of
    [tweet_status] that render the candidates do not catch it: they end with
    that exception, [tweet_options] being left as it was, and the remaining
    patterns and records are not rendered. *)
Theorem missing_field_raises_KeyError
  (self : pattern_obj) (before name after : string)
  (record extra_context kwargs : dict) (rendered : string)
  (uuid : string) (records : dict) (others : list pattern_obj)
  (tweet_options : list string) :
  pattern self = (before ++ "{" ++ name ++ "}" ++ after)%string ->
  plain_name name = true ->
  kwargs_merge extra_context record = Ok kwargs ->
  dict_get name kwargs = None ->
  str_format before kwargs = Ok rendered ->
  format self (VDict record) (Some extra_context) = Raise (KeyError name) /\
  (cls self = RepoTweet ->
   render_options (self :: others) ((uuid, VDict record) :: records)
     extra_context tweet_options = (tweet_options, Some (KeyError name))).
Proof.
  intros Hpat Hname Hmerge Hget Hbefore.
  assert (Hfmt : format self (VDict record) (Some extra_context)
                 = Raise (KeyError name)).
  { unfold format. cbn [as_mapping bind]. rewrite Hmerge. cbn [bind].
    unfold str_format in *. rewrite Hpat.
    destruct (format_loop (str_format_field kwargs) InLit tt before)
      as [[out []]|e] eqn:E; cbn in Hbefore; [|discriminate].
    rewrite (format_loop_app _ _ _ _ _ _ E).
    assert (Hchars : str_all field_name_char name = true).
    { unfold plain_name in Hname. rewrite !andb_true_iff in Hname. tauto. }
    change ("{" ++ name ++ "}" ++ after)%string
      with (String "{" (name ++ String "}" after)).
    rewrite (format_loop_open_field _ _ Hchars).
    rewrite (str_format_field_missing _ _ Hname Hget). reflexivity. }
  split; [exact Hfmt|].
  intros Hcls. cbn [render_options]. unfold context. rewrite Hcls.
  cbn [map]. unfold TweetPattern_context, condition, updated_context.
  rewrite Hcls. cbn [bind render_steps render_pairs]. rewrite Hfmt. reflexivity.
Qed.

Lemma missing_field_raises_KeyError_witness :
  format (mk_pattern 0 RepoTweet "{name} has {stars} stars")
    (VDict [("name", VStr "octo")])
    (Some [("repohealth_url", VStr "repohealth.info")]) = Raise (KeyError "stars").
Proof.
  refine (proj1 (missing_field_raises_KeyError
            (mk_pattern 0 RepoTweet "{name} has {stars} stars")
            "{name} has " "stars" " stars"
            [("name", VStr "octo")] [("repohealth_url", VStr "repohealth.info")]
            [("repohealth_url", VStr "repohealth.info"); ("name", VStr "octo")]
            "octo has " "a" [] [] [] _ _ _ _ _)); reflexivity.
Defined.

(** C4 fails as stated: the error is the built-in [KeyError], and the cycle
    stops at it.  The second pattern would render for the same record, but
    the loops have ended before it is tried. *)
Lemma missing_field_counterexample :
  let p1 := mk_pattern 0 RepoTweet "{name} has {stars} stars" in
  let p2 := mk_pattern 1 RepoTweet "Just generated a health report for {name} at {url}" in
  let record := VDict [("name", VStr "octo"); ("url", VStr "r.io/a")] in
  let global_context := [("repohealth_url", VStr "repohealth.info")] in
  format p1 record (Some global_context) = Raise (KeyError "stars") /\
  render_options [p1; p2] [("a", record)] global_context [] =
    ([], Some (KeyError "stars")) /\
  render_options [p2] [("a", record)] global_context [] =
    (["Just generated a health report for octo at r.io/a"], None).
Proof.
  cbv zeta. repeat split; vm_compute; reflexivity.
Qed.

(** ** The cached matcher *)

Lemma re_match_cached (self : pattern_obj) (tweet : string) (h : attrs) (m : matcher) :
  assoc (oid self) h = Some m ->
  re_match self tweet h = Ok (re_match_compiled (compiled_regexp m) tweet, h).
Proof.
  intros Hm. unfold re_match, hasattr, getattrs. rewrite Hm. cbn. rewrite Hm.
  reflexivity.
Qed.

Lemma re_match_first (self : pattern_obj) (tweet : string) (h : attrs) :
  hasattr h self = false ->
  re_match self tweet h =
    (m <- compile_pattern (pattern self) ;;
     Ok (re_match_compiled (compiled_regexp m) tweet, (oid self, m) :: h)).
Proof.
  intros Hfresh. unfold re_match. rewrite Hfresh. cbn [negb].
  destruct (compile_pattern (pattern self)) as [m|e]; cbn [bind]; [|reflexivity].
  unfold getattrs. cbn [assoc]. rewrite Nat.eqb_refl. reflexivity.
Qed.

Lemma re_match_each_cached (self : pattern_obj) (m : matcher) (tweets : list string) :
  forall h, assoc (oid self) h = Some m ->
    re_match_each self tweets h =
      Ok (map (re_match_compiled (compiled_regexp m)) tweets, h).
Proof.
  induction tweets as [|tweet tweets IH]; intros h Hm.
  - reflexivity.
  - cbn [re_match_each]. rewrite (re_match_cached _ _ _ _ Hm). cbn [bind].
    rewrite (IH _ Hm). reflexivity.
Qed.

(** C9. The matcher and the field order of a pattern come from its template
    alone ([compile_pattern (pattern self)]); the first call of [re_match]
    computes and stores them, every later call returns the match of the
    stored matcher and leaves the stored attributes as they are; and two
    patterns with the same template accept the same strings, with the same
    groups. *)
Theorem matcher_stability
  (self : pattern_obj) (tweet : string) (tweets : list string) (h : attrs) :
  hasattr h self = false ->
  match compile_pattern (pattern self) with
  | Ok m =>
      re_match_each self (tweet :: tweets) h =
        Ok (map (re_match_compiled (compiled_regexp m)) (tweet :: tweets),
            (oid self, m) :: h)
  | Raise e => re_match self tweet h = Raise e
  end /\
  (forall (m : matcher) (h' : attrs),
     assoc (oid self) h' = Some m ->
     re_match self tweet h' = Ok (re_match_compiled (compiled_regexp m) tweet, h')) /\
  (forall (other : pattern_obj) (h' : attrs),
     pattern other = pattern self ->
     hasattr h' other = false ->
     returned (re_match other tweet h') = returned (re_match self tweet h)).
Proof.
  intros Hfresh. split; [|split].
  - pose proof (re_match_first self tweet h Hfresh) as H1.
    destruct (compile_pattern (pattern self)) as [m|e]; [|exact H1].
    cbn [re_match_each]. rewrite H1. cbn [bind].
    rewrite (re_match_each_cached self m tweets).
    + reflexivity.
    + cbn [assoc]. rewrite Nat.eqb_refl. reflexivity.
  - intros m h' Hm. apply re_match_cached. exact Hm.
  - intros other h' Hsame Hfresh'.
    rewrite (re_match_first _ _ _ Hfresh), (re_match_first _ _ _ Hfresh'), Hsame.
    destruct (compile_pattern (pattern self)); reflexivity.
Qed.

Lemma matcher_stability_witness :
  returned (re_match (mk_pattern 7 LotsOfForks "Just generated a health report for {name} at {url}")
              "Just generated a health report for octo at r.io/a" []) =
  returned (re_match (mk_pattern 3 RepoTweet "Just generated a health report for {name} at {url}")
              "Just generated a health report for octo at r.io/a" []).
Proof.
  pose proof (matcher_stability
    (mk_pattern 3 RepoTweet "Just generated a health report for {name} at {url}")
    "Just generated a health report for octo at r.io/a" [] []) as H.
  destruct (H eq_refl) as (_ & _ & H3).
  apply H3; reflexivity.
Defined.

(** ** From a plain template to its compiled matcher *)

Lemma replace_app (old : ascii) (new a b : string) :
  replace old new (a ++ b) = (replace old new a ++ replace old new b)%string.
Proof.
  induction a as [|c a IH]; cbn [append replace].
  - reflexivity.
  - rewrite IH. destruct (Ascii.eqb c old); cbn [append].
    + rewrite append_assoc. reflexivity.
    + reflexivity.
Qed.

Lemma escape_app (a b : string) : escape (a ++ b) = (escape a ++ escape b)%string.
Proof. unfold escape. rewrite !replace_app. reflexivity. Qed.

Lemma escape_cons (c : ascii) (t : string) :
  escape (String c t) =
    ((if str_mem c "?*." then String "\" (String c "") else String c "")
     ++ escape t)%string.
Proof.
  change (String c t) with (String c "" ++ t)%string. rewrite escape_app.
  f_equal. unfold escape. cbn [replace str_mem].
  destruct (Ascii.eqb_spec c "?") as [->|H1]; [reflexivity|].
  cbn [replace orb].
  destruct (Ascii.eqb_spec c "*") as [->|H2]; [reflexivity|].
  cbn [replace orb].
  destruct (Ascii.eqb_spec c ".") as [->|H3]; reflexivity.
Qed.

Lemma escape_unchanged (t : string) :
  str_all (fun c => negb (str_mem c "?*.")) t = true -> escape t = t.
Proof.
  induction t as [|c t IH]; intros H.
  - reflexivity.
  - cbn [str_all] in H. apply andb_true_iff in H as [Hc H].
    rewrite escape_cons, (IH H). apply negb_true_iff in Hc. rewrite Hc. reflexivity.
Qed.

Lemma field_name_ok_unescaped (name : string) :
  forall inbr, field_name_ok_from inbr name = true ->
    str_all (fun c => negb (str_mem c "?*.")) name = true.
Proof.
  induction name as [|c name IH]; intros inbr H.
  - reflexivity.
  - cbn [field_name_ok_from] in H. apply andb_true_iff in H as [Hc H].
    cbn [str_all]. rewrite Hc. cbn [andb].
    destruct inbr.
    + eapply IH. exact H.
    + apply andb_true_iff in H as [_ H]. eapply IH. exact H.
Qed.

Lemma placeholder_name_ok (name : string) :
  placeholder_name name = true -> field_name_ok_from false name = true.
Proof. unfold placeholder_name. rewrite !andb_true_iff. tauto. Qed.

Lemma escape_template (segs : list segment) :
  plain_template segs = true ->
  escape (template_of segs) = template_of (map escape_segment segs).
Proof.
  induction segs as [|[t|n] segs IH]; intros H.
  - reflexivity.
  - cbn [plain_template forallb] in H. apply andb_true_iff in H as [_ H].
    cbn [template_of map escape_segment]. rewrite escape_app, (IH H). reflexivity.
  - cbn [plain_template forallb plain_segment] in H.
    apply andb_true_iff in H as [Hn H].
    cbn [template_of map escape_segment].
    rewrite !escape_app, (IH H).
    rewrite (escape_unchanged n).
    + reflexivity.
    + eapply field_name_ok_unescaped, placeholder_name_ok, Hn.
Qed.

Section FormatLoopSegments.

Context {St : Type}.
Variable on_field : St -> string -> result (string * St).

Lemma format_loop_literal (t : string) :
  str_all (fun c => negb (str_mem c "{}")) t = true ->
  forall (st : St) (rest : string),
    format_loop on_field InLit st (t ++ rest) =
      ('(out, st') <- format_loop on_field InLit st rest ;; Ok (t ++ out, st')).
Proof.
  induction t as [|c t IH]; intros Ht st rest.
  - cbn [append]. symmetry. apply bind_pair_eta.
  - cbn [str_all] in Ht. apply andb_true_iff in Ht as [Hc Ht].
    cbn [str_mem] in Hc. rewrite negb_true_iff, !orb_false_iff in Hc.
    destruct Hc as (H1 & H2 & _).
    cbn [append format_loop]. rewrite H1, H2, (IH Ht).
    destruct (format_loop on_field InLit st rest) as [[o st']|e]; reflexivity.
Qed.

Lemma format_loop_in_field_ok (name : string) :
  forall (inbr : bool) (acc : string) (st : St) (post : string),
    field_name_ok_from inbr name = true ->
    format_loop on_field (InField acc inbr) st (name ++ String "}" post) =
      ('(txt, st1) <- on_field st (acc ++ name) ;;
       '(out, st2) <- format_loop on_field InLit st1 post ;;
       Ok (txt ++ out, st2)).
Proof.
  induction name as [|c name IH]; intros inbr acc st post H.
  - cbn [field_name_ok_from] in H. apply negb_true_iff in H. subst inbr.
    cbn [append format_loop]. unfold field_char. cbn.
    rewrite append_nil_r. reflexivity.
  - cbn [field_name_ok_from] in H. apply andb_true_iff in H as [_ H].
    cbn [append format_loop]. destruct inbr.
    + unfold field_char. rewrite (IH _ _ _ _ H), append_assoc. reflexivity.
    + apply andb_true_iff in H as [Hc H].
      cbn [str_mem] in Hc. rewrite negb_true_iff, !orb_false_iff in Hc.
      destruct Hc as (H1 & H2 & H3 & H4 & _).
      unfold field_char. rewrite H1, H2, H3, H4. cbn [orb].
      destruct (Ascii.eqb c "[") eqn:E;
        rewrite (IH _ _ _ _ H), append_assoc; reflexivity.
Qed.

Lemma format_loop_placeholder (name : string) :
  placeholder_name name = true ->
  forall (st : St) (post : string),
    format_loop on_field InLit st (String "{" (name ++ String "}" post)) =
      ('(txt, st1) <- on_field st name ;;
       '(out, st2) <- format_loop on_field InLit st1 post ;;
       Ok (txt ++ out, st2)).
Proof.
  intros Hname st post.
  pose proof (format_loop_in_field_ok name false "" st post
                (placeholder_name_ok _ Hname)) as Hin.
  cbn [append] in Hin. rewrite <- Hin. clear Hin.
  destruct name as [|c name]; [discriminate|].
  apply placeholder_name_ok in Hname. cbn [field_name_ok_from] in Hname.
  apply andb_true_iff in Hname as [_ Hname].
  apply andb_true_iff in Hname as [Hc _].
  cbn [str_mem] in Hc. rewrite negb_true_iff, !orb_false_iff in Hc.
  destruct Hc as (H1 & _).
  cbn [append format_loop]. rewrite H1. reflexivity.
Qed.

End FormatLoopSegments.

Lemma escape_no_brace (t : string) :
  str_all literal_char t = true ->
  str_all (fun c => negb (str_mem c "{}")) (escape t) = true.
Proof.
  induction t as [|c t IH]; intros H.
  - reflexivity.
  - cbn [str_all] in H. apply andb_true_iff in H as [Hc H].
    rewrite escape_cons. specialize (IH H).
    unfold literal_char in Hc. cbn [str_mem] in Hc.
    rewrite negb_true_iff, !orb_false_iff in Hc. destruct Hc as (H1 & H2 & _).
    rewrite str_all_app, IH, andb_true_r.
    destruct (str_mem c "?*."); cbn [str_all str_mem]; rewrite H1, H2; reflexivity.
Qed.

Lemma vformat_field_placeholder (name : string) (auto : option nat)
  (self : RegexpFormatter) :
  placeholder_name name = true ->
  vformat_field [] (auto, self) name =
    Ok ("(.*?)", (auto, mk_RegexpFormatter (fields self ++ [name]))).
Proof.
  unfold placeholder_name. rewrite !andb_true_iff, !negb_true_iff.
  intros [[Hne Hnum] _]. unfold vformat_field, isdigit.
  rewrite Hne, Hnum. reflexivity.
Qed.

Lemma format_escaped_template (segs : list segment) :
  plain_template segs = true ->
  forall fs : list string,
    format_loop (vformat_field []) InLit (Some 0, mk_RegexpFormatter fs)
      (template_of (map escape_segment segs)) =
      Ok (regexp_of segs, (Some 0, mk_RegexpFormatter (fs ++ field_names segs))).
Proof.
  induction segs as [|[t|n] segs IH]; intros H fs.
  - cbn. rewrite app_nil_r. reflexivity.
  - cbn [plain_template forallb plain_segment] in H.
    apply andb_true_iff in H as [Ht H].
    cbn [map escape_segment template_of regexp_of field_names].
    rewrite (format_loop_literal _ _ (escape_no_brace _ Ht)), (IH H). reflexivity.
  - cbn [plain_template forallb plain_segment] in H.
    apply andb_true_iff in H as [Hn H].
    cbn [map escape_segment template_of regexp_of field_names].
    change ("{" ++ n ++ "}" ++ template_of (map escape_segment segs))%string
      with (String "{" (n ++ String "}" (template_of (map escape_segment segs)))).
    rewrite (format_loop_placeholder _ _ Hn), (vformat_field_placeholder _ _ _ Hn).
    cbn [bind fields]. rewrite (IH H). cbn [bind].
    rewrite <- app_assoc. reflexivity.
Qed.

Lemma re_parse_app (a b : string) :
  forall st, re_parse st (a ++ b) = (st' <- re_parse st a ;; re_parse st' b).
Proof.
  induction a as [|c a IH]; intros st; cbn [append re_parse bind].
  - reflexivity.
  - destruct (re_step st c) as [st'|e]; cbn [bind]; [apply IH | reflexivity].
Qed.

Lemma esc_push_lit (t : string) :
  forall st, esc st = false -> esc (push_lit st t) = false.
Proof.
  induction t as [|c t IH]; intros st H; cbn [push_lit]; [exact H|].
  apply IH. reflexivity.
Qed.

Lemma re_step_literal (st : pstate) (c : ascii) :
  esc st = false ->
  literal_char c = true ->
  str_mem c "?*." = false ->
  re_step st c = Ok (push_atom st (Chr c)).
Proof.
  intros He Hc Hs. unfold literal_char in Hc. cbn [str_mem] in Hc, Hs.
  rewrite negb_true_iff in Hc. rewrite !orb_false_iff in Hc.
  rewrite !orb_false_iff in Hs.
  destruct Hc as (H1 & H2 & H3 & H4 & H5 & H6 & H7 & H8 & H9 & H10 & _).
  destruct Hs as (S1 & S2 & S3 & _).
  unfold re_step. rewrite He, H3, H4, H5, S2, H10, S1, S3, H9, H6, H1, H7, H8.
  reflexivity.
Qed.

Lemma re_step_escaped (st : pstate) (c : ascii) :
  esc st = false ->
  str_mem c "?*." = true ->
  re_parse st (String "\" (String c "")) = Ok (push_atom st (Chr c)).
Proof.
  intros He Hs. cbn [re_parse]. unfold re_step at 1. rewrite He. cbn [bind].
  cbn [str_mem] in Hs. rewrite !orb_true_iff in Hs.
  destruct Hs as [H|[H|[H|H]]]; [| | |discriminate];
    apply Ascii.eqb_eq in H; subst c; reflexivity.
Qed.

Lemma re_parse_escaped_literal (t : string) :
  str_all literal_char t = true ->
  forall st, esc st = false -> re_parse st (escape t) = Ok (push_lit st t).
Proof.
  induction t as [|c t IH]; intros H st He.
  - reflexivity.
  - cbn [str_all] in H. apply andb_true_iff in H as [Hc H].
    rewrite escape_cons, re_parse_app. cbn [push_lit].
    destruct (str_mem c "?*.") eqn:Hs.
    + rewrite (re_step_escaped _ _ He Hs). cbn [bind]. apply IH; [exact H|reflexivity].
    + cbn [re_parse]. rewrite (re_step_literal _ _ He Hc Hs). cbn [bind].
      apply IH; [exact H|reflexivity].
Qed.

Lemma re_parse_group (st : pstate) :
  esc st = false -> re_parse st "(.*?)" = Ok (push_group st).
Proof.
  destruct st as [c s n q e]. cbn [esc]. intros ->. reflexivity.
Qed.

Lemma re_step_eos (st : pstate) :
  esc st = false -> re_step st "$" = Ok (push_atom st Eos).
Proof. intros He. unfold re_step. rewrite He. reflexivity. Qed.

Lemma esc_push_segs (segs : list segment) :
  forall st, esc st = false -> esc (push_segs st segs) = false.
Proof.
  induction segs as [|[t|n] segs IH]; intros st H; cbn [push_segs].
  - exact H.
  - apply IH, esc_push_lit, H.
  - apply IH. reflexivity.
Qed.

Lemma re_parse_regexp (segs : list segment) :
  plain_template segs = true ->
  forall st, esc st = false -> re_parse st (regexp_of segs) = Ok (push_segs st segs).
Proof.
  induction segs as [|[t|n] segs IH]; intros H st He.
  - reflexivity.
  - cbn [plain_template forallb plain_segment] in H.
    apply andb_true_iff in H as [Ht H].
    cbn [regexp_of push_segs]. rewrite re_parse_app.
    rewrite (re_parse_escaped_literal _ Ht _ He). cbn [bind].
    apply IH; [exact H | apply esc_push_lit, He].
  - cbn [plain_template forallb plain_segment] in H.
    apply andb_true_iff in H as [_ H].
    cbn [regexp_of push_segs]. rewrite re_parse_app.
    rewrite (re_parse_group _ He). cbn [bind].
    apply IH; [exact H | reflexivity].
Qed.

Lemma push_lit_spec (t : string) :
  forall st,
    cur (push_lit st t) = (rev (chrs t) ++ cur st)%list /\
    stack (push_lit st t) = stack st /\
    ngroups (push_lit st t) = ngroups st.
Proof.
  induction t as [|c t IH]; intros st; cbn [push_lit chrs rev].
  - auto.
  - destruct (IH (push_atom st (Chr c))) as (H1 & H2 & H3).
    rewrite H1, H2, H3. cbn. rewrite <- app_assoc. auto.
Qed.

Lemma push_segs_spec (segs : list segment) :
  forall st,
    cur (push_segs st segs) = (rev (items segs (S (ngroups st))) ++ cur st)%list /\
    stack (push_segs st segs) = stack st /\
    ngroups (push_segs st segs) = ngroups st + List.length (field_names segs).
Proof.
  induction segs as [|[t|n] segs IH]; intros st; cbn [push_segs items field_names].
  - cbn. auto.
  - destruct (IH (push_lit st t)) as (H1 & H2 & H3).
    destruct (push_lit_spec t st) as (L1 & L2 & L3).
    rewrite H1, H2, H3, L1, L2, L3, rev_app_distr, <- app_assoc. auto.
  - destruct (IH (push_group st)) as (H1 & H2 & H3).
    rewrite H1, H2, H3. cbn [push_group cur stack ngroups rev List.length].
    rewrite <- app_assoc. cbn [app]. split; [reflexivity|]. split; [reflexivity|]. lia.
Qed.

(** For a plain template [re_match] compiles without error, to a sequence of
    literal characters and lazy groups closed by the end anchor; the field
    order is the order of the placeholders. *)
Lemma compile_pattern_plain (segs : list segment) :
  plain_template segs = true ->
  compile_pattern (template_of segs) = Ok (matcher_of segs).
Proof.
  intros H. unfold compile_pattern, RegexpFormatter_format, RegexpFormatter_init.
  rewrite (escape_template _ H), (format_escaped_template _ H). cbn [bind app fields].
  unfold re_compile. rewrite re_parse_app.
  rewrite (re_parse_regexp _ H pstate0 eq_refl). cbn [bind re_parse].
  pose proof (esc_push_segs segs pstate0 eq_refl) as He.
  destruct (push_segs_spec segs pstate0) as (H1 & H2 & H3).
  rewrite (re_step_eos _ He). cbn [bind push_atom esc stack cur ngroups].
  rewrite H1, H2, H3. cbn [pstate0 cur stack ngroups app Nat.add].
  unfold matcher_of. rewrite app_nil_r. cbn [rev]. rewrite rev_involutive.
  reflexivity.
Qed.

(** ** The matcher of a plain template *)

Lemma str_take_app (pre s : string) : str_take (String.length pre) (pre ++ s) = pre.
Proof. induction pre as [|c pre IH]; cbn; [destruct s; reflexivity | now rewrite IH]. Qed.

Lemma consumed_app (pre s : string) : consumed (pre ++ s) s = pre.
Proof.
  unfold consumed. rewrite length_append.
  replace (String.length pre + String.length s - String.length s)
    with (String.length pre) by lia.
  apply str_take_app.
Qed.

Lemma rmatch_chrs (t : string) (l : list regex) (k : kont) :
  forall s caps,
    rmatch (seq_of_list (chrs t ++ l)) s caps k =
      match strip_prefix t s with
      | Some s' => rmatch (seq_of_list l) s' caps k
      | None => None
      end.
Proof.
  induction t as [|c t IH]; intros s caps.
  - reflexivity.
  - cbn [chrs app seq_of_list rmatch strip_prefix].
    destruct s as [|c' s]; [reflexivity|].
    destruct (Ascii.eqb c c'); [apply IH | reflexivity].
Qed.

Lemma star_loop_lazy_any (i : nat) (K : kont) (s0 : string) (caps : captures)
  (cur : string) :
  forall (fuel : nat) (pre : string),
    s0 = (pre ++ cur)%string ->
    String.length cur < fuel ->
    star_loop (rmatch Any) false
      (fun s' caps' => K s' ((i, consumed s0 s') :: caps')) fuel cur caps =
    lazy_any (fun p rest => K rest ((i, p) :: caps)) pre cur.
Proof.
  induction cur as [|ch cur IH]; intros fuel pre Hs0 Hfuel;
    (destruct fuel as [|fuel]; [cbn in Hfuel; lia|]);
    cbn [star_loop lazy_any rmatch]; subst s0; rewrite consumed_app.
  - destruct (K "" ((i, pre) :: caps)); reflexivity.
  - destruct (K (String ch cur) ((i, pre) :: caps)); [reflexivity|].
    destruct (Ascii.eqb ch newline); [reflexivity|].
    replace (Nat.ltb (String.length cur) (String.length (String ch cur))) with true
      by (symmetry; apply Nat.ltb_lt; cbn; lia).
    apply IH.
    + rewrite append_assoc. reflexivity.
    + cbn in Hfuel. lia.
Qed.

Lemma rmatch_lazy_group (i : nat) (K : kont) (s : string) (caps : captures) :
  rmatch (lazy_group i) s caps K =
    lazy_any (fun p rest => K rest ((i, p) :: caps)) "" s.
Proof.
  unfold lazy_group. cbn [rmatch].
  apply (star_loop_lazy_any i K s caps s (S (String.length s)) ""); [reflexivity | lia].
Qed.

Lemma lazy_any_ext (k1 k2 : string -> string -> option captures) :
  (forall p r, k1 p r = k2 p r) ->
  forall s pre, lazy_any k1 pre s = lazy_any k2 pre s.
Proof.
  intros Hk. induction s as [|ch s IH]; intros pre; cbn [lazy_any]; rewrite Hk.
  - reflexivity.
  - destruct (k2 pre (String ch s)); [reflexivity|].
    destruct (Ascii.eqb ch newline); [reflexivity | apply IH].
Qed.

Lemma rmatch_items (segs : list segment) :
  forall (i : nat) (s : string) (caps : captures),
    rmatch (seq_of_list (items segs i ++ [Eos])) s caps (fun _ c => Some c) =
      seg_match segs i s caps.
Proof.
  induction segs as [|[t|n] segs IH]; intros i s caps.
  - cbn [items app seq_of_list rmatch seg_match]. destruct (at_end s); reflexivity.
  - cbn [items seg_match]. rewrite <- app_assoc, rmatch_chrs.
    destruct (strip_prefix t s); [apply IH | reflexivity].
  - cbn [items seg_match app seq_of_list]. cbn [rmatch]. fold (lazy_group i).
    rewrite (rmatch_lazy_group i
               (fun s' caps' =>
                  rmatch (seq_of_list (items segs (S i) ++ [Eos])) s' caps'
                    (fun _ c => Some c))).
    apply lazy_any_ext. intros p r. apply IH.
Qed.

Lemma no_newline_app (a b : string) :
  no_newline (a ++ b) = no_newline a && no_newline b.
Proof.
  unfold no_newline. induction a as [|c a IH]; cbn [append str_mem].
  - reflexivity.
  - rewrite !negb_orb, IH, andb_assoc. reflexivity.
Qed.

Lemma lazy_any_sound (k : string -> string -> option captures) (c : captures) :
  forall s pre,
    lazy_any k pre s = Some c ->
    exists v rest,
      s = (v ++ rest)%string /\ no_newline v = true /\ k (pre ++ v)%string rest = Some c.
Proof.
  induction s as [|ch s IH]; intros pre H; cbn [lazy_any] in H.
  - destruct (k pre "") eqn:E; [|discriminate].
    exists "", "". rewrite !append_nil_r. injection H as <-. auto.
  - destruct (k pre (String ch s)) eqn:E.
    + exists "", (String ch s). rewrite !append_nil_r. injection H as <-. auto.
    + destruct (Ascii.eqb ch newline) eqn:En; [discriminate|].
      destruct (IH _ H) as (v & rest & Hs & Hv & Hk).
      exists (String ch v), rest. subst s. split; [reflexivity|]. split.
      * unfold no_newline in *. cbn [str_mem]. rewrite Ascii.eqb_sym, En. exact Hv.
      * rewrite append_assoc in Hk. exact Hk.
Qed.

Lemma lazy_any_first (k : string -> string -> option captures) (c : captures)
  (rest : string) :
  forall v pre,
    no_newline v = true ->
    k (pre ++ v)%string rest = Some c ->
    (forall v1 v2, v = (v1 ++ v2)%string -> v2 <> ""%string ->
       k (pre ++ v1)%string (v2 ++ rest)%string = None) ->
    lazy_any k pre (v ++ rest) = Some c.
Proof.
  induction v as [|ch v IH]; intros pre Hv Hk Hshort.
  - cbn [append]. rewrite append_nil_r in Hk.
    destruct rest; cbn [lazy_any]; rewrite Hk; reflexivity.
  - cbn [append lazy_any].
    pose proof (Hshort "" (String ch v) eq_refl ltac:(discriminate)) as H0.
    rewrite append_nil_r in H0. cbn [append] in H0. rewrite H0.
    unfold no_newline in Hv. cbn [str_mem] in Hv.
    rewrite negb_orb in Hv. apply andb_true_iff in Hv as [Hch Hv].
    rewrite Ascii.eqb_sym. apply negb_true_iff in Hch. rewrite Hch.
    apply IH.
    + exact Hv.
    + rewrite append_assoc. exact Hk.
    + intros v1 v2 -> Hne. rewrite append_assoc. cbn [append].
      apply (Hshort (String ch v1) v2); [reflexivity | exact Hne].
Qed.

Lemma strip_prefix_sound (t : string) :
  forall s s', strip_prefix t s = Some s' -> s = (t ++ s')%string.
Proof.
  induction t as [|c t IH]; intros s s' H; cbn [strip_prefix] in H.
  - injection H as <-. reflexivity.
  - destruct s as [|c' s]; [discriminate|].
    destruct (Ascii.eqb_spec c c') as [<-|]; [|discriminate].
    cbn [append]. f_equal. apply IH. exact H.
Qed.

Lemma strip_prefix_app (t s : string) : strip_prefix t (t ++ s) = Some s.
Proof.
  induction t as [|c t IH]; cbn [append strip_prefix]; [reflexivity|].
  rewrite Ascii.eqb_refl. exact IH.
Qed.

Lemma at_end_sound (s : string) :
  at_end s = true -> s = ""%string \/ s = String newline "".
Proof.
  destruct s as [|c [|c' s]]; cbn; intros H; try discriminate; auto.
  apply Ascii.eqb_eq in H. subst c. auto.
Qed.

(** A match of a plain template spells the whole input: the literal texts in
    their places, a newline-free value for each placeholder, and at most one
    final newline. *)
Lemma seg_match_sound (segs : list segment) :
  forall (i : nat) (s : string) (caps c : captures),
    seg_match segs i s caps = Some c ->
    exists (vals : list string) (e : string),
      List.length vals = List.length (field_names segs) /\
      Forall (fun v => no_newline v = true) vals /\
      s = (fill segs vals ++ e)%string /\
      (e = ""%string \/ e = String newline "") /\
      c = bind_groups i vals caps.
Proof.
  induction segs as [|[t|n] segs IH]; intros i s caps c H; cbn [seg_match] in H.
  - destruct (at_end s) eqn:E; [|discriminate]. injection H as <-.
    exists [], s. cbn. repeat split; auto using at_end_sound.
  - destruct (strip_prefix t s) as [s'|] eqn:E; [|discriminate].
    apply strip_prefix_sound in E. subst s.
    destruct (IH _ _ _ _ H) as (vals & e & Hlen & Hnl & Hs & He & Hc).
    exists vals, e. cbn [fill field_names]. rewrite append_assoc, <- Hs. auto.
  - apply lazy_any_sound in H. destruct H as (v & rest & Hs & Hv & Hk).
    cbn [append] in Hk.
    destruct (IH _ _ _ _ Hk) as (vals & e & Hlen & Hnl & Hrest & He & Hc).
    exists (v :: vals), e. cbn [fill field_names List.length bind_groups].
    rewrite append_assoc, <- Hrest. repeat split; auto.
Qed.

(** The values of a message rendered from the template are found again when
    the placeholders are [separated]. *)
Lemma seg_match_fill (segs : list segment) :
  forall (i : nat) (vals : list string) (caps : captures),
    separated segs vals = true ->
    seg_match segs i (fill segs vals) caps = Some (bind_groups i vals caps).
Proof.
  induction segs as [|[t|n] segs IH]; intros i vals caps H;
    cbn [separated] in H; cbn [seg_match fill].
  - destruct vals; [reflexivity | discriminate].
  - rewrite strip_prefix_app. apply IH. exact H.
  - destruct vals as [|v vals]; [discriminate|].
    apply andb_true_iff in H as [H Hsep]. apply andb_true_iff in H as [Hv Hnext].
    cbn [bind_groups].
    apply (lazy_any_first
             (fun pre rest => seg_match segs (S i) rest ((i, pre) :: caps))).
    + exact Hv.
    + cbn [append]. apply IH. exact Hsep.
    + intros v1 v2 -> Hne. cbn [append].
      destruct v2 as [|ch v2]; [contradiction|].
      rewrite no_newline_app in Hv. apply andb_true_iff in Hv as [_ Hv].
      unfold no_newline in Hv. cbn [str_mem] in Hv.
      rewrite negb_orb in Hv. apply andb_true_iff in Hv as [Hch _].
      destruct segs as [|[[|c0 t]|n'] segs]; try discriminate.
      * destruct vals; [|discriminate]. cbn [fill seg_match append at_end].
        rewrite append_nil_r.
        destruct v2; [|reflexivity].
        rewrite Ascii.eqb_sym. apply negb_true_iff in Hch. rewrite Hch. reflexivity.
      * cbn [seg_match strip_prefix append].
        assert (Hc0 : Ascii.eqb c0 ch = false).
        { clear - Hnext. apply negb_true_iff in Hnext.
          induction v1 as [|x v1 IHv]; cbn [append str_mem] in Hnext.
          - apply orb_false_iff in Hnext. tauto.
          - apply orb_false_iff in Hnext. tauto. }
        rewrite Hc0. reflexivity.
Qed.

Lemma assoc_bind_groups (vals : list string) :
  forall (i j : nat) (caps : captures),
    assoc j (bind_groups i vals caps) =
      match (if Nat.leb i j then nth_error vals (j - i) else None) with
      | Some v => Some v
      | None => assoc j caps
      end.
Proof.
  induction vals as [|v vals IH]; intros i j caps; cbn [bind_groups].
  - destruct (Nat.leb i j); [destruct (j - i)|]; reflexivity.
  - rewrite IH. cbn [assoc].
    destruct (Nat.leb (S i) j) eqn:E1.
    + apply Nat.leb_le in E1.
      replace (Nat.leb i j) with true by (symmetry; apply Nat.leb_le; lia).
      replace (j - i) with (S (j - S i)) by lia. cbn [nth_error].
      destruct (nth_error vals (j - S i)) eqn:E2; [reflexivity|].
      replace (Nat.eqb j i) with false by (symmetry; apply Nat.eqb_neq; lia).
      reflexivity.
    + apply Nat.leb_gt in E1. destruct (Nat.eqb_spec j i) as [->|Hne].
      * rewrite Nat.leb_refl, Nat.sub_diag. reflexivity.
      * replace (Nat.leb i j) with false by (symmetry; apply Nat.leb_gt; lia).
        reflexivity.
Qed.

Lemma groups_of_bind_groups (vals : list string) :
  groups_of (List.length vals) (bind_groups 1 vals []) = map Some vals.
Proof.
  unfold groups_of.
  assert (H : forall i,
    map (fun j => assoc j (bind_groups i vals [])) (seq i (List.length vals))
      = map Some vals).
  { induction vals as [|v vals IH]; intros i.
    - reflexivity.
    - cbn [List.length seq map]. f_equal.
      + rewrite assoc_bind_groups, Nat.leb_refl, Nat.sub_diag. reflexivity.
      + rewrite <- (IH (S i)). apply map_ext_in. intros j Hj.
        apply in_seq in Hj. rewrite !assoc_bind_groups.
        replace (Nat.leb i j) with true by (symmetry; apply Nat.leb_le; lia).
        replace (Nat.leb (S i) j) with true by (symmetry; apply Nat.leb_le; lia).
        replace (j - i) with (S (j - S i)) by lia. reflexivity. }
  apply H.
Qed.

Lemma re_match_compiled_plain (segs : list segment) (message : string) :
  re_match_compiled (compiled_regexp (matcher_of segs)) message =
    match seg_match segs 1 message [] with
    | Some caps => Some (groups_of (List.length (field_names segs)) caps)
    | None => None
    end.
Proof.
  unfold re_match_compiled, matcher_of. cbn [compiled_regexp prog groupcount].
  rewrite rmatch_items. reflexivity.
Qed.

Lemma re_match_plain (self : pattern_obj) (segs : list segment)
  (message : string) (h : attrs) :
  pattern self = template_of segs ->
  plain_template segs = true ->
  hasattr h self = false ->
  re_match self message h =
    Ok (re_match_compiled (compiled_regexp (matcher_of segs)) message,
        (oid self, matcher_of segs) :: h).
Proof.
  intros Hpat Hplain Hfresh.
  rewrite (re_match_first _ _ _ Hfresh), Hpat, (compile_pattern_plain _ Hplain).
  reflexivity.
Qed.

Lemma literal_char_no_brace (t : string) :
  str_all literal_char t = true ->
  str_all (fun c => negb (str_mem c "{}")) t = true.
Proof.
  induction t as [|c t IH]; intros H; [reflexivity|].
  cbn [str_all] in H |- *. apply andb_true_iff in H as [Hc H].
  rewrite (IH H), andb_true_r.
  unfold literal_char in Hc. cbn [str_mem] in Hc |- *.
  rewrite negb_true_iff, !orb_false_iff in Hc. destruct Hc as (H1 & H2 & _).
  rewrite H1, H2. reflexivity.
Qed.

Lemma str_format_fill (segs : list segment) (kwargs : dict) :
  plain_template segs = true ->
  forall vals,
    Forall2 (fun name v => str_format_field kwargs tt name = Ok (v, tt))
      (field_names segs) vals ->
    str_format (template_of segs) kwargs = Ok (fill segs vals).
Proof.
  unfold str_format.
  induction segs as [|[t|n] segs IH]; intros Hplain vals Hvals;
    cbn [plain_template forallb plain_segment] in Hplain;
    cbn [field_names] in Hvals; cbn [template_of fill].
  - reflexivity.
  - apply andb_true_iff in Hplain as [Ht Hplain].
    rewrite (format_loop_literal _ _ (literal_char_no_brace _ Ht)).
    specialize (IH Hplain vals Hvals).
    destruct (format_loop (str_format_field kwargs) InLit tt (template_of segs))
      as [[out []]|e]; cbn in IH |- *; [|discriminate].
    injection IH as ->. reflexivity.
  - apply andb_true_iff in Hplain as [Hn Hplain].
    inversion Hvals as [|? v ? vals' Hv Hrest]; subst.
    change ("{" ++ n ++ "}" ++ template_of segs)%string
      with (String "{" (n ++ String "}" (template_of segs))).
    rewrite (format_loop_placeholder _ _ Hn), Hv. cbn [bind].
    specialize (IH Hplain vals' Hrest).
    destruct (format_loop (str_format_field kwargs) InLit tt (template_of segs))
      as [[out []]|e]; cbn in IH |- *; [|discriminate].
    injection IH as ->. reflexivity.
Qed.

(** ** Rendering a template and matching the result *)

(** C1, as the code has it.  For a template of literal texts (without braces
    and without regular-expression characters other than the three that
    [escape] handles) and placeholders, and a context that renders every
    placeholder, where every rendered value is free of newlines and is
    followed by the end of the template or by a literal text whose first
    character the value does not contain: [format] returns the template
    filled with the values, [re_match] of that text succeeds, and its groups
    are the rendered values in [re_fields] order. *)
Theorem round_trip_separated
  (self : pattern_obj) (segs : list segment)
  (record extra_context kwargs : dict) (vals : list string) (h : attrs) :
  pattern self = template_of segs ->
  plain_template segs = true ->
  hasattr h self = false ->
  kwargs_merge extra_context record = Ok kwargs ->
  Forall2 (fun name v => str_format_field kwargs tt name = Ok (v, tt))
    (field_names segs) vals ->
  separated segs vals = true ->
  exists (rendered : string) (m : matcher),
    format self (VDict record) (Some extra_context) = Ok rendered /\
    rendered = fill segs vals /\
    re_match self rendered h = Ok (Some (map Some vals), (oid self, m) :: h) /\
    re_fields m = field_names segs.
Proof.
  intros Hpat Hplain Hfresh Hmerge Hvals Hsep.
  exists (fill segs vals), (matcher_of segs).
  split; [|split; [reflexivity|split; [|reflexivity]]].
  - unfold format. cbn [as_mapping bind]. rewrite Hmerge. cbn [bind].
    rewrite Hpat. apply str_format_fill; assumption.
  - rewrite (re_match_plain _ _ _ _ Hpat Hplain Hfresh).
    rewrite re_match_compiled_plain, (seg_match_fill _ _ _ _ Hsep).
    rewrite (Forall2_length Hvals), groups_of_bind_groups. reflexivity.
Qed.

Lemma round_trip_separated_witness :
  exists (rendered : string) (m : matcher),
    format (mk_pattern 3 RepoTweet "Just generated a health report for {name} at {url}")
      (VDict [("name", VStr "octo"); ("url", VStr "r.io/a")])
      (Some [("repohealth_url", VStr "repohealth.info")]) = Ok rendered /\
    rendered = "Just generated a health report for octo at r.io/a" /\
    re_match (mk_pattern 3 RepoTweet "Just generated a health report for {name} at {url}")
      rendered [] = Ok (Some [Some "octo"; Some "r.io/a"], [(3, m)]) /\
    re_fields m = ["name"; "url"].
Proof.
  apply (round_trip_separated
    (mk_pattern 3 RepoTweet "Just generated a health report for {name} at {url}")
    [Lit "Just generated a health report for "; Field "name"; Lit " at "; Field "url"]
    [("name", VStr "octo"); ("url", VStr "r.io/a")]
    [("repohealth_url", VStr "repohealth.info")]
    [("repohealth_url", VStr "repohealth.info"); ("name", VStr "octo");
     ("url", VStr "r.io/a")]
    ["octo"; "r.io/a"] []); try reflexivity.
  cbn [field_names]. constructor; [reflexivity|]. constructor; [reflexivity|].
  constructor.
Defined.

(** C1 fails as stated, on a template of the program: for the adjacent
    placeholders of [LotsOfStars] the lazy groups split the text "over 1200"
    as the empty string and "over 1200", not as the rendered values "over "
    and "1200". *)
Lemma round_trip_counterexample :
  let self :=
    mk_pattern 4 LotsOfStars
      "Just compiled a repo report for {name} - it now has {stars_over_or_nearly}{n_stargazers} stargazers!" in
  let context :=
    VDict [("name", VStr "octo"); ("n_stargazers", VInt 1200);
           ("stars_over_or_nearly", VStr "over ")] in
  format self context None =
    Ok "Just compiled a repo report for octo - it now has over 1200 stargazers!" /\
  returned (re_match self
      "Just compiled a repo report for octo - it now has over 1200 stargazers!" []) =
    Ok (Some [Some "octo"; Some ""; Some "over 1200"]) /\
  [Some "octo"; Some ""; Some "over 1200"] <> [Some "octo"; Some "over "; Some "1200"].
Proof.
  cbv zeta. split; [vm_compute; reflexivity|].
  split; [vm_compute; reflexivity | discriminate].
Qed.

Lemma plain_match_groups (segs : list segment) (message : string)
  (groups : match_obj) :
  re_match_compiled (compiled_regexp (matcher_of segs)) message = Some groups ->
  exists vals : list string,
    groups = map Some vals /\
    List.length vals = List.length (field_names segs) /\
    Forall (fun v => no_newline v = true) vals /\
    (message = fill segs vals \/
     message = (fill segs vals ++ String newline "")%string).
Proof.
  intros Hm. rewrite re_match_compiled_plain in Hm.
  destruct (seg_match segs 1 message []) as [caps|] eqn:E; [|discriminate].
  injection Hm as <-.
  destruct (seg_match_sound _ _ _ _ _ E) as (vals & e & Hlen & Hnl & Hs & He & ->).
  exists vals. rewrite <- Hlen, groups_of_bind_groups.
  repeat split; try assumption.
  destruct He as [->| ->]; [left | right]; [rewrite append_nil_r in Hs|]; exact Hs.
Qed.

(** C2, as the code has it.  [re_match] uses [match], which tries the
    pattern at the start of the message only, and the pattern ends with [$]:
    for a plain template [re_match] returns, and it accepts a message only
    when the whole message, from its first character, is the template filled
    with newline-free values, followed by at most one newline. *)
Theorem re_match_anchored_at_both_ends
  (self : pattern_obj) (segs : list segment) (message : string) (h : attrs) :
  pattern self = template_of segs ->
  plain_template segs = true ->
  hasattr h self = false ->
  exists (m : option match_obj) (h' : attrs),
    re_match self message h = Ok (m, h') /\
    forall groups : match_obj,
      m = Some groups ->
      exists vals : list string,
        groups = map Some vals /\
        List.length vals = List.length (field_names segs) /\
        Forall (fun v => no_newline v = true) vals /\
        (message = fill segs vals \/
         message = (fill segs vals ++ String newline "")%string).
Proof.
  intros Hpat Hplain Hfresh.
  exists (re_match_compiled (compiled_regexp (matcher_of segs)) message),
    ((oid self, matcher_of segs) :: h).
  split.
  - apply re_match_plain; assumption.
  - intros groups Hm. apply plain_match_groups. exact Hm.
Qed.

Lemma re_match_anchored_at_both_ends_witness :
  exists (m : option match_obj) (h' : attrs),
    re_match (mk_pattern 3 RepoTweet "Just generated a health report for {name} at {url}")
      "Just generated a health report for octo at r.io/a" [] = Ok (m, h') /\
    forall groups : match_obj,
      m = Some groups ->
      exists vals : list string,
        groups = map Some vals /\
        List.length vals = 2 /\
        Forall (fun v => no_newline v = true) vals /\
        ("Just generated a health report for octo at r.io/a" =
           fill [Lit "Just generated a health report for "; Field "name";
                 Lit " at "; Field "url"] vals \/
         "Just generated a health report for octo at r.io/a" =
           (fill [Lit "Just generated a health report for "; Field "name";
                  Lit " at "; Field "url"] vals ++ String newline "")%string).
Proof.
  exact (re_match_anchored_at_both_ends
    (mk_pattern 3 RepoTweet "Just generated a health report for {name} at {url}")
    [Lit "Just generated a health report for "; Field "name"; Lit " at "; Field "url"]
    "Just generated a health report for octo at r.io/a" []
    eq_refl eq_refl eq_refl).
Defined.

(** C2 fails as stated: a message that ends with a text rendered from the
    template of [RepoTweet], with three more characters before it, is not
    matched. *)
Lemma suffix_match_counterexample :
  let self :=
    mk_pattern 3 RepoTweet "Just generated a health report for {name} at {url}" in
  let context := VDict [("name", VStr "octo"); ("url", VStr "r.io/a")] in
  format self context None =
    Ok "Just generated a health report for octo at r.io/a" /\
  returned (re_match self "Just generated a health report for octo at r.io/a" []) =
    Ok (Some [Some "octo"; Some "r.io/a"]) /\
  returned (re_match self "RT Just generated a health report for octo at r.io/a" []) =
    Ok None.
Proof.
  cbv zeta. repeat split; vm_compute; reflexivity.
Qed.

(** ** Escaping *)

Lemma fill_app (a b : list segment) :
  forall vals,
    fill (a ++ b) vals =
      (fill a (firstn (List.length (field_names a)) vals)
       ++ fill b (skipn (List.length (field_names a)) vals))%string.
Proof.
  induction a as [|[t|n] a IH]; intros vals; cbn [app fill field_names List.length].
  - reflexivity.
  - rewrite IH, append_assoc. reflexivity.
  - destruct vals as [|v vals]; cbn [firstn skipn].
    + rewrite IH. destruct (List.length (field_names a)); reflexivity.
    + rewrite IH, append_assoc. reflexivity.
Qed.

(** For a plain template, a literal "?", "*" or "." is matched by that very
    character at its place: an accepted message is the text before it filled
    with values, the character, and the text after it filled with values. *)
Lemma escaped_literal_matches_itself
  (self : pattern_obj) (before after : list segment) (c : ascii)
  (message : string) (groups : match_obj) (h h' : attrs) :
  str_mem c "?*." = true ->
  pattern self = template_of (before ++ Lit (String c "") :: after) ->
  plain_template (before ++ Lit (String c "") :: after) = true ->
  hasattr h self = false ->
  re_match self message h = Ok (Some groups, h') ->
  exists (vals1 vals2 : list string) (e : string),
    groups = map Some (vals1 ++ vals2) /\
    message = (fill before vals1 ++ String c (fill after vals2 ++ e))%string.
Proof.
  intros Hc Hpat Hplain Hfresh Hm.
  rewrite (re_match_plain _ _ _ _ Hpat Hplain Hfresh) in Hm.
  injection Hm as Hm _.
  destruct (plain_match_groups _ _ _ Hm) as (vals & -> & _ & _ & Hmsg).
  set (n := List.length (field_names before)).
  destruct Hmsg as [-> | ->];
    [exists (firstn n vals), (skipn n vals), ""%string
    |exists (firstn n vals), (skipn n vals), (String newline "")];
    rewrite firstn_skipn; (split; [reflexivity|]);
    rewrite fill_app; fold n; cbn [fill append];
    rewrite ?append_nil_r, ?append_assoc; reflexivity.
Qed.

(** C8, where the code fails: [escape] does not escape a backslash, so in
    the template made of a backslash and a dot the escaped text is two
    backslashes and a dot, which the [re] module reads as a literal backslash
    followed by any character.  The matcher accepts a backslash followed by
    the letter x, whose second character is not the literal dot. *)
Theorem escape_misses_backslash :
  let self := mk_pattern 0 TweetPattern "\." in
  escape (pattern self) = "\\." /\
  format self (VDict []) None = Ok "\." /\
  returned (re_match self "\." []) = Ok (Some []) /\
  returned (re_match self "\x" []) = Ok (Some []).
Proof.
  cbv zeta. repeat split; vm_compute; reflexivity.
Qed.

(** ** Retraction *)

Lemma checkable_cases (f : string) :
  existsb (String.eqb f) checkable = true ->
  f = "uuid"%string \/ f = "name"%string \/ f = "url"%string.
Proof.
  cbn [existsb checkable]. rewrite !orb_true_iff, !String.eqb_eq.
  intros [H|[H|[H|H]]]; auto. discriminate.
Qed.

Lemma ready_field_renders (d : dict) (f : string) :
  record_ready (VDict d) = true ->
  existsb (String.eqb f) checkable = true ->
  exists txt, str_format ("{" ++ f ++ "}") d = Ok txt.
Proof.
  intros Hready Hf. cbn [record_ready checkable forallb] in Hready.
  rewrite !andb_true_iff in Hready. destruct Hready as (Hu & Hn & Hl & _).
  assert (Hscalar : scalar_field f d = true).
  { destruct (checkable_cases f Hf) as [->|[->| ->]]; assumption. }
  assert (Hname : placeholder_name f = true).
  { destruct (checkable_cases f Hf) as [->|[->| ->]]; reflexivity. }
  assert (Hsplit : split_first f = (f, ""%string)).
  { destruct (checkable_cases f Hf) as [->|[->| ->]]; reflexivity. }
  unfold str_format.
  change ("{" ++ f ++ "}")%string with (String "{" (f ++ String "}" "")).
  rewrite (format_loop_placeholder _ _ Hname). cbn [format_loop].
  unfold str_format_field. rewrite Hsplit.
  unfold placeholder_name in Hname. rewrite !andb_true_iff, !negb_true_iff in Hname.
  destruct Hname as [[Hne Hnum] _]. rewrite Hne, Hnum. cbn [orb].
  unfold scalar_field in Hscalar. unfold dict_item.
  destruct (dict_get f d) as [[s|z|l|d']|]; try discriminate;
    cbn; eexists; reflexivity.
Qed.

Lemma drop_first_match_ready (f : string) (g : option string) (content : dict) :
  existsb (String.eqb f) checkable = true ->
  forall recs,
    pool_ready recs = true ->
    drop_first_match f g recs content =
      Ok (option_map (fun uuid => dict_pop uuid content) (find_record f g recs)).
Proof.
  intros Hf. induction recs as [|[uuid rec] recs IH]; intros Hready.
  - reflexivity.
  - cbn [pool_ready forallb snd] in Hready.
    apply andb_true_iff in Hready as [Hrec Hready].
    cbn [drop_first_match find_record].
    destruct rec as [s|z|l|d]; try discriminate.
    destruct (ready_field_renders d f Hrec Hf) as (txt & Htxt).
    cbn [as_mapping bind field_matches]. rewrite Htxt. cbn [bind].
    destruct (group_eqb txt g); [reflexivity | apply IH, Hready].
Qed.

Lemma find_record_none (f : string) (g : option string) (recs : dict) :
  find_record f g recs = None ->
  forall uuid rec, In (uuid, rec) recs -> field_matches f g rec = false.
Proof.
  induction recs as [|[u r] recs IH]; intros H uuid rec Hin.
  - contradiction.
  - cbn [find_record] in H. destruct (field_matches f g r) eqn:E; [discriminate|].
    destruct Hin as [Hin|Hin]; [injection Hin as <- <-; exact E | eauto].
Qed.

Lemma find_record_some (f : string) (g : option string) (recs : dict) (uuid : string) :
  find_record f g recs = Some uuid ->
  exists before rec after,
    recs = (before ++ (uuid, rec) :: after)%list /\
    (forall uuid' rec', In (uuid', rec') before -> field_matches f g rec' = false) /\
    field_matches f g rec = true.
Proof.
  induction recs as [|[u r] recs IH]; intros H.
  - discriminate.
  - cbn [find_record] in H. destruct (field_matches f g r) eqn:E.
    + injection H as ->. exists [], r, recs. repeat split; auto. intros ? ? [].
    + destruct (IH H) as (before & rec & after & -> & Hb & Hr).
      exists ((u, r) :: before), rec, after. repeat split; auto.
      intros uuid' rec' [Hin|Hin]; [injection Hin as <- <-; exact E | eauto].
Qed.

Lemma dict_get_notin (k : string) (d : dict) :
  ~ In k (map fst d) -> dict_get k d = None.
Proof.
  intros H. destruct (dict_get k d) eqn:E; [|reflexivity].
  exfalso. apply H, dict_mem_In. unfold dict_mem. rewrite E. reflexivity.
Qed.

Lemma dict_pop_middle (uuid : string) (rec : value) (before after : dict) :
  ~ In uuid (map fst before) ->
  dict_pop uuid (before ++ (uuid, rec) :: after)%list = (before ++ after)%list.
Proof.
  induction before as [|[k v] before IH]; intros Hnotin; cbn [app dict_pop].
  - rewrite String.eqb_refl. reflexivity.
  - cbn [map fst] in Hnotin.
    destruct (String.eqb_spec uuid k) as [->|Hne].
    + exfalso. apply Hnotin. now left.
    + rewrite IH; [reflexivity|]. intros Hin. apply Hnotin. now right.
Qed.

Lemma pool_ready_pop (uuid : string) (content : dict) :
  pool_ready content = true -> pool_ready (dict_pop uuid content) = true.
Proof.
  induction content as [|[k v] content IH]; intros H; cbn [dict_pop].
  - reflexivity.
  - cbn [pool_ready forallb snd] in H. apply andb_true_iff in H as [Hv H].
    destruct (String.eqb uuid k); [exact H|].
    cbn [pool_ready forallb snd]. rewrite Hv. apply IH, H.
Qed.

(** The loop of [drop_content] over the (field, group) pairs, on a pool
    whose records are ready and whose keys are distinct. *)
Lemma drop_content_loop_retracts (content : dict) :
  pool_ready content = true ->
  NoDup (map fst content) ->
  forall fgs : list (string * option string),
    exists content',
      drop_content_loop fgs content = Ok content' /\
      pool_ready content' = true /\
      retracts (filter (fun fg => existsb (String.eqb (fst fg)) checkable) fgs)
        content content'.
Proof.
  intros Hready Hnodup.
  induction fgs as [|[f g] fgs IH]; cbn [drop_content_loop filter fst].
  - exists content. split; [reflexivity|]. split; [exact Hready|].
    left. split; [reflexivity|]. intros ? ? ? ? [].
  - destruct (existsb (String.eqb f) checkable) eqn:Hf; [|exact IH].
    rewrite (drop_first_match_ready f g content Hf content Hready). cbn [bind].
    destruct (find_record f g content) as [uuid|] eqn:Hfind; cbn [option_map].
    + destruct (find_record_some _ _ _ _ Hfind) as (before & rec & after & Hc & Hb & Hr).
      exists (dict_pop uuid content). split; [reflexivity|].
      split; [apply pool_ready_pop, Hready|].
      right. exists [], f, g, (filter (fun fg => existsb (String.eqb (fst fg)) checkable) fgs),
        before, uuid, rec, after.
      assert (Hkeys : ~ In uuid (map fst before) /\ ~ In uuid (map fst after)).
      { rewrite Hc in Hnodup. rewrite map_app in Hnodup. cbn [map fst] in Hnodup.
        apply NoDup_remove_2 in Hnodup. rewrite in_app_iff in Hnodup. tauto. }
      assert (Hpop : dict_pop uuid content = (before ++ after)%list).
      { rewrite Hc. apply dict_pop_middle. tauto. }
      rewrite Hpop.
      split; [reflexivity|]. split; [intros ? ? ? ? []|].
      split; [exact Hc|]. split; [exact Hb|]. split; [exact Hr|].
      split; [reflexivity|]. split.
      * apply dict_get_notin. rewrite map_app, in_app_iff. tauto.
      * rewrite Hc, !length_app. cbn [List.length]. lia.
    + destruct IH as (content' & Hloop & Hready' & Hret).
      exists content'. split; [exact Hloop|]. split; [exact Hready'|].
      pose proof (find_record_none _ _ _ Hfind) as Hnone.
      destruct Hret as [[-> Hno]|Hyes].
      * left. split; [reflexivity|].
        intros f' g' uuid rec [Heq|Hin] Hrec; [injection Heq as <- <-|]; eauto.
      * destruct Hyes as (fgs1 & f1 & g1 & fgs2 & before & uuid & rec & after
                          & Hfgs & Hearlier & Hrest).
        right. exists ((f, g) :: fgs1), f1, g1, fgs2, before, uuid, rec, after.
        split; [rewrite Hfgs; reflexivity|]. split; [|exact Hrest].
        intros f' g' uuid' rec' [Heq|Hin] Hrec; [injection Heq as <- <-|]; eauto.
Qed.

Lemma re_match_ok (p : pattern_obj) (m : matcher) (message : string) (h : attrs) :
  compile_pattern (pattern p) = Ok m ->
  attrs_ok h p ->
  exists h',
    re_match p message h = Ok (re_match_compiled (compiled_regexp m) message, h') /\
    assoc (oid p) h' = Some m /\
    (h' = h \/ h' = (oid p, m) :: h).
Proof.
  intros Hm Hok. destruct (assoc (oid p) h) as [m'|] eqn:E.
  - pose proof (Hok _ E) as Hm'. rewrite Hm in Hm'. injection Hm' as <-.
    exists h. rewrite (re_match_cached _ _ _ _ E). auto.
  - exists ((oid p, m) :: h). rewrite re_match_first, Hm.
    + cbn [bind assoc]. rewrite Nat.eqb_refl. auto.
    + unfold hasattr. rewrite E. reflexivity.
Qed.

(** C6. For a pattern of the [RepoTweet] family whose matcher matches the
    message, on a pool with distinct keys whose records carry the fields
    uuid, name and url: [drop_content] returns without error; when no record
    renders an allow-listed field of the template to the text of its group,
    the pool is unchanged; otherwise exactly one record is removed, the
    first one in the order of the pool for the first allow-listed field that
    has such a record, so that the pool has one entry less and no entry
    under the key removed. *)
Theorem drop_content_removes_first_match
  (self : pattern_obj) (message : string) (content : dict) (h : attrs)
  (m : matcher) (groups : match_obj) :
  cls self = RepoTweet \/ cls self = LotsOfStars \/ cls self = LotsOfForks ->
  compile_pattern (pattern self) = Ok m ->
  attrs_ok h self ->
  re_match_compiled (compiled_regexp m) message = Some groups ->
  pool_ready content = true ->
  NoDup (map fst content) ->
  exists (content' : dict) (h' : attrs),
    drop_content self message content h = Ok (content', h') /\
    retracts (checkable_pairs (re_fields m) groups) content content'.
Proof.
  intros Hcls Hm Hok Hmatch Hready Hnodup.
  destruct (re_match_ok self m message h Hm Hok) as (h' & Hre & Hassoc & _).
  destruct (drop_content_loop_retracts content Hready Hnodup
              (combine (re_fields m) groups)) as (content' & Hloop & _ & Hret).
  exists content', h'. split; [|exact Hret].
  assert (H : RepoTweet_drop_content self message content h = Ok (content', h')).
  { unfold RepoTweet_drop_content. rewrite Hre. cbn [bind].
    unfold getattrs. rewrite Hassoc. cbn [bind]. rewrite Hmatch, Hloop. reflexivity. }
  unfold drop_content. destruct Hcls as [-> | [-> | ->]]; exact H.
Qed.

Lemma drop_content_removes_first_match_witness :
  let self := mk_pattern 3 RepoTweet "Just generated a health report for {name} at {url}" in
  let record name uuid :=
    VDict [("uuid", VStr uuid); ("name", VStr name); ("url", VStr ("r.io/" ++ uuid))] in
  let content := [("a", record "octo" "a"); ("b", record "hub" "b"); ("c", record "cat" "c")] in
  exists (content' : dict) (h' : attrs),
    drop_content self "Just generated a health report for hub at r.io/b" content [] =
      Ok (content', h') /\
    retracts [("name", Some "hub"); ("url", Some "r.io/b")] content content'.
Proof.
  cbv zeta.
  refine (drop_content_removes_first_match
    (mk_pattern 3 RepoTweet "Just generated a health report for {name} at {url}")
    "Just generated a health report for hub at r.io/b" _ []
    (matcher_of [Lit "Just generated a health report for "; Field "name";
                 Lit " at "; Field "url"])
    [Some "hub"; Some "r.io/b"] _ _ _ _ _ _).
  - left. reflexivity.
  - vm_compute. reflexivity.
  - intros m' Hm'. discriminate.
  - vm_compute. reflexivity.
  - reflexivity.
  - repeat constructor; cbn; intuition discriminate.
Defined.

(** The pool of three records of the witness is left with the two records
    that the message does not name. *)
Example drop_content_three_records :
  let self := mk_pattern 3 RepoTweet "Just generated a health report for {name} at {url}" in
  let record name uuid :=
    VDict [("uuid", VStr uuid); ("name", VStr name); ("url", VStr ("r.io/" ++ uuid))] in
  let content := [("a", record "octo" "a"); ("b", record "hub" "b"); ("c", record "cat" "c")] in
  returned (drop_content self "Just generated a health report for hub at r.io/b" content []) =
    Ok [("a", record "octo" "a"); ("c", record "cat" "c")].
Proof. vm_compute. reflexivity. Qed.

(** ** The recency filter *)

Lemma drop_content_loop_ready (fgs : list (string * option string)) :
  forall content,
    pool_ready content = true ->
    exists content',
      drop_content_loop fgs content = Ok content' /\ pool_ready content' = true.
Proof.
  induction fgs as [|[f g] fgs IH]; intros content Hready; cbn [drop_content_loop].
  - eauto.
  - destruct (existsb (String.eqb f) checkable) eqn:Hf; [|apply IH, Hready].
    rewrite (drop_first_match_ready f g content Hf content Hready). cbn [bind].
    destruct (find_record f g content) as [uuid|]; cbn [option_map].
    + eauto using pool_ready_pop.
    + apply IH, Hready.
Qed.

Lemma drop_content_ok (p : pattern_obj) (m : matcher) (message : string)
  (content : dict) (h : attrs) (groups : match_obj) :
  compile_pattern (pattern p) = Ok m ->
  assoc (oid p) h = Some m ->
  re_match_compiled (compiled_regexp m) message = Some groups ->
  pool_ready content = true ->
  drop_content p message content h = Ok (retraction p message content, h) /\
  pool_ready (retraction p message content) = true.
Proof.
  intros Hm Hassoc Hmatch Hready.
  destruct (drop_content_loop_ready (combine (re_fields m) groups) content Hready)
    as (content' & Hloop & Hready').
  assert (H : RepoTweet_drop_content p message content h = Ok (content', h)).
  { unfold RepoTweet_drop_content. rewrite (re_match_cached _ _ _ _ Hassoc).
    cbn [bind]. unfold getattrs. rewrite Hassoc. cbn [bind].
    rewrite Hmatch, Hloop. reflexivity. }
  unfold drop_content, retraction. rewrite Hm, Hmatch, Hloop.
  destruct (cls p); auto.
Qed.

Lemma list_in_remove (p : pattern_obj) (res : list pattern_obj) :
  NoDup (map oid res) -> list_in p (list_remove p res) = false.
Proof.
  unfold list_in. induction res as [|q res IH]; intros Hnd; cbn [list_remove].
  - reflexivity.
  - cbn [map] in Hnd. inversion Hnd as [|? ? Hnotin Hnd']; subst.
    destruct (same_object p q) eqn:E.
    + unfold same_object in E. apply Nat.eqb_eq in E.
      destruct (existsb (same_object p) res) eqn:Ex; [|reflexivity].
      exfalso. apply existsb_exists in Ex as (r & Hr & Hsame).
      unfold same_object in Hsame. apply Nat.eqb_eq in Hsame.
      apply Hnotin. rewrite <- E, Hsame. apply in_map, Hr.
    + cbn [existsb]. rewrite E. apply IH, Hnd'.
Qed.

Lemma list_remove_incl (p : pattern_obj) (res : list pattern_obj) :
  forall x, In x (map oid (list_remove p res)) -> In x (map oid res).
Proof.
  induction res as [|q res IH]; intros x; cbn [list_remove map].
  - auto.
  - destruct (same_object p q); cbn [map]; [now right|].
    intros [H|H]; [now left | right; apply IH, H].
Qed.

Lemma NoDup_list_remove (p : pattern_obj) (res : list pattern_obj) :
  NoDup (map oid res) -> NoDup (map oid (list_remove p res)).
Proof.
  induction res as [|q res IH]; intros Hnd; cbn [list_remove].
  - exact Hnd.
  - cbn [map] in Hnd. inversion Hnd as [|? ? Hnotin Hnd']; subst.
    destruct (same_object p q); [exact Hnd'|].
    cbn [map]. constructor; [|apply IH, Hnd'].
    intros Hin. apply Hnotin, (list_remove_incl p), Hin.
Qed.

Lemma NoDup_remove_obj (p : pattern_obj) (res : list pattern_obj) :
  NoDup (map oid res) -> NoDup (map oid (remove_obj p res)).
Proof.
  intros Hnd. unfold remove_obj. destruct (list_in p res); [|exact Hnd].
  apply NoDup_list_remove, Hnd.
Qed.

(** Removing a pattern that has been removed changes nothing. *)
Lemma remove_obj_idempotent (p : pattern_obj) (res : list pattern_obj) :
  NoDup (map oid res) -> remove_obj p (remove_obj p res) = remove_obj p res.
Proof.
  intros Hnd. unfold remove_obj. destruct (list_in p res) eqn:E.
  - rewrite (list_in_remove _ _ Hnd). reflexivity.
  - rewrite E. reflexivity.
Qed.

Lemma remove_obj_middle (p : pattern_obj) (pre rest : list pattern_obj) :
  ~ In (oid p) (map oid pre) ->
  remove_obj p (pre ++ p :: rest) = (pre ++ rest)%list.
Proof.
  intros Hnotin. unfold remove_obj, list_in.
  rewrite existsb_app. cbn [existsb]. unfold same_object at 2.
  rewrite Nat.eqb_refl, orb_true_r.
  induction pre as [|q pre IH]; cbn [app list_remove].
  - unfold same_object. rewrite Nat.eqb_refl. reflexivity.
  - cbn [map] in Hnotin. destruct (same_object p q) eqn:E.
    + unfold same_object in E. apply Nat.eqb_eq in E.
      exfalso. apply Hnotin. left. symmetry. exact E.
    + rewrite IH; [reflexivity|]. intros Hin. apply Hnotin. now right.
Qed.

Lemma accepts_compiled (p : pattern_obj) (m : matcher) (message : string) :
  compile_pattern (pattern p) = Ok m ->
  accepts p message =
    match re_match_compiled (compiled_regexp m) message with
    | Some _ => true
    | None => false
    end.
Proof. intros Hm. unfold accepts. rewrite Hm. reflexivity. Qed.

Lemma drop_recent_messages_spec (p : pattern_obj) (m : matcher) :
  compile_pattern (pattern p) = Ok m ->
  forall (msgs : list string) (content : dict) (res : list pattern_obj) (h : attrs),
    attrs_ok h p ->
    pool_ready content = true ->
    NoDup (map oid res) ->
    exists h',
      drop_recent_messages p msgs content res h =
        Ok (if existsb (accepts p) msgs then remove_obj p res else res,
            fold_left (fun c msg => if accepts p msg then retraction p msg c else c)
              msgs content,
            h') /\
      pool_ready
        (fold_left (fun c msg => if accepts p msg then retraction p msg c else c)
           msgs content) = true /\
      (forall q, oid q <> oid p -> assoc (oid q) h' = assoc (oid q) h).
Proof.
  intros Hm. induction msgs as [|msg msgs IH]; intros content res h Hok Hready Hnd.
  - exists h. cbn. auto.
  - cbn [drop_recent_messages existsb fold_left].
    destruct (re_match_ok p m msg h Hm Hok) as (h1 & Hre & Hassoc & Hh1).
    rewrite Hre. cbn [bind]. rewrite (accepts_compiled p m msg Hm).
    assert (Hok1 : attrs_ok h1 p).
    { intros m' Hm'. rewrite Hassoc in Hm'. injection Hm' as <-. exact Hm. }
    assert (Hframe : forall q, oid q <> oid p -> assoc (oid q) h1 = assoc (oid q) h).
    { intros q Hq. destruct Hh1 as [->| ->]; [reflexivity|].
      cbn [assoc]. destruct (Nat.eqb_spec (oid q) (oid p)); [contradiction|reflexivity]. }
    destruct (re_match_compiled (compiled_regexp m) msg) as [groups|] eqn:Hmatch.
    + destruct (drop_content_ok p m msg content h1 groups Hm Hassoc Hmatch Hready)
        as (Hdrop & Hready').
      rewrite Hdrop. cbn [bind orb].
      fold (remove_obj p res).
      destruct (IH (retraction p msg content) (remove_obj p res) h1 Hok1 Hready'
                  (NoDup_remove_obj _ _ Hnd)) as (h' & Hrec & Hready'' & Hframe').
      exists h'. rewrite Hrec, (remove_obj_idempotent _ _ Hnd).
      split; [destruct (existsb (accepts p) msgs); reflexivity|].
      split; [exact Hready''|].
      intros q Hq. rewrite (Hframe' q Hq). apply Hframe, Hq.
    + cbn [orb].
      destruct (IH content res h1 Hok1 Hready Hnd) as (h' & Hrec & Hready'' & Hframe').
      exists h'. split; [exact Hrec|]. split; [exact Hready''|].
      intros q Hq. rewrite (Hframe' q Hq). apply Hframe, Hq.
Qed.

Lemma pruned_pool_cons (msgs : list string) (p : pattern_obj)
  (rest : list pattern_obj) (content : dict) :
  pruned_pool msgs (p :: rest) content =
    pruned_pool msgs rest
      (fold_left (fun c msg => if accepts p msg then retraction p msg c else c)
         msgs content).
Proof.
  unfold pruned_pool. cbn [list_prod]. rewrite fold_left_app. f_equal.
  generalize content. induction msgs as [|msg msgs IH]; intros c; cbn [map fold_left].
  - reflexivity.
  - apply IH.
Qed.

Lemma drop_recent_patterns_spec (msgs : list string) :
  forall (rest pre : list pattern_obj) (content : dict) (h : attrs),
    NoDup (map oid (pre ++ rest)) ->
    Forall compiles rest ->
    Forall (attrs_ok h) rest ->
    pool_ready content = true ->
    exists h',
      drop_recent_patterns rest msgs content (pre ++ rest) h =
        Ok ((pre ++ unmatched msgs rest)%list, pruned_pool msgs rest content, h').
Proof.
  induction rest as [|p rest IH]; intros pre content h Hnd Hcomp Hok Hready.
  - exists h. reflexivity.
  - inversion Hcomp as [|? ? [m Hm] Hcomp']; subst.
    inversion Hok as [|? ? Hokp Hok']; subst.
    assert (Hnd_res : NoDup (map oid (pre ++ p :: rest))) by exact Hnd.
    rewrite map_app in Hnd. cbn [map] in Hnd.
    pose proof (NoDup_remove_1 _ _ _ Hnd) as Hnd1.
    pose proof (NoDup_remove_2 _ _ _ Hnd) as Hnotin.
    rewrite in_app_iff in Hnotin.
    destruct (drop_recent_messages_spec p m Hm msgs content (pre ++ p :: rest) h
                Hokp Hready Hnd_res) as (h1 & Hinner & Hready1 & Hframe).
    cbn [drop_recent_patterns]. rewrite Hinner. cbn [bind].
    rewrite pruned_pool_cons.
    assert (Hok1 : Forall (attrs_ok h1) rest).
    { rewrite Forall_forall in Hok' |- *. intros q Hq m' Hm'.
      apply (Hok' q Hq). rewrite <- Hframe; [exact Hm'|].
      intros Heq. apply Hnotin. right. rewrite <- Heq. apply in_map, Hq. }
    unfold unmatched. cbn [filter]. fold (unmatched msgs rest).
    destruct (existsb (accepts p) msgs) eqn:Hacc; cbn [negb].
    + rewrite remove_obj_middle by tauto.
      apply IH; try assumption. rewrite map_app. exact Hnd1.
    + replace (pre ++ p :: rest)%list with ((pre ++ [p]) ++ rest)%list
        by (rewrite <- app_assoc; reflexivity).
      replace (pre ++ p :: unmatched msgs rest)%list
        with ((pre ++ [p]) ++ unmatched msgs rest)%list
        by (rewrite <- app_assoc; reflexivity).
      apply IH; try assumption. rewrite <- app_assoc. exact Hnd_res.
Qed.

(** C5. For a list of distinct pattern objects whose templates compile and
    a pool whose records carry the fields uuid, name and url, [drop_recent]
    returns, in their order, exactly the patterns whose matcher matches none
    of the recent messages; a pattern that matches some message is absent
    from the result, however many messages it matches; and for each pattern
    and each message that it matches, [drop_content] has been applied to the
    pool, pattern by pattern and message by message. *)
Theorem drop_recent_prunes
  (recent_messages : list string) (pats : list pattern_obj)
  (content : dict) (h : attrs) :
  NoDup (map oid pats) ->
  Forall compiles pats ->
  Forall (attrs_ok h) pats ->
  pool_ready content = true ->
  exists h',
    drop_recent recent_messages (PyList pats) content h =
      Ok (unmatched recent_messages pats,
          pruned_pool recent_messages pats content, h') /\
    (forall p,
       In p (unmatched recent_messages pats) <->
       In p pats /\ forall msg, In msg recent_messages -> accepts p msg = false) /\
    (forall (p : pattern_obj) (res : list pattern_obj),
       NoDup (map oid res) ->
       remove_obj p (remove_obj p res) = remove_obj p res).
Proof.
  intros Hnd Hcomp Hok Hready.
  destruct (drop_recent_patterns_spec recent_messages pats [] content h
              Hnd Hcomp Hok Hready) as (h' & Hrun).
  exists h'. split; [exact Hrun|]. split.
  - intros p. unfold unmatched. rewrite filter_In, negb_true_iff.
    split; intros [Hin Hno]; (split; [exact Hin|]).
    + intros msg Hmsg. destruct (accepts p msg) eqn:E; [|reflexivity].
      assert (existsb (accepts p) recent_messages = true)
        by (apply existsb_exists; eauto).
      congruence.
    + destruct (existsb (accepts p) recent_messages) eqn:E; [|reflexivity].
      apply existsb_exists in E as (msg & Hmsg & Hacc).
      rewrite (Hno msg Hmsg) in Hacc. discriminate.
  - intros p res. apply remove_obj_idempotent.
Qed.

Lemma drop_recent_prunes_witness :
  let record name uuid :=
    VDict [("uuid", VStr uuid); ("name", VStr name); ("url", VStr ("r.io/" ++ uuid))] in
  let content := [("a", record "octo" "a"); ("b", record "hub" "b")] in
  let recent :=
    ["Just generated a health report for hub at r.io/b";
     "Just generated a health report for octo at r.io/a"] in
  let pats := all_patterns_all_subclasses hierarchy true in
  exists h',
    drop_recent recent (PyList pats) content [] =
      Ok (unmatched recent pats, pruned_pool recent pats content, h').
Proof.
  cbv zeta.
  destruct (drop_recent_prunes
    ["Just generated a health report for hub at r.io/b";
     "Just generated a health report for octo at r.io/a"]
    (all_patterns_all_subclasses hierarchy true)
    [("a", VDict [("uuid", VStr "a"); ("name", VStr "octo"); ("url", VStr "r.io/a")]);
     ("b", VDict [("uuid", VStr "b"); ("name", VStr "hub"); ("url", VStr "r.io/b")])]
    []) as (h' & H & _).
  - vm_compute. repeat constructor; cbn; intuition discriminate.
  - vm_compute all_patterns_all_subclasses.
    repeat (constructor; [eexists; vm_compute; reflexivity|]). constructor.
  - apply Forall_forall. intros p _ m Hm. discriminate.
  - reflexivity.
  - exists h'. exact H.
Defined.

(** In the run of the witness the pattern of [RepoTweet] matches both
    messages: it is removed once, and both records leave the pool. *)
Example drop_recent_two_messages :
  let record name uuid :=
    VDict [("uuid", VStr uuid); ("name", VStr name); ("url", VStr ("r.io/" ++ uuid))] in
  let content := [("a", record "octo" "a"); ("b", record "hub" "b")] in
  let recent :=
    ["Just generated a health report for hub at r.io/b";
     "Just generated a health report for octo at r.io/a"] in
  let pats := all_patterns_all_subclasses hierarchy true in
  match drop_recent recent (PyList pats) content [] with
  | Ok (res, content', _) => (map oid res, content') = ([0; 1; 2; 4; 5; 6], [])
  | Raise _ => False
  end.
Proof. vm_compute. reflexivity. Qed.


(* ================================================================== *)
(** * Further properties of the code *)

(** ** [RegexpFormatter] *)

Lemma format_loop_in_field_closed {St : Type}
  (on_field : St -> string -> result (string * St)) (name : string) :
  forall (inbr : bool) (acc : string) (st : St) (post : string),
    field_name_closed_from inbr name = true ->
    format_loop on_field (InField acc inbr) st (name ++ String "}" post) =
      ('(txt, st1) <- on_field st (acc ++ name) ;;
       '(out, st2) <- format_loop on_field InLit st1 post ;;
       Ok (txt ++ out, st2)).
Proof.
  induction name as [|c name IH]; intros inbr acc st post H.
  - cbn [field_name_closed_from] in H. apply negb_true_iff in H. subst inbr.
    cbn [append format_loop]. unfold field_char. cbn.
    rewrite append_nil_r. reflexivity.
  - cbn [field_name_closed_from] in H.
    cbn [append format_loop]. destruct inbr.
    + unfold field_char. rewrite (IH _ _ _ _ H), append_assoc. reflexivity.
    + apply andb_true_iff in H as [Hc H].
      cbn [str_mem] in Hc. rewrite negb_true_iff, !orb_false_iff in Hc.
      destruct Hc as (H1 & H2 & H3 & H4 & _).
      unfold field_char. rewrite H1, H2, H3, H4. cbn [orb].
      destruct (Ascii.eqb c "[") eqn:E;
        rewrite (IH _ _ _ _ H), append_assoc; reflexivity.
Qed.

Lemma format_loop_keyword {St : Type}
  (on_field : St -> string -> result (string * St)) (name : string) :
  keyword_name name = true ->
  forall (st : St) (post : string),
    format_loop on_field InLit st (String "{" (name ++ String "}" post)) =
      ('(txt, st1) <- on_field st name ;;
       '(out, st2) <- format_loop on_field InLit st1 post ;;
       Ok (txt ++ out, st2)).
Proof.
  intros Hname st post.
  unfold keyword_name in Hname. rewrite !andb_true_iff in Hname.
  destruct Hname as [[Hne _] Hclosed].
  pose proof (format_loop_in_field_closed on_field name false "" st post Hclosed)
    as Hin.
  cbn [append] in Hin. rewrite <- Hin. clear Hin.
  destruct name as [|c name]; [discriminate|].
  cbn [field_name_closed_from] in Hclosed.
  apply andb_true_iff in Hclosed as [Hc _].
  cbn [str_mem] in Hc. rewrite negb_true_iff, !orb_false_iff in Hc.
  destruct Hc as (H1 & _).
  cbn [append format_loop]. rewrite H1. reflexivity.
Qed.

Lemma vformat_field_keyword (special : list (string * string)) (name : string)
  (auto : option nat) (self : RegexpFormatter) :
  keyword_name name = true ->
  vformat_field special (auto, self) name =
    Ok ("(" ++ special_get name special ".*?" ++ ")",
        (auto, mk_RegexpFormatter (fields self ++ [name]))).
Proof.
  unfold keyword_name. rewrite !andb_true_iff, !negb_true_iff.
  intros [[Hne Hnum] _]. unfold vformat_field, isdigit.
  rewrite Hne, Hnum. reflexivity.
Qed.

(** X1. [RegexpFormatter.format], as its docstring shows: in a template of
    brace-free texts and named placeholders every placeholder becomes a group,
    of the override that [special] gives for its name or else of the lazy
    wildcard, the texts are kept, and [fields] receives the names in the
    order of the placeholders, one entry per occurrence, after the names it
    held before. *)
Theorem RegexpFormatter_format_groups
  (self : RegexpFormatter) (segs : list segment) (special : list (string * string)) :
  forallb formatter_segment segs = true ->
  RegexpFormatter_format self (template_of segs) special =
    Ok (regexp_with special segs,
        mk_RegexpFormatter (fields self ++ field_names segs)).
Proof.
  intros H. unfold RegexpFormatter_format.
  assert (Hloop : forall fs,
    format_loop (vformat_field special) InLit (Some 0, mk_RegexpFormatter fs)
      (template_of segs) =
    Ok (regexp_with special segs,
        (Some 0, mk_RegexpFormatter (fs ++ field_names segs)))).
  { induction segs as [|[t|n] segs IH]; intros fs.
    - cbn. rewrite app_nil_r. reflexivity.
    - cbn [forallb formatter_segment] in H. apply andb_true_iff in H as [Ht H].
      cbn [template_of regexp_with field_names].
      rewrite (format_loop_literal _ _ Ht), (IH H). reflexivity.
    - cbn [forallb formatter_segment] in H. apply andb_true_iff in H as [Hn H].
      cbn [template_of regexp_with field_names].
      change ("{" ++ n ++ "}" ++ template_of segs)%string
        with (String "{" (n ++ String "}" (template_of segs))).
      rewrite (format_loop_keyword _ _ Hn), (vformat_field_keyword _ _ _ _ Hn).
      cbn [bind fields]. rewrite (IH H). cbn [bind].
      rewrite <- app_assoc, !append_assoc. reflexivity. }
  destruct self as [fs]. cbn [fields]. rewrite Hloop. reflexivity.
Qed.

Lemma RegexpFormatter_format_groups_witness :
  RegexpFormatter_format RegexpFormatter_init "We can do {custom patterns} too"
    [("custom patterns", "0-9+")] =
    Ok ("We can do (0-9+) too", mk_RegexpFormatter ["custom patterns"]).
Proof.
  exact (RegexpFormatter_format_groups RegexpFormatter_init
           [Lit "We can do "; Field "custom patterns"; Lit " too"]
           [("custom patterns", "0-9+")] eq_refl).
Defined.

(** ** The messages that a plain template accepts *)

Lemma lazy_any_complete (k : string -> string -> option captures) (rest : string) :
  forall (v pre : string) (c : captures),
    no_newline v = true ->
    k (pre ++ v)%string rest = Some c ->
    exists c', lazy_any k pre (v ++ rest) = Some c'.
Proof.
  induction v as [|ch v IH]; intros pre c Hv Hk.
  - rewrite append_nil_r in Hk. cbn [append].
    destruct rest; cbn [lazy_any]; rewrite Hk; eauto.
  - cbn [append lazy_any].
    destruct (k pre (String ch (v ++ rest))) as [c0|]; [eauto|].
    unfold no_newline in Hv. cbn [str_mem] in Hv.
    rewrite negb_orb in Hv. apply andb_true_iff in Hv as [Hch Hv].
    rewrite Ascii.eqb_sym. apply negb_true_iff in Hch. rewrite Hch.
    apply (IH _ c); [exact Hv|]. rewrite append_assoc. exact Hk.
Qed.

Lemma at_end_complete (e : string) :
  e = ""%string \/ e = String newline "" -> at_end e = true.
Proof. intros [->| ->]; reflexivity. Qed.

Lemma seg_match_complete (segs : list segment) :
  forall (i : nat) (vals : list string) (e : string) (caps : captures),
    List.length vals = List.length (field_names segs) ->
    Forall (fun v => no_newline v = true) vals ->
    at_end e = true ->
    exists c, seg_match segs i (fill segs vals ++ e) caps = Some c.
Proof.
  induction segs as [|[t|n] segs IH]; intros i vals e caps Hlen Hnl He;
    cbn [seg_match fill field_names List.length] in *.
  - cbn [append]. rewrite He. eauto.
  - rewrite append_assoc, strip_prefix_app. apply IH; assumption.
  - destruct vals as [|v vals]; [discriminate|].
    inversion Hnl as [|? ? Hv Hnl']; subst.
    injection Hlen as Hlen.
    destruct (IH (S i) vals e ((i, v) :: caps) Hlen Hnl' He) as (c & Hc).
    rewrite append_assoc.
    apply (lazy_any_complete
             (fun pre rest => seg_match segs (S i) rest ((i, pre) :: caps))
             _ v "" c Hv).
    cbn [append]. exact Hc.
Qed.

Lemma instance_accepted (segs : list segment) (message : string) :
  instance_of segs message ->
  exists groups,
    re_match_compiled (compiled_regexp (matcher_of segs)) message = Some groups.
Proof.
  intros (vals & Hlen & Hnl & Hmsg).
  rewrite re_match_compiled_plain.
  assert (He : exists e, message = (fill segs vals ++ e)%string /\ at_end e = true).
  { destruct Hmsg as [->| ->].
    - exists ""%string. rewrite append_nil_r. auto.
    - exists (String newline ""). auto. }
  destruct He as (e & -> & He).
  destruct (seg_match_complete segs 1 vals e [] Hlen Hnl He) as (c & ->).
  eauto.
Qed.

(** X2. The messages that [re_match] accepts for a plain template are
    exactly those that the template spells: the literal texts in their
    places, a newline-free text for each placeholder, and at most one newline
    at the end. *)
Theorem re_match_accepts_exactly_instances
  (self : pattern_obj) (segs : list segment) (message : string) (h : attrs) :
  pattern self = template_of segs ->
  plain_template segs = true ->
  hasattr h self = false ->
  (exists groups h', re_match self message h = Ok (Some groups, h')) <->
  instance_of segs message.
Proof.
  intros Hpat Hplain Hfresh.
  rewrite (re_match_plain _ _ _ _ Hpat Hplain Hfresh). split.
  - intros (groups & h' & H). injection H as H _.
    destruct (plain_match_groups _ _ _ H) as (vals & _ & Hlen & Hnl & Hmsg).
    exists vals. auto.
  - intros Hinst. destruct (instance_accepted _ _ Hinst) as (groups & ->). eauto.
Qed.

Lemma re_match_accepts_exactly_instances_witness :
  exists groups h',
    re_match (mk_pattern 6 LotsOfForks
                "{name} now has {forks_over_or_nearly}{forks} forks! See the full report at {url}")
      "octo now has over 120 forks! See the full report at r.io/a" [] =
      Ok (Some groups, h').
Proof.
  apply (proj2 (re_match_accepts_exactly_instances
    (mk_pattern 6 LotsOfForks
       "{name} now has {forks_over_or_nearly}{forks} forks! See the full report at {url}")
    [Field "name"; Lit " now has "; Field "forks_over_or_nearly"; Field "forks";
     Lit " forks! See the full report at "; Field "url"]
    "octo now has over 120 forks! See the full report at r.io/a" []
    eq_refl eq_refl eq_refl)).
  exists ["octo"; "over "; "120"; "r.io/a"].
  split; [reflexivity|]. split; [|left; reflexivity].
  repeat constructor.
Defined.

(** X3. What [format] renders from a plain template, [re_match] of the same
    pattern accepts, adjacent placeholders included, as long as the rendered
    values have no newline; the groups may differ from the rendered values,
    but there is one group per placeholder and, put back into the template,
    they spell the rendered text. *)
Theorem rendered_message_is_matched
  (self : pattern_obj) (segs : list segment)
  (record extra_context kwargs : dict) (vals : list string) (h : attrs) :
  pattern self = template_of segs ->
  plain_template segs = true ->
  hasattr h self = false ->
  kwargs_merge extra_context record = Ok kwargs ->
  Forall2 (fun name v => str_format_field kwargs tt name = Ok (v, tt))
    (field_names segs) vals ->
  Forall (fun v => no_newline v = true) vals ->
  exists (rendered : string) (found : list string) (h' : attrs),
    format self (VDict record) (Some extra_context) = Ok rendered /\
    re_match self rendered h = Ok (Some (map Some found), h') /\
    List.length found = List.length (field_names segs) /\
    (rendered = fill segs found \/
     rendered = (fill segs found ++ String newline "")%string).
Proof.
  intros Hpat Hplain Hfresh Hmerge Hvals Hnl.
  assert (Hfmt : format self (VDict record) (Some extra_context)
                 = Ok (fill segs vals)).
  { unfold format. cbn [as_mapping bind]. rewrite Hmerge. cbn [bind].
    rewrite Hpat. apply str_format_fill; assumption. }
  assert (Hinst : instance_of segs (fill segs vals)).
  { exists vals. split; [symmetry; apply (Forall2_length Hvals)|]. auto. }
  destruct (instance_accepted _ _ Hinst) as (groups & Hgroups).
  destruct (plain_match_groups _ _ _ Hgroups) as (found & -> & Hlen & _ & Hmsg).
  exists (fill segs vals), found, ((oid self, matcher_of segs) :: h).
  split; [exact Hfmt|]. split; [|auto].
  rewrite (re_match_plain _ _ _ _ Hpat Hplain Hfresh), Hgroups. reflexivity.
Qed.

Lemma rendered_message_is_matched_witness :
  exists (rendered : string) (found : list string) (h' : attrs),
    format (mk_pattern 6 LotsOfForks
              "{name} now has {forks_over_or_nearly}{forks} forks! See the full report at {url}")
      (VDict [("name", VStr "octo"); ("forks_over_or_nearly", VStr "over ");
              ("forks", VInt 120); ("url", VStr "r.io/a")]) (Some []) = Ok rendered /\
    re_match (mk_pattern 6 LotsOfForks
                "{name} now has {forks_over_or_nearly}{forks} forks! See the full report at {url}")
      rendered [] = Ok (Some (map Some found), h') /\
    List.length found = 4 /\
    (rendered =
       fill [Field "name"; Lit " now has "; Field "forks_over_or_nearly";
             Field "forks"; Lit " forks! See the full report at "; Field "url"] found \/
     rendered =
       (fill [Field "name"; Lit " now has "; Field "forks_over_or_nearly";
              Field "forks"; Lit " forks! See the full report at "; Field "url"] found
        ++ String newline "")%string).
Proof.
  apply (rendered_message_is_matched
    (mk_pattern 6 LotsOfForks
       "{name} now has {forks_over_or_nearly}{forks} forks! See the full report at {url}")
    [Field "name"; Lit " now has "; Field "forks_over_or_nearly"; Field "forks";
     Lit " forks! See the full report at "; Field "url"]
    [("name", VStr "octo"); ("forks_over_or_nearly", VStr "over ");
     ("forks", VInt 120); ("url", VStr "r.io/a")] []
    [("name", VStr "octo"); ("forks_over_or_nearly", VStr "over ");
     ("forks", VInt 120); ("url", VStr "r.io/a")]
    ["octo"; "over "; "120"; "r.io/a"] []); try reflexivity.
  - cbn [field_names]. repeat (constructor; [reflexivity|]). constructor.
  - repeat constructor.
Defined.

Lemma no_newline_fill (segs : list segment) :
  forallb one_line_segment segs = true ->
  forall vals,
    Forall (fun v => no_newline v = true) vals ->
    no_newline (fill segs vals) = true.
Proof.
  induction segs as [|[t|n] segs IH]; intros H vals Hnl; cbn [fill].
  - reflexivity.
  - cbn [forallb one_line_segment] in H. apply andb_true_iff in H as [Ht H].
    rewrite no_newline_app, Ht. apply IH; assumption.
  - cbn [forallb one_line_segment] in H.
    destruct vals as [|v vals]; [apply IH; [exact H | constructor]|].
    inversion Hnl; subst. rewrite no_newline_app.
    apply andb_true_iff. split; [assumption | apply IH; assumption].
Qed.

Lemma newline_only_at_end (f a b : string) :
  no_newline f = true ->
  (f ++ String newline "")%string = (a ++ String newline b)%string ->
  b = ""%string.
Proof.
  revert a. induction f as [|c f IH]; intros a Hf Heq.
  - destruct a as [|c' a]; cbn [append] in Heq.
    + injection Heq as <-. reflexivity.
    + injection Heq as _ Heq. destruct a; discriminate.
  - unfold no_newline in Hf. cbn [str_mem] in Hf.
    rewrite negb_orb in Hf. apply andb_true_iff in Hf as [Hc Hf].
    destruct a as [|c' a]; cbn [append] in Heq.
    + injection Heq as Hc' _. subst c. rewrite Ascii.eqb_refl in Hc. discriminate.
    + injection Heq as _ Heq. apply (IH a); assumption.
Qed.

(** X4. A message with a line break before its last character is never
    matched by a plain template whose literal texts have no newline: the
    wildcard of a placeholder does not cross a newline. *)
Theorem multi_line_message_is_rejected
  (self : pattern_obj) (segs : list segment) (before after : string) (h : attrs) :
  pattern self = template_of segs ->
  plain_template segs = true ->
  forallb one_line_segment segs = true ->
  hasattr h self = false ->
  after <> ""%string ->
  returned (re_match self (before ++ String newline after) h) = Ok None.
Proof.
  intros Hpat Hplain Hlines Hfresh Hafter.
  rewrite (re_match_plain _ _ _ _ Hpat Hplain Hfresh). unfold returned. cbn [bind].
  destruct (re_match_compiled (compiled_regexp (matcher_of segs))
              (before ++ String newline after)) as [groups|] eqn:E; [|reflexivity].
  exfalso.
  destruct (plain_match_groups _ _ _ E) as (vals & _ & _ & Hnl & Hmsg).
  pose proof (no_newline_fill segs Hlines vals Hnl) as Hfill.
  destruct Hmsg as [Hmsg|Hmsg].
  - rewrite <- Hmsg, no_newline_app in Hfill.
    apply andb_true_iff in Hfill as [_ Hfill].
    unfold no_newline in Hfill. cbn [str_mem] in Hfill.
    rewrite Ascii.eqb_refl in Hfill. discriminate.
  - apply Hafter. symmetry in Hmsg.
    exact (newline_only_at_end _ _ _ Hfill Hmsg).
Qed.

Lemma multi_line_message_is_rejected_witness :
  returned (re_match
    (mk_pattern 3 RepoTweet "Just generated a health report for {name} at {url}")
    ("Just generated a health report for octo" ++ String newline " at r.io/a") []) =
    Ok None.
Proof.
  apply (multi_line_message_is_rejected
    (mk_pattern 3 RepoTweet "Just generated a health report for {name} at {url}")
    [Lit "Just generated a health report for "; Field "name"; Lit " at "; Field "url"]
    "Just generated a health report for octo" " at r.io/a" []); try reflexivity.
  discriminate.
Defined.

(** ** More on the recency filter *)

Lemma drop_recent_patterns_no_messages (pats : list pattern_obj) :
  forall (content : dict) (res : list pattern_obj) (h : attrs),
    drop_recent_patterns pats [] content res h = Ok (res, content, h).
Proof.
  induction pats as [|p pats IH]; intros content res h.
  - reflexivity.
  - cbn [drop_recent_patterns drop_recent_messages bind]. apply IH.
Qed.

(** X5. Without recent messages [drop_recent] returns every pattern of the
    list, in order, and leaves the pool and the patterns as they are: no
    template is compiled, so this holds for templates that would not compile
    as well. *)
Theorem drop_recent_without_messages
  (pats : list pattern_obj) (content : dict) (h : attrs) :
  drop_recent [] (PyList pats) content h = Ok (pats, content, h).
Proof. unfold drop_recent. apply drop_recent_patterns_no_messages. Qed.

Lemma dict_pop_incl (uuid : string) (content : dict) :
  incl (dict_pop uuid content) content.
Proof.
  induction content as [|[k v] content IH]; cbn [dict_pop].
  - apply incl_refl.
  - destruct (String.eqb uuid k).
    + apply incl_tl, incl_refl.
    + intros x [Hx|Hx]; [now left | right; apply IH, Hx].
Qed.

Lemma dict_pop_length (uuid : string) (content : dict) :
  List.length (dict_pop uuid content) <= List.length content.
Proof.
  induction content as [|[k v] content IH]; cbn [dict_pop List.length].
  - lia.
  - destruct (String.eqb uuid k); cbn [List.length]; lia.
Qed.

Lemma drop_first_match_pops (f : string) (g : option string) (content : dict) :
  forall recs content',
    drop_first_match f g recs content = Ok (Some content') ->
    exists uuid, content' = dict_pop uuid content.
Proof.
  induction recs as [|[uuid rec] recs IH]; intros content' H;
    cbn [drop_first_match] in H.
  - discriminate.
  - destruct (as_mapping rec) as [d|e]; cbn [bind] in H; [|discriminate].
    destruct (str_format ("{" ++ f ++ "}") d) as [txt|e]; cbn [bind] in H;
      [|discriminate].
    destruct (group_eqb txt g).
    + injection H as <-. eauto.
    + apply IH, H.
Qed.

Lemma drop_content_loop_pops (fgs : list (string * option string)) (content : dict) :
  forall content',
    drop_content_loop fgs content = Ok content' ->
    content' = content \/ exists uuid, content' = dict_pop uuid content.
Proof.
  induction fgs as [|[f g] fgs IH]; intros content' H; cbn [drop_content_loop] in H.
  - injection H as <-. now left.
  - destruct (existsb (String.eqb f) checkable); [|apply IH, H].
    destruct (drop_first_match f g content content) as [[c|]|e] eqn:E;
      cbn [bind] in H; [| |discriminate].
    + injection H as <-. right. eapply drop_first_match_pops, E.
    + apply IH, H.
Qed.

Lemma re_match_keeps_attrs (p : pattern_obj) (message : string) (h h' : attrs)
  (r : option match_obj) :
  re_match p message h = Ok (r, h') ->
  forall i m, assoc i h = Some m -> assoc i h' = Some m.
Proof.
  unfold re_match. intros H i m Hi.
  destruct (hasattr h p) eqn:Hhas; cbn [negb bind] in H.
  - destruct (getattrs h p); cbn [bind] in H; [|discriminate].
    injection H as _ <-. exact Hi.
  - destruct (compile_pattern (pattern p)) as [m'|e]; cbn [bind] in H; [|discriminate].
    destruct (getattrs ((oid p, m') :: h) p); cbn [bind] in H; [|discriminate].
    injection H as _ <-. cbn [assoc].
    destruct (Nat.eqb_spec i (oid p)) as [->|]; [|exact Hi].
    unfold hasattr in Hhas. rewrite Hi in Hhas. discriminate.
Qed.

Lemma drop_content_shrinks (p : pattern_obj) (message : string)
  (content content' : dict) (h h' : attrs) :
  drop_content p message content h = Ok (content', h') ->
  incl content' content /\
  List.length content' <= List.length content /\
  (forall i m, assoc i h = Some m -> assoc i h' = Some m).
Proof.
  assert (Hrepo :
    RepoTweet_drop_content p message content h = Ok (content', h') ->
    incl content' content /\
    List.length content' <= List.length content /\
    (forall i m, assoc i h = Some m -> assoc i h' = Some m)).
  { unfold RepoTweet_drop_content. intros H.
    destruct (re_match p message h) as [[r h1]|e] eqn:Hre; cbn [bind] in H;
      [|discriminate].
    destruct (getattrs h1 p) as [flds|e]; cbn [bind] in H; [|discriminate].
    destruct r as [groups|]; [|discriminate].
    destruct (drop_content_loop (combine (re_fields flds) groups) content)
      as [c|e] eqn:Hloop; cbn [bind] in H; [|discriminate].
    injection H as <- <-.
    split; [|split; [|exact (re_match_keeps_attrs _ _ _ _ _ Hre)]].
    - destruct (drop_content_loop_pops _ _ _ Hloop) as [->|[uuid ->]];
        [apply incl_refl | apply dict_pop_incl].
    - destruct (drop_content_loop_pops _ _ _ Hloop) as [->|[uuid ->]];
        [lia | apply dict_pop_length]. }
  unfold drop_content.
  destruct (cls p); try exact Hrepo;
    intros H; injection H as <- <-; (split; [apply incl_refl|]; split; [lia|auto]).
Qed.

Lemma list_remove_incl_objs (p : pattern_obj) (res : list pattern_obj) :
  incl (list_remove p res) res.
Proof.
  induction res as [|q res IH]; cbn [list_remove].
  - apply incl_refl.
  - destruct (same_object p q).
    + apply incl_tl, incl_refl.
    + intros x [Hx|Hx]; [now left | right; apply IH, Hx].
Qed.

Lemma drop_recent_messages_shrinks (p : pattern_obj) (msgs : list string) :
  forall content res h res' content' h',
    drop_recent_messages p msgs content res h = Ok (res', content', h') ->
    incl res' res /\ incl content' content /\
    List.length content' <= List.length content /\
    (forall i m, assoc i h = Some m -> assoc i h' = Some m).
Proof.
  induction msgs as [|msg msgs IH]; intros content res h res' content' h' H;
    cbn [drop_recent_messages] in H.
  - injection H as <- <- <-. repeat split; auto using incl_refl.
  - destruct (re_match p msg h) as [[r h1]|e] eqn:Hre; cbn [bind] in H;
      [|discriminate].
    pose proof (re_match_keeps_attrs _ _ _ _ _ Hre) as Hh1.
    destruct r as [groups|].
    + destruct (drop_content p msg content h1) as [[c h2]|e] eqn:Hdrop;
        cbn [bind] in H; [|discriminate].
      destruct (drop_content_shrinks _ _ _ _ _ _ Hdrop) as (Hc & Hlen & Hh2).
      destruct (IH _ _ _ _ _ _ H) as (Hres & Hc' & Hlen' & Hh').
      split; [|split; [|split]].
      * eapply incl_tran; [exact Hres|].
        destruct (list_in p res); [apply list_remove_incl_objs | apply incl_refl].
      * eapply incl_tran; eassumption.
      * lia.
      * auto.
    + destruct (IH _ _ _ _ _ _ H) as (Hres & Hc' & Hlen' & Hh').
      repeat split; auto.
Qed.

Lemma drop_recent_patterns_shrinks (msgs : list string) (pats : list pattern_obj) :
  forall content res h res' content' h',
    drop_recent_patterns pats msgs content res h = Ok (res', content', h') ->
    incl res' res /\ incl content' content /\
    List.length content' <= List.length content /\
    (forall i m, assoc i h = Some m -> assoc i h' = Some m).
Proof.
  induction pats as [|p pats IH]; intros content res h res' content' h' H;
    cbn [drop_recent_patterns] in H.
  - injection H as <- <- <-. repeat split; auto using incl_refl.
  - destruct (drop_recent_messages p msgs content res h) as [[[r1 c1] h1]|e] eqn:E;
      cbn [bind] in H; [|discriminate].
    destruct (drop_recent_messages_shrinks _ _ _ _ _ _ _ _ E) as (A1 & A2 & A3 & A4).
    destruct (IH _ _ _ _ _ _ H) as (B1 & B2 & B3 & B4).
    split; [|split; [|split]].
    + eapply incl_tran; eassumption.
    + eapply incl_tran; eassumption.
    + lia.
    + auto.
Qed.

(** X6. [drop_recent] only removes: whenever it returns, every pattern of
    the result is one of the patterns passed, every entry of the pool after
    the call is an entry, unchanged, of the pool before it, the pool has not
    grown, and every matcher stored before the call is still stored. *)
Theorem drop_recent_only_removes
  (recent_messages : list string) (pats res : list pattern_obj)
  (content content' : dict) (h h' : attrs) :
  drop_recent recent_messages (PyList pats) content h = Ok (res, content', h') ->
  incl res pats /\
  incl content' content /\
  List.length content' <= List.length content /\
  (forall i m, assoc i h = Some m -> assoc i h' = Some m).
Proof.
  unfold drop_recent. apply drop_recent_patterns_shrinks.
Qed.

Lemma drop_recent_only_removes_witness :
  let content :=
    [("a", VDict [("uuid", VStr "a"); ("name", VStr "octo"); ("url", VStr "r.io/a")]);
     ("b", VDict [("uuid", VStr "b"); ("name", VStr "hub"); ("url", VStr "r.io/b")])] in
  let pats := all_patterns_all_subclasses hierarchy true in
  exists res content' h',
    drop_recent ["Just generated a health report for hub at r.io/b"]
      (PyList pats) content [] = Ok (res, content', h') /\
    incl res pats /\ incl content' content /\
    List.length content' <= List.length content.
Proof.
  cbv zeta.
  destruct (drop_recent ["Just generated a health report for hub at r.io/b"]
              (PyList (all_patterns_all_subclasses hierarchy true))
              [("a", VDict [("uuid", VStr "a"); ("name", VStr "octo");
                            ("url", VStr "r.io/a")]);
               ("b", VDict [("uuid", VStr "b"); ("name", VStr "hub");
                            ("url", VStr "r.io/b")])] [])
    as [[[res content'] h']|e] eqn:E.
  - exists res, content', h'. split; [reflexivity|].
    destruct (drop_recent_only_removes _ _ _ _ _ _ _ E) as (H1 & H2 & H3 & _).
    auto.
  - vm_compute in E. discriminate.
Defined.

(** X7. [RepoTweet.drop_content] relies on its caller for the match: for a
    message that the matcher of the pattern does not match, [match] is
    [None] and the call ends with an [AttributeError]. *)
Theorem drop_content_unmatched_message
  (self : pattern_obj) (message : string) (content : dict) (h : attrs) (m : matcher) :
  cls self = RepoTweet \/ cls self = LotsOfStars \/ cls self = LotsOfForks ->
  compile_pattern (pattern self) = Ok m ->
  attrs_ok h self ->
  re_match_compiled (compiled_regexp m) message = None ->
  drop_content self message content h =
    Raise (AttributeError "'NoneType' object has no attribute 'groups'").
Proof.
  intros Hcls Hm Hok Hnone.
  destruct (re_match_ok self m message h Hm Hok) as (h' & Hre & Hassoc & _).
  assert (H : RepoTweet_drop_content self message content h =
              Raise (AttributeError "'NoneType' object has no attribute 'groups'")).
  { unfold RepoTweet_drop_content. rewrite Hre. cbn [bind].
    unfold getattrs. rewrite Hassoc. cbn [bind]. rewrite Hnone. reflexivity. }
  unfold drop_content. destruct Hcls as [-> | [-> | ->]]; exact H.
Qed.

Lemma drop_content_unmatched_message_witness :
  drop_content
    (mk_pattern 3 RepoTweet "Just generated a health report for {name} at {url}")
    "Good morning" [("a", VDict [("name", VStr "octo")])] [] =
    Raise (AttributeError "'NoneType' object has no attribute 'groups'").
Proof.
  apply (drop_content_unmatched_message
    (mk_pattern 3 RepoTweet "Just generated a health report for {name} at {url}")
    "Good morning" _ []
    (matcher_of [Lit "Just generated a health report for "; Field "name";
                 Lit " at "; Field "url"])).
  - left. reflexivity.
  - vm_compute. reflexivity.
  - intros m' Hm'. discriminate.
  - vm_compute. reflexivity.
Defined.

(** ** More on [format] *)

Lemma kwargs_merge_disjoint (b : dict) :
  forall a : dict,
    NoDup (map fst b) ->
    (forall k, dict_mem k b = true -> dict_mem k a = false) ->
    kwargs_merge a b = Ok (a ++ b)%list.
Proof.
  induction b as [|[k v] b IH]; intros a Hnd Hdis; cbn [kwargs_merge].
  - rewrite app_nil_r. reflexivity.
  - cbn [map fst] in Hnd. inversion Hnd as [|? ? Hnotin Hnd']; subst.
    rewrite (Hdis k) by (apply dict_mem_In; now left).
    rewrite (IH (a ++ [(k, v)])%list Hnd').
    + rewrite <- app_assoc. reflexivity.
    + intros k' Hk'. rewrite dict_mem_app.
      rewrite (Hdis k') by (apply dict_mem_In; right; apply dict_mem_In, Hk').
      cbn [orb]. unfold dict_mem. cbn [dict_get].
      destruct (String.eqb_spec k' k) as [->|]; [|reflexivity].
      exfalso. apply Hnotin, dict_mem_In, Hk'.
Qed.

Lemma dict_get_app (k : string) (a b : dict) :
  dict_get k (a ++ b)%list =
    match dict_get k a with
    | Some v => Some v
    | None => dict_get k b
    end.
Proof.
  induction a as [|[k' v] a IH]; cbn [app dict_get].
  - reflexivity.
  - destruct (String.eqb k k'); [reflexivity | exact IH].
Qed.

(** X8. When [context] and [extra_context] have no key in common, [format]
    renders the template over the two mappings together: it is
    [str.format] with the keys of [extra_context] followed by those of
    [context], so that a name is looked up in [extra_context] and, when it is
    not there, in [context]. *)
Theorem format_disjoint_contexts
  (self : pattern_obj) (record extra_context : dict) :
  NoDup (map fst record) ->
  (forall k, dict_mem k record = true -> dict_mem k extra_context = false) ->
  format self (VDict record) (Some extra_context) =
    str_format (pattern self) (extra_context ++ record)%list /\
  forall k,
    dict_get k (extra_context ++ record)%list =
      match dict_get k extra_context with
      | Some v => Some v
      | None => dict_get k record
      end.
Proof.
  intros Hnd Hdis. split; [|intros k; apply dict_get_app].
  unfold format. cbn [as_mapping bind].
  rewrite (kwargs_merge_disjoint _ _ Hnd Hdis). reflexivity.
Qed.

Lemma format_disjoint_contexts_witness :
  format (mk_pattern 0 TweetPattern "{name}: try it out at {repohealth_url}")
    (VDict [("name", VStr "octo")]) (Some [("repohealth_url", VStr "repohealth.info")]) =
  str_format "{name}: try it out at {repohealth_url}"
    [("repohealth_url", VStr "repohealth.info"); ("name", VStr "octo")].
Proof.
  refine (proj1 (format_disjoint_contexts
    (mk_pattern 0 TweetPattern "{name}: try it out at {repohealth_url}")
    [("name", VStr "octo")] [("repohealth_url", VStr "repohealth.info")] _ _)).
  - repeat constructor. intros [].
  - intros k Hk. apply dict_mem_In in Hk. destruct Hk as [<-|[]]. reflexivity.
Defined.

(** ** More on rounding *)

Section RoundingBounds.

Open Scope Z_scope.

Lemma floor_log10_unique (y a : Z) :
  0 < y -> 0 <= a -> 10 ^ a <= y < 10 ^ (a + 1) -> floor_log10 y = a.
Proof.
  intros Hy Ha Hbounds.
  destruct (floor_log10_spec y Hy) as (He & Hlo & Hhi).
  set (e := floor_log10 y) in *.
  destruct (Z.lt_trichotomy e a) as [Hlt|[Heq|Hgt]]; [|exact Heq|].
  - assert (10 ^ (e + 1) <= 10 ^ a) by (apply Z.pow_le_mono_r; lia). lia.
  - assert (10 ^ (a + 1) <= 10 ^ e) by (apply Z.pow_le_mono_r; lia). lia.
Qed.

Lemma round_multiple (m ndigits : Z) :
  round (m * 10 ^ Z.max 0 (- ndigits)) ndigits = m * 10 ^ Z.max 0 (- ndigits).
Proof.
  unfold round. destruct (0 <=? ndigits) eqn:E; [reflexivity|].
  apply Z.leb_gt in E. replace (Z.max 0 (- ndigits)) with (- ndigits) by lia.
  assert (Hp : 0 < 10 ^ (- ndigits)) by (apply Z.pow_pos_nonneg; lia).
  unfold divmod_near. rewrite Z.mod_mul by lia.
  replace (10 ^ (- ndigits) <? 2 * 0) with false by (symmetry; apply Z.ltb_ge; lia).
  replace (2 * 0 =? 10 ^ (- ndigits)) with false by (symmetry; apply Z.eqb_neq; lia).
  cbn [orb andb snd]. lia.
Qed.

(** What [round_sig] returns, with the unit [u] of the second significant
    digit of [x]. *)
Lemma round_sig_unit (x : Z) :
  0 < x ->
  exists (r u m : Z),
    round_sig x 2 = Ok r /\
    u = 10 ^ Z.max 0 (floor_log10 x - 1) /\ 0 < u /\
    r = m * u /\ 2 * Z.abs (r - x) <= u /\
    (floor_log10 x = 0 -> u = 1 /\ 1 <= x < 10) /\
    (1 <= floor_log10 x ->
     10 ^ floor_log10 x = 10 * u /\ 10 ^ (floor_log10 x + 1) = 100 * u /\
     10 * u <= x < 100 * u).
Proof.
  intros Hx. destruct (floor_log10_spec x Hx) as (He & Hlo & Hhi).
  set (e := floor_log10 x) in *.
  pose proof (round_spec x (2 - e - 1)) as Hr. cbv zeta in Hr.
  replace (Z.max 0 (- (2 - e - 1))) with (Z.max 0 (e - 1)) in Hr by lia.
  destruct Hr as [[m Hm] Hnear].
  exists (round x (2 - e - 1)), (10 ^ Z.max 0 (e - 1)), m.
  split.
  { unfold round_sig. destruct (x <=? 0) eqn:E; [apply Z.leb_le in E; lia|].
    reflexivity. }
  split; [reflexivity|].
  split; [apply Z.pow_pos_nonneg; lia|].
  split; [exact Hm|]. split; [exact Hnear|]. split.
  - intros H0. rewrite H0 in *. cbn in Hlo, Hhi |- *. lia.
  - intros H1. replace (Z.max 0 (e - 1)) with (e - 1) by lia.
    assert (E1 : 10 ^ e = 10 * 10 ^ (e - 1)).
    { replace e with (Z.succ (e - 1)) at 1 by lia. apply Z.pow_succ_r. lia. }
    assert (E2 : 10 ^ (e + 1) = 10 * 10 ^ e).
    { replace (e + 1) with (Z.succ e) by lia. apply Z.pow_succ_r. lia. }
    lia.
Qed.

(** X9. For every positive [x], [round_with_direction_string] returns a
    value between the power of ten below [x] and the next power of ten,
    which differs from [x] by at most a twentieth of [x]; a count of 50 or
    more, which is what [LotsOfStars] and [LotsOfForks] require, is never
    shown as less than 50. *)
Theorem rounded_value_is_close (x : Z) :
  0 < x ->
  exists (rounded : Z) (direction : string),
    round_with_direction_string x = Ok (rounded, direction) /\
    10 ^ floor_log10 x <= rounded <= 10 ^ (floor_log10 x + 1) /\
    20 * Z.abs (rounded - x) <= x /\
    (x < 10 -> rounded = x) /\
    (50 <= x -> 50 <= rounded).
Proof.
  intros Hx.
  destruct (round_sig_unit x Hx) as (r & u & m & Hrs & Hu & Hupos & Hm & Hnear & H0 & H1).
  destruct (floor_log10_spec x Hx) as (He & Hlo & Hhi).
  exists r. unfold round_with_direction_string. rewrite Hrs. cbn [bind].
  eexists. split; [reflexivity|].
  destruct (Z.eq_dec (floor_log10 x) 0) as [E0|E0].
  - destruct (H0 E0) as [Hu1 Hx10]. clear Hu. subst u.
    assert (r = x) by lia. subst r.
    rewrite E0. change (10 ^ 0) with 1. change (10 ^ (0 + 1)) with 10.
    repeat split; intros; lia.
  - destruct (H1 ltac:(lia)) as (P1 & P2 & Hrange).
    rewrite P1, P2.
    assert (Hm10 : 10 <= m <= 100) by nia.
    assert (Hr10 : 10 * u <= r <= 100 * u) by nia.
    split; [exact Hr10|]. split; [lia|]. split; [|].
    + intros Hsmall.
      assert (floor_log10 x = 0); [|contradiction].
      apply floor_log10_unique; cbn; lia.
    + intros H50.
      destruct (Z.eq_dec (floor_log10 x) 1) as [E1|E1].
      * rewrite E1 in Hu. cbn in Hu. subst u. lia.
      * assert (10 <= u).
        { subst u. replace (Z.max 0 (floor_log10 x - 1)) with (Z.succ (floor_log10 x - 2))
            by lia.
          rewrite Z.pow_succ_r by lia.
          assert (0 < 10 ^ (floor_log10 x - 2)) by (apply Z.pow_pos_nonneg; lia).
          lia. }
        lia.
Qed.

Lemma rounded_value_is_close_witness :
  exists (rounded : Z) (direction : string),
    round_with_direction_string 1250 = Ok (rounded, direction) /\
    20 * Z.abs (rounded - 1250) <= 1250 /\ (50 <= 1250 -> 50 <= rounded).
Proof.
  destruct (rounded_value_is_close 1250 ltac:(lia))
    as (r & d & H1 & _ & H2 & _ & H3).
  exists r, d. auto.
Defined.

(** X10. Rounding is idempotent: the value that
    [round_with_direction_string] returns for a positive [x] is rounded to
    itself, with the direction "same as". *)
Theorem rounding_is_idempotent (x rounded : Z) (direction : string) :
  0 < x ->
  round_with_direction_string x = Ok (rounded, direction) ->
  round_with_direction_string rounded = Ok (rounded, "same as"%string).
Proof.
  intros Hx Hround.
  destruct (round_sig_unit x Hx) as (r & u & m & Hrs & Hu & Hupos & Hm & Hnear & H0 & H1).
  destruct (floor_log10_spec x Hx) as (He & Hlo & Hhi).
  unfold round_with_direction_string in Hround. rewrite Hrs in Hround.
  cbn [bind] in Hround. injection Hround as <- _.
  assert (Hsame : forall y, round_sig y 2 = Ok y ->
            round_with_direction_string y = Ok (y, "same as"%string)).
  { intros y Hy. unfold round_with_direction_string. rewrite Hy. cbn [bind].
    rewrite Z.ltb_irrefl. reflexivity. }
  apply Hsame.
  destruct (Z.eq_dec (floor_log10 x) 0) as [E0|E0].
  - destruct (H0 E0) as [Hu1 Hx10]. clear Hu. subst u.
    assert (Hrx : r = x) by lia. rewrite Hrx in Hrs |- *. exact Hrs.
  - destruct (H1 ltac:(lia)) as (P1 & P2 & Hrange).
    assert (Hm10 : 10 <= m <= 100) by nia.
    assert (Hr10 : 10 * u <= r <= 100 * u) by nia.
    assert (Hrpos : 0 < r) by lia.
    unfold round_sig. destruct (r <=? 0) eqn:E; [apply Z.leb_le in E; lia|].
    f_equal.
    destruct (Z.eq_dec r (100 * u)) as [Etop|Etop].
    + assert (Hlog : floor_log10 r = floor_log10 x + 1).
      { apply floor_log10_unique; [lia|lia|].
        replace (floor_log10 x + 1 + 1) with (Z.succ (floor_log10 x + 1)) by lia.
        rewrite Z.pow_succ_r by lia. lia. }
      rewrite Hlog.
      assert (Heq : r = 10 * 10 ^ Z.max 0 (- (2 - (floor_log10 x + 1) - 1))).
      { replace (Z.max 0 (- (2 - (floor_log10 x + 1) - 1))) with (floor_log10 x) by lia.
        lia. }
      rewrite Heq. apply round_multiple.
    + assert (Hlog : floor_log10 r = floor_log10 x).
      { apply floor_log10_unique; lia. }
      rewrite Hlog.
      assert (Heq : r = m * 10 ^ Z.max 0 (- (2 - floor_log10 x - 1))).
      { replace (Z.max 0 (- (2 - floor_log10 x - 1))) with (Z.max 0 (floor_log10 x - 1))
          by lia.
        lia. }
      rewrite Heq. apply round_multiple.
Qed.

Lemma rounding_is_idempotent_witness :
  round_with_direction_string 1000 = Ok (1000, "same as"%string).
Proof.
  apply (rounding_is_idempotent 999 1000 "more than"); [lia | reflexivity].
Defined.

End RoundingBounds.

(** ** Contexts of the patterns about popular repositories *)

Lemma dict_get_set_same (k : string) (v : value) (d : dict) :
  dict_get k (dict_set k v d) = Some v.
Proof.
  induction d as [|[k' v'] d IH]; cbn [dict_set dict_get].
  - rewrite String.eqb_refl. reflexivity.
  - destruct (String.eqb k k') eqn:E; cbn [dict_get].
    + rewrite String.eqb_refl. reflexivity.
    + rewrite E. exact IH.
Qed.

Lemma dict_get_set_other (k k' : string) (v : value) (d : dict) :
  k <> k' -> dict_get k (dict_set k' v d) = dict_get k d.
Proof.
  intros Hne. induction d as [|[k0 v0] d IH]; cbn [dict_set dict_get].
  - apply String.eqb_neq in Hne. rewrite Hne. reflexivity.
  - destruct (String.eqb_spec k' k0) as [->|Hne0]; cbn [dict_get].
    + apply String.eqb_neq in Hne. rewrite Hne. reflexivity.
    + destruct (String.eqb k k0); [reflexivity | exact IH].
Qed.

Lemma dict_set_keys (k : string) (v : value) (d : dict) :
  forall k', In k' (map fst (dict_set k v d)) <-> k' = k \/ In k' (map fst d).
Proof.
  induction d as [|[k0 v0] d IH]; intros k'; cbn [dict_set map fst In].
  - intuition.
  - destruct (String.eqb_spec k k0) as [->|Hne]; cbn [map fst In].
    + intuition.
    + rewrite IH. intuition.
Qed.

Lemma dict_set_NoDup (k : string) (v : value) (d : dict) :
  NoDup (map fst d) -> NoDup (map fst (dict_set k v d)).
Proof.
  induction d as [|[k0 v0] d IH]; intros Hnd; cbn [dict_set map fst].
  - constructor; [intros [] | constructor].
  - cbn [map fst] in Hnd. inversion Hnd as [|? ? Hnotin Hnd']; subst.
    destruct (String.eqb_spec k k0) as [->|Hne]; cbn [map fst].
    + constructor; assumption.
    + constructor; [|apply IH, Hnd'].
      rewrite dict_set_keys. intros [Heq|Hin]; [congruence | contradiction].
Qed.

Section PopularRepositories.

Open Scope Z_scope.

Lemma with_rounded_spec (stat : value -> result value) (count_key qual_key : string)
  (d : dict) (n : Z) :
  stat (VDict d) = Ok (VInt n) ->
  0 < n ->
  exists (r : Z) (q : string),
    with_rounded stat count_key qual_key (VDict d) =
      Ok (VDict (dict_set qual_key (VStr q) (dict_set count_key (VInt r) d))) /\
    round_sig n 2 = Ok r /\
    (q = "over "%string /\ r < n \/ q = "nearly "%string /\ n < r \/
     q = ""%string /\ r = n).
Proof.
  intros Hstat Hn. unfold with_rounded. cbn [copy_for_update bind].
  rewrite Hstat. cbn [bind as_int]. unfold round_with_direction_string.
  assert (Hrs : round_sig n 2 = Ok (round n (2 - floor_log10 n - 1))).
  { unfold round_sig. destruct (n <=? 0) eqn:E; [apply Z.leb_le in E; lia|].
    reflexivity. }
  rewrite Hrs. cbn [bind]. set (r := round n (2 - floor_log10 n - 1)).
  destruct (r <? n) eqn:E1; [|destruct (n <? r) eqn:E2].
  - apply Z.ltb_lt in E1. exists r, "over "%string.
    split; [reflexivity|]. split; [reflexivity|]. left. split; [reflexivity|lia].
  - apply Z.ltb_lt in E2. exists r, "nearly "%string.
    split; [reflexivity|]. split; [reflexivity|].
    right. left. split; [reflexivity|lia].
  - apply Z.ltb_ge in E1, E2. exists r, ""%string.
    split; [reflexivity|]. split; [reflexivity|]. right. right. split; [reflexivity|lia].
Qed.

(** X11. The patterns about popular repositories are gated by their count:
    for a record whose count of stargazers (for [LotsOfStars]) or of forks
    (for [LotsOfForks]) is an int below 50, [context] yields nothing; from 50
    on it yields the pattern with one context, which is the record with two
    more keys, the rounded count and the qualifier that tells how the
    rounded count compares with the count, every other key being as in the
    record. *)
Theorem popularity_gates_context
  (self : pattern_obj) (d : dict) (n : Z) (count_key qual_key : string) :
  (cls self = LotsOfStars /\ stargazers (VDict d) = Ok (VInt n) /\
   count_key = "n_stargazers"%string /\ qual_key = "stars_over_or_nearly"%string) \/
  (cls self = LotsOfForks /\ forks (VDict d) = Ok (VInt n) /\
   count_key = "forks"%string /\ qual_key = "forks_over_or_nearly"%string) ->
  (n < 50 -> TweetPattern_context self (VDict d) = Ok []) /\
  (50 <= n ->
   exists (r : Z) (q : string) (d' : dict),
     TweetPattern_context self (VDict d) = Ok [(self, VDict d')] /\
     dict_get count_key d' = Some (VInt r) /\
     dict_get qual_key d' = Some (VStr q) /\
     round_sig n 2 = Ok r /\
     (q = "over "%string /\ r < n \/ q = "nearly "%string /\ n < r \/
      q = ""%string /\ r = n) /\
     forall k, k <> count_key -> k <> qual_key -> dict_get k d' = dict_get k d).
Proof.
  intros Hcase.
  assert (Hcond : condition self (VDict d) = Ok (50 <=? n)).
  { unfold condition.
    destruct Hcase as [(-> & -> & _)|(-> & -> & _)]; reflexivity. }
  assert (Hupd : updated_context self (VDict d) =
                 with_rounded (if String.eqb count_key "forks" then forks else stargazers)
                   count_key qual_key (VDict d) /\
                 (if String.eqb count_key "forks" then forks else stargazers) (VDict d)
                   = Ok (VInt n) /\ count_key <> qual_key).
  { unfold updated_context.
    destruct Hcase as [(-> & Hs & -> & ->)|(-> & Hs & -> & ->)]; cbn;
      (split; [reflexivity|]; split; [exact Hs | discriminate]). }
  destruct Hupd as (Hupd & Hstat & Hkeys).
  unfold TweetPattern_context. rewrite Hcond. cbn [bind]. split.
  - intros Hlt. replace (50 <=? n) with false by (symmetry; apply Z.leb_gt; lia).
    reflexivity.
  - intros Hge. replace (50 <=? n) with true by (symmetry; apply Z.leb_le; lia).
    destruct (with_rounded_spec _ count_key qual_key d n Hstat ltac:(lia))
      as (r & q & Hwr & Hrs & Hq).
    rewrite Hupd, Hwr. cbn [bind].
    exists r, q, (dict_set qual_key (VStr q) (dict_set count_key (VInt r) d)).
    split; [reflexivity|]. split.
    { rewrite dict_get_set_other by exact Hkeys. apply dict_get_set_same. }
    split; [apply dict_get_set_same|]. split; [exact Hrs|]. split; [exact Hq|].
    intros k Hk1 Hk2. rewrite !dict_get_set_other by assumption. reflexivity.
Qed.

Lemma popularity_gates_context_witness :
  TweetPattern_context
    (mk_pattern 6 LotsOfForks
       "{name} now has {forks_over_or_nearly}{forks} forks! See the full report at {url}")
    (VDict [("github", VDict [("repo", VDict [("forks_count", VInt 49)])])]) = Ok [].
Proof.
  refine (proj1 (popularity_gates_context
    (mk_pattern 6 LotsOfForks
       "{name} now has {forks_over_or_nearly}{forks} forks! See the full report at {url}")
    [("github", VDict [("repo", VDict [("forks_count", VInt 49)])])] 49
    "forks" "forks_over_or_nearly" _) _); [|lia].
  right. repeat split.
Defined.

End PopularRepositories.

Lemma str_format_field_lookup (kwargs : dict) (name : string) (v : value)
  (txt : string) :
  plain_name name = true ->
  dict_get name kwargs = Some v ->
  render v = Ok txt ->
  str_format_field kwargs tt name = Ok (txt, tt).
Proof.
  unfold plain_name. rewrite !andb_true_iff, !negb_true_iff.
  intros [[Hne Hchars] Hnum] Hget Hrender.
  unfold str_format_field. rewrite (split_first_plain _ Hchars).
  rewrite Hne, Hnum. cbn [orb]. unfold dict_item. rewrite Hget.
  cbn [bind accessors]. rewrite Hrender. reflexivity.
Qed.

(** X12. From the record to the candidate: for a record with distinct keys,
    a name that is a string, no key [repohealth_url] and an int count of at
    least 50 stargazers, the first pattern of [LotsOfStars] adds exactly one
    candidate to [tweet_options], the sentence with the name of the
    repository, the qualifier and the rounded count, and no exception is
    raised. *)
Theorem stargazers_candidate
  (self : pattern_obj) (uuid nm site : string) (d : dict) (n : Z)
  (tweet_options : list string) :
  cls self = LotsOfStars ->
  pattern self =
    "Just compiled a repo report for {name} - it now has {stars_over_or_nearly}{n_stargazers} stargazers!" ->
  NoDup (map fst d) ->
  dict_get "name" d = Some (VStr nm) ->
  dict_mem "repohealth_url" d = false ->
  stargazers (VDict d) = Ok (VInt n) ->
  (50 <= n)%Z ->
  exists (r : Z) (q : string),
    round_sig n 2 = Ok r /\
    (q = "over " /\ (r < n)%Z \/ q = "nearly " /\ (n < r)%Z \/ q = "" /\ r = n) /\
    render_steps (context self [(uuid, VDict d)])
      [("repohealth_url", VStr site)] tweet_options =
      ((tweet_options ++
        [("Just compiled a repo report for " ++ nm ++ " - it now has " ++ q
          ++ str_of_Z r ++ " stargazers!")%string])%list, None).
Proof.
  intros Hcls Hpat Hnd Hname Hurl Hstars Hn.
  destruct (with_rounded_spec stargazers "n_stargazers" "stars_over_or_nearly"
              d n Hstars ltac:(lia)) as (r & q & Hwr & Hrs & Hq).
  exists r, q. split; [exact Hrs|]. split; [exact Hq|].
  set (d' := dict_set "stars_over_or_nearly" (VStr q)
               (dict_set "n_stargazers" (VInt r) d)) in *.
  assert (Hctx : context self [(uuid, VDict d)] = [Ok [(self, VDict d')]]).
  { unfold context. rewrite Hcls. cbn [map].
    unfold TweetPattern_context, condition, updated_context. rewrite Hcls, Hstars.
    cbn [bind as_int].
    replace (50 <=? n)%Z with true by (symmetry; apply Z.leb_le; lia).
    rewrite Hwr. reflexivity. }
  assert (Hmerge : kwargs_merge [("repohealth_url", VStr site)] d' =
                   Ok ([("repohealth_url", VStr site)] ++ d')%list).
  { apply kwargs_merge_disjoint.
    - subst d'. apply dict_set_NoDup, dict_set_NoDup, Hnd.
    - intros k Hk. unfold dict_mem. cbn [dict_get].
      destruct (String.eqb_spec k "repohealth_url") as [->|]; [|reflexivity].
      exfalso. subst d'. unfold dict_mem in Hk, Hurl.
      rewrite !dict_get_set_other in Hk by discriminate.
      rewrite Hk in Hurl. discriminate. }
  assert (Hfmt : format self (VDict d') (Some [("repohealth_url", VStr site)]) =
    Ok ("Just compiled a repo report for " ++ nm ++ " - it now has " ++ q
        ++ str_of_Z r ++ " stargazers!")%string).
  { unfold format. cbn [as_mapping bind]. rewrite Hmerge. cbn [bind].
    rewrite Hpat.
    rewrite (str_format_fill
      [Lit "Just compiled a repo report for "; Field "name"; Lit " - it now has ";
       Field "stars_over_or_nearly"; Field "n_stargazers"; Lit " stargazers!"]
      _ eq_refl [nm; q; str_of_Z r]).
    - cbn [fill]. rewrite append_nil_r. reflexivity.
    - cbn [field_names app]. subst d'.
      constructor; [|constructor; [|constructor; [|constructor]]].
      + apply (str_format_field_lookup _ _ (VStr nm)); [reflexivity| |reflexivity].
        cbn [dict_get String.eqb Ascii.eqb Bool.eqb].
        rewrite !dict_get_set_other by discriminate. exact Hname.
      + apply (str_format_field_lookup _ _ (VStr q)); [reflexivity| |reflexivity].
        cbn [dict_get String.eqb Ascii.eqb Bool.eqb]. apply dict_get_set_same.
      + apply (str_format_field_lookup _ _ (VInt r)); [reflexivity| |reflexivity].
        cbn [dict_get String.eqb Ascii.eqb Bool.eqb].
        rewrite dict_get_set_other by discriminate. apply dict_get_set_same. }
  clearbody d'. rewrite Hctx. cbn [render_steps render_pairs].
  unfold dict in *. rewrite Hfmt. reflexivity.
Qed.

Lemma stargazers_candidate_witness :
  exists (r : Z) (q : string),
    render_steps
      (context
         (mk_pattern 4 LotsOfStars
            "Just compiled a repo report for {name} - it now has {stars_over_or_nearly}{n_stargazers} stargazers!")
         [("a", VDict [("github", VDict [("repo", VDict [("stargazers_count", VInt 51)])]);
                       ("name", VStr "octo"); ("url", VStr "r.io/a")])])
      [("repohealth_url", VStr "repohealth.info")] [] =
      (["Just compiled a repo report for " ++ "octo" ++ " - it now has " ++ q
         ++ str_of_Z r ++ " stargazers!"]%string, None).
Proof.
  destruct (stargazers_candidate
    (mk_pattern 4 LotsOfStars
       "Just compiled a repo report for {name} - it now has {stars_over_or_nearly}{n_stargazers} stargazers!")
    "a" "octo" "repohealth.info"
    [("github", VDict [("repo", VDict [("stargazers_count", VInt 51)])]);
     ("name", VStr "octo"); ("url", VStr "r.io/a")] 51%Z []) as (r & q & _ & _ & H);
    try reflexivity.
  - repeat constructor; cbn; intuition discriminate.
  - lia.
  - exists r, q. exact H.
Defined.


(** ** The preparation of the pool *)

Lemma repo_name_set_other (k : string) (v : value) (d : dict) :
  k <> "github"%string ->
  repo_name (VDict (dict_set k v d)) = repo_name (VDict d).
Proof.
  intros Hk. unfold repo_name, subscript, dict_item.
  rewrite dict_get_set_other by congruence. reflexivity.
Qed.

Lemma add_extra_content_record (uuid : string) (d : dict) (name : value) :
  repo_name (VDict d) = Ok name ->
  let d1 := if dict_mem "uuid" d then d else dict_set "uuid" (VStr uuid) d in
  let d3 := dict_set "url" (VStr ("repohealth.info/report/" ++ uuid))
              (dict_set "name" name d1) in
  repo_name (VDict d1) = Ok name /\ prepared uuid (VDict d) (VDict d3).
Proof.
  intros Hname d1 d3.
  assert (H1 : repo_name (VDict d1) = Ok name).
  { subst d1. destruct (dict_mem "uuid" d); [exact Hname|].
    rewrite repo_name_set_other by discriminate. exact Hname. }
  split; [exact H1|].
  exists d, d3, name. split; [reflexivity|]. split; [reflexivity|].
  split; [exact Hname|]. split; [|split; [|split]].
  - subst d3. rewrite !dict_get_set_other by discriminate. subst d1.
    unfold dict_mem. destruct (dict_get "uuid" d) eqn:E.
    + exact E.
    + apply dict_get_set_same.
  - subst d3. rewrite dict_get_set_other by discriminate. apply dict_get_set_same.
  - subst d3. apply dict_get_set_same.
  - intros k Hu Hn Hl. subst d3. rewrite !dict_get_set_other by assumption.
    subst d1. destruct (dict_mem "uuid" d); [reflexivity|].
    apply dict_get_set_other. exact Hu.
Qed.

(** X13. When the loop of [tweet_status] that completes the records
    returns, the pool has the same keys in the same order, and every record
    has its [name] set to the name of its repository, its [url] set to the
    report address of its key, its [uuid] left as it was or else set to its
    key, and every other field as before. *)
Theorem add_extra_content_prepares (cached content : dict) :
  add_extra_content cached = Ok content ->
  Forall2 (fun kv kv' => fst kv' = fst kv /\ prepared (fst kv) (snd kv) (snd kv'))
    cached content.
Proof.
  revert content. induction cached as [|[uuid rec] cached IH]; intros content H;
    cbn [add_extra_content] in H.
  - injection H as <-. constructor.
  - destruct rec as [s|z|l|d]; cbn [as_mapping bind] in H; try discriminate.
    cbv zeta in H.
    match type of H with context [repo_name ?x] =>
      destruct (repo_name x) as [name|e] eqn:Hname
    end; cbn [bind] in H; [|discriminate H].
    destruct (add_extra_content cached) as [rest|e]; cbn [bind] in H;
      [|discriminate H].
    injection H as <-. constructor; [|apply IH; reflexivity].
    cbn [fst snd]. split; [reflexivity|].
    assert (Hd : repo_name (VDict d) = Ok name).
    { destruct (dict_mem "uuid" d); [exact Hname|].
      rewrite repo_name_set_other in Hname by discriminate. exact Hname. }
    exact (proj2 (add_extra_content_record uuid d name Hd)).
Qed.

Lemma add_extra_content_prepares_witness :
  exists content,
    add_extra_content
      [("a", VDict [("github", VDict [("repo", VDict [("name", VStr "octo")])])])] =
      Ok content /\
    Forall2 (fun kv kv' => fst kv' = fst kv /\ prepared (fst kv) (snd kv) (snd kv'))
      [("a", VDict [("github", VDict [("repo", VDict [("name", VStr "octo")])])])]
      content.
Proof.
  eexists. split; [vm_compute; reflexivity|].
  apply add_extra_content_prepares. vm_compute. reflexivity.
Defined.

Lemma prepared_record_ready (uuid url name : string) (d : dict) :
  dict_get "uuid" d = None \/ scalar_field "uuid" d = true ->
  record_ready
    (VDict (dict_set "url" (VStr url)
              (dict_set "name" (VStr name)
                 (if dict_mem "uuid" d then d else dict_set "uuid" (VStr uuid) d))))
    = true.
Proof.
  intros Huuid. cbn [record_ready checkable forallb]. unfold scalar_field.
  rewrite dict_get_set_same.
  rewrite (dict_get_set_other "name" "url") by discriminate.
  rewrite dict_get_set_same.
  rewrite (dict_get_set_other "uuid" "url"), (dict_get_set_other "uuid" "name")
    by discriminate.
  cbn [andb]. rewrite andb_true_r.
  unfold dict_mem. destruct (dict_get "uuid" d) as [v|] eqn:E.
  - rewrite E. destruct Huuid as [Hnone|Hscalar]; [discriminate|].
    unfold scalar_field in Hscalar. rewrite E in Hscalar.
    destruct v; try discriminate; reflexivity.
  - rewrite dict_get_set_same. reflexivity.
Qed.

(** X14. For cached reports that are dictionaries with a repository name
    that is a string (and a uuid, if any, that is a string or an int), the
    preparation loop of [tweet_status] returns, keeps the keys of the pool,
    and leaves every record with the three fields that [drop_content] may
    render. *)
Theorem add_extra_content_makes_ready (cached : dict) :
  Forall (fun kv => report_ok (snd kv)) cached ->
  exists content,
    add_extra_content cached = Ok content /\
    map fst content = map fst cached /\
    pool_ready content = true.
Proof.
  induction cached as [|[uuid rec] cached IH]; intros Hok.
  - exists []. auto.
  - inversion Hok as [|? ? (d & name & Hrec & Hname & Huuid) Hok']; subst.
    cbn [snd] in Hrec. subst rec.
    destruct (IH Hok') as (rest & Hrest & Hkeys & Hready).
    destruct (add_extra_content_record uuid d (VStr name) Hname) as (H1 & Hprep).
    cbv zeta in H1, Hprep.
    cbv zeta in H1. clear Hprep.
    eexists. cbn [add_extra_content as_mapping bind]. cbv zeta.
    unfold dict in *. rewrite H1. cbn [bind].
    rewrite Hrest. cbn [bind]. split; [reflexivity|].
    cbn [map fst]. split; [f_equal; exact Hkeys|].
    cbn [pool_ready forallb snd]. apply andb_true_iff. split; [|exact Hready].
    apply prepared_record_ready. exact Huuid.
Qed.

Lemma add_extra_content_makes_ready_witness :
  exists content,
    add_extra_content
      [("a", VDict [("github", VDict [("repo", VDict [("name", VStr "octo")])])]);
       ("b", VDict [("github", VDict [("repo", VDict [("name", VStr "hub")])]);
                    ("uuid", VInt 7)])] = Ok content /\
    map fst content = ["a"; "b"] /\
    pool_ready content = true.
Proof.
  apply (add_extra_content_makes_ready
    [("a", VDict [("github", VDict [("repo", VDict [("name", VStr "octo")])])]);
     ("b", VDict [("github", VDict [("repo", VDict [("name", VStr "hub")])]);
                  ("uuid", VInt 7)])]).
  constructor; [|constructor; [|constructor]].
  - eexists _, "octo". split; [reflexivity|]. split; [reflexivity|]. left. reflexivity.
  - eexists _, "hub". split; [reflexivity|]. split; [reflexivity|]. right. reflexivity.
Defined.

(** ** The enumeration of the patterns *)

Lemma all_subclasses_preorder :
  forall t : class_tree, class_of t :: all_subclasses t false = preorder t.
Proof.
  fix IH 1. intros [k subs]. cbn [class_of all_subclasses preorder app].
  f_equal. induction subs as [|sub subs IHsubs]; cbn [flat_map].
  - reflexivity.
  - rewrite IHsubs. f_equal. change (class_of sub :: all_subclasses sub false ++
      flat_map preorder subs)%list
      with ((class_of sub :: all_subclasses sub false) ++ flat_map preorder subs)%list.
    rewrite (IH sub). reflexivity.
Qed.

Lemma all_subclasses_self (t : class_tree) :
  all_subclasses t true = class_of t :: all_subclasses t false.
Proof. destruct t as [k subs]. reflexivity. Qed.

Lemma all_patterns_of_spec (ks : list klass) :
  forall next : nat,
    map oid (all_patterns_of ks next) =
      seq next (List.length (all_patterns_of ks next)) /\
    map (fun p => (cls p, pattern p)) (all_patterns_of ks next) =
      flat_map (fun k => map (pair k) (patterns k)) ks.
Proof.
  assert (Hone : forall k next,
    map oid (all_patterns k next) = seq next (List.length (patterns k)) /\
    List.length (all_patterns k next) = List.length (patterns k) /\
    map (fun p => (cls p, pattern p)) (all_patterns k next) = map (pair k) (patterns k)).
  { intros k next. unfold all_patterns. generalize (patterns k) as ts.
    intros ts. revert next. induction ts as [|t ts IH]; intros next.
    - auto.
    - cbn [List.length seq combine map oid cls pattern].
      destruct (IH (S next)) as (H1 & H2 & H3). rewrite H1, H2, H3. auto. }
  induction ks as [|k ks IH]; intros next; cbn [all_patterns_of flat_map].
  - auto.
  - destruct (Hone k next) as (H1 & H2 & H3).
    destruct (IH (next + List.length (patterns k))) as (I1 & I2).
    rewrite !map_app, length_app, H1, H2, H3, I1, I2, seq_app. auto.
Qed.

(** X15. The enumeration of the patterns: [all_subclasses] lists a class
    tree in pre-order, the class itself first when [include_self] is set and
    left out otherwise; [all_patterns_all_subclasses] yields, class by class
    in that order, one object for each template of the class, in the order
    of the templates, all of them distinct objects; and for the hierarchy of
    the program every class is listed exactly once. *)
Theorem patterns_enumeration (t : class_tree) (include_self : bool) :
  all_subclasses t true = preorder t /\
  all_subclasses t false = tl (preorder t) /\
  map (fun p => (cls p, pattern p)) (all_patterns_all_subclasses t include_self) =
    flat_map (fun k => map (pair k) (patterns k)) (all_subclasses t include_self) /\
  NoDup (map oid (all_patterns_all_subclasses t include_self)) /\
  NoDup (all_subclasses hierarchy true) /\
  (forall k : klass, In k (all_subclasses hierarchy true)).
Proof.
  split; [rewrite all_subclasses_self; apply all_subclasses_preorder|].
  split; [rewrite <- all_subclasses_preorder; reflexivity|].
  unfold all_patterns_all_subclasses.
  destruct (all_patterns_of_spec (all_subclasses t include_self) 0) as (H1 & H2).
  split; [exact H2|]. split; [rewrite H1; apply seq_NoDup|].
  split.
  - cbn. repeat constructor; cbn; intuition discriminate.
  - intros []; cbn; tauto.
Qed.

(** ** Malformed templates *)

Lemma escape_brace_free (t : string) :
  brace_free t = true -> brace_free (escape t) = true.
Proof.
  unfold brace_free. induction t as [|c t IH]; intros H.
  - reflexivity.
  - cbn [str_all] in H. apply andb_true_iff in H as [Hc H].
    rewrite escape_cons, str_all_app, (IH H), andb_true_r.
    destruct (str_mem c "?*."); cbn [str_all]; rewrite Hc; reflexivity.
Qed.

Lemma format_loop_dangling {St : Type}
  (on_field : St -> string -> result (string * St)) (t : string) (st : St) :
  brace_free t = true ->
  format_loop on_field InLit st (t ++ "{") =
    Raise (ValueError "Single '{' encountered in format string") /\
  format_loop on_field InLit st (t ++ "}") =
    Raise (ValueError "Single '}' encountered in format string").
Proof.
  intros Ht. rewrite !(format_loop_literal on_field t Ht). split; reflexivity.
Qed.

(** X16. A template that ends with a single brace after brace-free text can
    neither be rendered nor compiled: [str.format] raises a [ValueError],
    and so does [re_match] on its first use, whatever the message, before
    any regular expression is built. *)
Theorem dangling_brace_raises
  (self : pattern_obj) (t : string) (kwargs : dict) (message : string) (h : attrs) :
  brace_free t = true ->
  hasattr h self = false ->
  (pattern self = (t ++ "{")%string ->
   str_format (pattern self) kwargs =
     Raise (ValueError "Single '{' encountered in format string") /\
   re_match self message h =
     Raise (ValueError "Single '{' encountered in format string")) /\
  (pattern self = (t ++ "}")%string ->
   str_format (pattern self) kwargs =
     Raise (ValueError "Single '}' encountered in format string") /\
   re_match self message h =
     Raise (ValueError "Single '}' encountered in format string")).
Proof.
  intros Ht Hfresh.
  pose proof (escape_brace_free t Ht) as Hesc.
  split; intros Hpat; rewrite (re_match_first _ _ _ Hfresh), Hpat;
    unfold str_format, compile_pattern, RegexpFormatter_format;
    rewrite escape_app;
    [change (escape "{") with "{"%string | change (escape "}") with "}"%string].
  - rewrite (proj1 (format_loop_dangling _ t _ Ht)),
      (proj1 (format_loop_dangling _ (escape t) _ Hesc)). split; reflexivity.
  - rewrite (proj2 (format_loop_dangling _ t _ Ht)),
      (proj2 (format_loop_dangling _ (escape t) _ Hesc)). split; reflexivity.
Qed.

Lemma dangling_brace_raises_witness :
  re_match (mk_pattern 0 TweetPattern "Try it out at {") "Try it out at {" [] =
    Raise (ValueError "Single '{' encountered in format string").
Proof.
  exact (proj2 (proj1 (dangling_brace_raises
    (mk_pattern 0 TweetPattern "Try it out at {") "Try it out at " []
    "Try it out at {" [] eq_refl eq_refl) eq_refl)).
Defined.


(** ** The context of [NReposInCachePattern] *)

Section Ranking.

Open Scope Z_scope.

Lemma insert_sorted_perm (x : Z * value) (l : list (Z * value)) :
  Permutation (insert_sorted x l) (x :: l).
Proof.
  induction l as [|y l IH]; cbn [insert_sorted].
  - apply Permutation_refl.
  - destruct (fst x <? fst y); [apply Permutation_refl|].
    eapply perm_trans; [apply perm_skip, IH | apply perm_swap].
Qed.

Lemma insert_sorted_sorted (x : Z * value) (l : list (Z * value)) :
  Sorted le_key l -> Sorted le_key (insert_sorted x l).
Proof.
  induction l as [|y l IH]; intros Hs; cbn [insert_sorted].
  - repeat constructor.
  - destruct (fst x <? fst y) eqn:E.
    + apply Z.ltb_lt in E. constructor; [exact Hs|]. constructor. unfold le_key. lia.
    + apply Z.ltb_ge in E. apply Sorted_inv in Hs as [Hs Hhd].
      constructor; [apply IH, Hs|].
      destruct l as [|z l]; cbn [insert_sorted].
      * constructor. exact E.
      * apply HdRel_inv in Hhd.
        destruct (fst x <? fst z); constructor; [exact E | exact Hhd].
Qed.

Lemma sort_by_key_spec (l : list (Z * value)) :
  Sorted le_key (sort_by_key l) /\ Permutation (sort_by_key l) l.
Proof.
  unfold sort_by_key.
  assert (H : forall acc,
    Sorted le_key acc ->
    Sorted le_key (fold_left (fun acc x => insert_sorted x acc) l acc) /\
    Permutation (fold_left (fun acc x => insert_sorted x acc) l acc) (acc ++ l)).
  { induction l as [|x l IH]; intros acc Hacc; cbn [fold_left].
    - rewrite app_nil_r. split; [exact Hacc | apply Permutation_refl].
    - destruct (IH (insert_sorted x acc) (insert_sorted_sorted x acc Hacc))
        as (H1 & H2).
      split; [exact H1|].
      eapply perm_trans; [exact H2|].
      eapply perm_trans; [apply Permutation_app_tail, insert_sorted_perm|].
      cbn [app]. apply Permutation_middle. }
  destruct (H [] (Sorted_nil _)) as (H1 & H2). auto.
Qed.

Lemma mapM_keys (vals : list value) :
  Forall rankable vals ->
  mapM (fun c => v <- stargazers c ;; n <- sort_key v ;; Ok (n, c)) vals =
    Ok (map (fun c => (stars_of c, c)) vals).
Proof.
  induction vals as [|c vals IH]; intros H; cbn [mapM map].
  - reflexivity.
  - inversion H as [|? ? [[n Hn] _] H']; subst.
    unfold stars_of. rewrite Hn. cbn [bind sort_key]. rewrite (IH H'). reflexivity.
Qed.

Lemma mapM_names (vals : list value) :
  Forall rankable vals -> mapM repo_name vals = Ok (map name_of vals).
Proof.
  induction vals as [|c vals IH]; intros H; cbn [mapM map].
  - reflexivity.
  - inversion H as [|? ? [_ [name Hname]] H']; subst.
    unfold name_of. rewrite Hname. cbn [bind]. rewrite (IH H'). reflexivity.
Qed.

Lemma Sorted_map_snd (l : list (Z * value)) :
  Forall (fun kc => fst kc = stars_of (snd kc)) l ->
  Sorted le_key l ->
  Sorted (fun a b => stars_of a <= stars_of b) (map snd l).
Proof.
  induction l as [|x l IH]; intros Hf Hs; cbn [map].
  - constructor.
  - inversion Hf as [|? ? Hx Hf']; subst.
    apply Sorted_inv in Hs as [Hs Hhd].
    constructor; [apply IH; assumption|].
    destruct l as [|y l]; cbn [map]; constructor.
    apply HdRel_inv in Hhd. inversion Hf' as [|? ? Hy _]; subst.
    unfold le_key in Hhd. rewrite Hx, Hy in Hhd. exact Hhd.
Qed.

(** X17. [NReposInCachePattern] applies to a pool of at least two records.
    For a pool whose records have an int count of stargazers and a
    repository name, and no key [n_repos] or [names], [updated_context]
    returns the pool with two more entries: [n_repos], the size of the pool,
    and [names], the names of the first three records of the pool sorted by
    increasing count of stargazers, that is, of the records with the fewest
    stargazers. *)
Theorem fewest_stargazers_are_named (self : pattern_obj) (d : dict) :
  cls self = NReposInCachePattern ->
  Forall (fun kv => rankable (snd kv)) d ->
  dict_mem "n_repos" d = false ->
  dict_mem "names" d = false ->
  exists ranked : list value,
    Permutation ranked (map snd d) /\
    Sorted (fun a b => stars_of a <= stars_of b) ranked /\
    condition self (VDict d) = Ok (2 <=? Z.of_nat (List.length d)) /\
    updated_context self (VDict d) =
      Ok (VDict (d ++ [("n_repos"%string, VInt (Z.of_nat (List.length d)));
                       ("names"%string, VList (map name_of (firstn 3 ranked)))])%list).
Proof.
  intros Hcls Hrank Hn Hnames.
  set (keyed := map (fun c => (stars_of c, c)) (map snd d)).
  destruct (sort_by_key_spec keyed) as (Hsorted & Hperm).
  assert (Hvals : Forall rankable (map snd d)).
  { rewrite Forall_map. exact Hrank. }
  assert (Hsnd : map snd keyed = map snd d).
  { subst keyed. rewrite map_map. cbn [snd]. apply map_id. }
  assert (Hperm' : Permutation (map snd (sort_by_key keyed)) (map snd d)).
  { rewrite <- Hsnd. apply Permutation_map, Hperm. }
  exists (map snd (sort_by_key keyed)).
  split; [exact Hperm'|]. split.
  { apply Sorted_map_snd; [|exact Hsorted].
    apply (Permutation_Forall (Permutation_sym Hperm)).
    subst keyed. rewrite Forall_map. apply Forall_forall. reflexivity. }
  split.
  { unfold condition. rewrite Hcls. reflexivity. }
  unfold updated_context. rewrite Hcls. cbn [values bind].
  rewrite (mapM_keys _ Hvals). cbn [bind]. fold keyed.
  rewrite mapM_names.
  - cbn [bind len as_mapping]. rewrite kwargs_merge_disjoint.
    + reflexivity.
    + repeat constructor; cbn; intuition discriminate.
    + intros k Hk. apply dict_mem_In in Hk. cbn in Hk.
      destruct Hk as [<-|[<-|[]]]; assumption.
  - apply Forall_forall. intros c Hc.
    assert (Hin : In c (map snd (sort_by_key keyed))).
    { rewrite <- (firstn_skipn 3). apply in_or_app. left. exact Hc. }
    clear Hc. rename Hin into Hc.
    apply (Permutation_in _ Hperm') in Hc.
    rewrite Forall_forall in Hvals. apply Hvals, Hc.
Qed.

Lemma fewest_stargazers_are_named_witness :
  let repo name stars :=
    VDict [("github", VDict [("repo", VDict [("name", VStr name);
                                             ("stargazers_count", VInt stars)])])] in
  exists ranked : list value,
    Sorted (fun a b => stars_of a <= stars_of b) ranked /\
    updated_context
      (mk_pattern 2 NReposInCachePattern
         "I recently generated reports for #{names[0]} and #{names[1]} on {repohealth_url}")
      (VDict [("a", repo "big" 900); ("b", repo "small" 3); ("c", repo "mid" 40)]) =
      Ok (VDict ([("a", repo "big" 900); ("b", repo "small" 3); ("c", repo "mid" 40)] ++
                 [("n_repos"%string, VInt 3);
                  ("names"%string, VList (map name_of (firstn 3 ranked)))])%list).
Proof.
  cbv zeta.
  destruct (fewest_stargazers_are_named
    (mk_pattern 2 NReposInCachePattern
       "I recently generated reports for #{names[0]} and #{names[1]} on {repohealth_url}")
    [("a", VDict [("github", VDict [("repo", VDict [("name", VStr "big");
                                                    ("stargazers_count", VInt 900)])])]);
     ("b", VDict [("github", VDict [("repo", VDict [("name", VStr "small");
                                                    ("stargazers_count", VInt 3)])])]);
     ("c", VDict [("github", VDict [("repo", VDict [("name", VStr "mid");
                                                    ("stargazers_count", VInt 40)])])])])
    as (ranked & _ & Hs & _ & Hu); try reflexivity.
  - repeat constructor; eexists; reflexivity.
  - exists ranked. split; [exact Hs | exact Hu].
Defined.

End Ranking.

(** ** Which record a retraction removes *)

(** X18. For the template of [RepoTweet] and a message rendered from it with
    a name without spaces, the record that [drop_content] removes is chosen
    by name first: it is the first record of the pool with that name,
    whatever its url; the url of the message is looked at only when no
    record has the name, and then the first record with that url is removed;
    when neither is found the pool is unchanged. *)
Theorem retraction_goes_by_name_first
  (self : pattern_obj) (nm url : string) (content : dict) (h : attrs) :
  cls self = RepoTweet \/ cls self = LotsOfStars \/ cls self = LotsOfForks ->
  pattern self = "Just generated a health report for {name} at {url}" ->
  hasattr h self = false ->
  no_newline nm = true ->
  str_mem " " nm = false ->
  no_newline url = true ->
  pool_ready content = true ->
  returned
    (drop_content self
       ("Just generated a health report for " ++ nm ++ " at " ++ url) content h) =
    Ok (match find_record "name" (Some nm) content with
        | Some uuid => dict_pop uuid content
        | None =>
            match find_record "url" (Some url) content with
            | Some uuid => dict_pop uuid content
            | None => content
            end
        end).
Proof.
  intros Hcls Hpat Hfresh Hnm Hspace Hurl Hready.
  set (segs := [Lit "Just generated a health report for "; Field "name";
                Lit " at "; Field "url"]).
  assert (Hmsg : ("Just generated a health report for " ++ nm ++ " at " ++ url)%string
                 = fill segs [nm; url]).
  { cbn [segs fill]. rewrite append_nil_r. reflexivity. }
  assert (Hsep : separated segs [nm; url] = true).
  { cbn [segs separated]. rewrite Hnm, Hurl, Hspace. reflexivity. }
  assert (Hrepo :
    returned (RepoTweet_drop_content self (fill segs [nm; url]) content h) =
    Ok (match find_record "name" (Some nm) content with
        | Some uuid => dict_pop uuid content
        | None =>
            match find_record "url" (Some url) content with
            | Some uuid => dict_pop uuid content
            | None => content
            end
        end)).
  { unfold RepoTweet_drop_content.
    rewrite (re_match_plain self segs _ h Hpat eq_refl Hfresh). cbn [bind].
    unfold getattrs. cbn [assoc]. rewrite Nat.eqb_refl. cbn [bind].
    rewrite re_match_compiled_plain, (seg_match_fill _ _ _ _ Hsep).
    change (List.length (field_names segs)) with (List.length [nm; url]).
    rewrite groups_of_bind_groups.
    cbn [matcher_of re_fields field_names segs map combine drop_content_loop].
    change (existsb (String.eqb "name") checkable) with true.
    change (existsb (String.eqb "url") checkable) with true. cbv iota.
    rewrite (drop_first_match_ready "name" (Some nm) content eq_refl content Hready).
    cbn [bind].
    destruct (find_record "name" (Some nm) content); cbn [option_map]; [reflexivity|].
    rewrite (drop_first_match_ready "url" (Some url) content eq_refl content Hready).
    cbn [bind].
    destruct (find_record "url" (Some url) content); reflexivity. }
  rewrite Hmsg. unfold drop_content.
  destruct Hcls as [-> | [-> | ->]]; exact Hrepo.
Qed.

Lemma retraction_goes_by_name_first_witness :
  returned
    (drop_content
       (mk_pattern 3 RepoTweet "Just generated a health report for {name} at {url}")
       ("Just generated a health report for " ++ "octo" ++ " at " ++ "r.io/b")
       [("a", VDict [("uuid", VStr "a"); ("name", VStr "octo"); ("url", VStr "r.io/a")]);
        ("b", VDict [("uuid", VStr "b"); ("name", VStr "octo"); ("url", VStr "r.io/b")])]
       []) =
    Ok [("b", VDict [("uuid", VStr "b"); ("name", VStr "octo"); ("url", VStr "r.io/b")])].
Proof.
  exact (retraction_goes_by_name_first
    (mk_pattern 3 RepoTweet "Just generated a health report for {name} at {url}")
    "octo" "r.io/b"
    [("a", VDict [("uuid", VStr "a"); ("name", VStr "octo"); ("url", VStr "r.io/a")]);
     ("b", VDict [("uuid", VStr "b"); ("name", VStr "octo"); ("url", VStr "r.io/b")])]
    [] (or_introl eq_refl) eq_refl eq_refl eq_refl eq_refl eq_refl eq_refl).
Defined.

(** ** The loops that render the candidates *)

Lemma render_pairs_appends (pairs : list (pattern_obj * value)) (g : dict) :
  forall opts,
    render_pairs pairs g opts =
      ((opts ++ fst (render_pairs pairs g []))%list, snd (render_pairs pairs g [])).
Proof.
  induction pairs as [|[p c] pairs IH]; intros opts; cbn [render_pairs].
  - rewrite app_nil_r. reflexivity.
  - destruct (format p c (Some g)) as [msg|e]; cbn [fst snd].
    + rewrite (IH (opts ++ [msg])%list), (IH ([] ++ [msg])%list). cbn [fst snd app].
      rewrite <- app_assoc. reflexivity.
    + rewrite app_nil_r. reflexivity.
Qed.

Lemma render_steps_appends (steps : list (result (list (pattern_obj * value))))
  (g : dict) :
  forall opts,
    render_steps steps g opts =
      ((opts ++ fst (render_steps steps g []))%list, snd (render_steps steps g [])).
Proof.
  induction steps as [|[pairs|e] steps IH]; intros opts; cbn [render_steps].
  - rewrite app_nil_r. reflexivity.
  - rewrite (render_pairs_appends pairs g opts).
    destruct (render_pairs pairs g []) as [added [e|]] eqn:E; cbn [fst snd].
    + reflexivity.
    + rewrite (IH (opts ++ added)%list), (IH added). cbn [fst snd].
      rewrite app_assoc. reflexivity.
  - rewrite app_nil_r. reflexivity.
Qed.

(** X19. The loops of [tweet_status] that fill [tweet_options] only append:
    the candidates collected before are kept, in order, whether the loops
    end normally or by an exception, and what the loops add, and the
    exception if any, do not depend on what was collected before. *)
Theorem render_options_appends
  (pats : list pattern_obj) (content global_context : dict)
  (tweet_options : list string) :
  render_options pats content global_context tweet_options =
    ((tweet_options ++ fst (render_options pats content global_context []))%list,
     snd (render_options pats content global_context [])).
Proof.
  revert tweet_options.
  induction pats as [|p pats IH]; intros opts; cbn [render_options].
  - rewrite app_nil_r. reflexivity.
  - rewrite (render_steps_appends (context p content) global_context opts).
    destruct (render_steps (context p content) global_context [])
      as [added [e|]] eqn:E; cbn [fst snd].
    + reflexivity.
    + rewrite (IH (opts ++ added)%list), (IH added). cbn [fst snd].
      rewrite app_assoc. reflexivity.
Qed.

(** ** Characters that [escape] leaves alone *)

Lemma re_parse_after_segments (segs : list segment) (tail : string) :
  plain_template segs = true ->
  re_parse pstate0 (regexp_of segs ++ tail) =
    re_parse (push_segs pstate0 segs) tail.
Proof.
  intros Hplain. rewrite re_parse_app, (re_parse_regexp _ Hplain pstate0 eq_refl).
  reflexivity.
Qed.

Lemma regexp_of_with_suffix (segs : list segment) (c : string) :
  plain_template segs = true ->
  brace_free c = true ->
  RegexpFormatter_format RegexpFormatter_init (escape (template_of segs) ++ c) [] =
    Ok ((regexp_of segs ++ c)%string, mk_RegexpFormatter (field_names segs)).
Proof.
  intros Hplain Hc. unfold RegexpFormatter_format, RegexpFormatter_init.
  rewrite (escape_template _ Hplain).
  rewrite (format_loop_app _ _ _ _ _ _ (format_escaped_template _ Hplain [])).
  pose proof (format_loop_literal (vformat_field []) c Hc
                (Some 0, mk_RegexpFormatter ([] ++ field_names segs)) "") as Hlit.
  rewrite append_nil_r in Hlit. rewrite Hlit. cbn [format_loop bind app].
  rewrite append_nil_r. reflexivity.
Qed.

(** X20. [escape] leaves parentheses alone, so a plain template followed by
    a single parenthesis renders as usual but cannot be matched: [re_match]
    raises the error of [re.compile], for an opening parenthesis that of an
    unterminated group and for a closing one that of an unbalanced
    parenthesis. *)
Theorem unescaped_parenthesis_raises
  (self : pattern_obj) (segs : list segment) (kwargs : dict) (vals : list string)
  (message : string) (h : attrs) :
  plain_template segs = true ->
  hasattr h self = false ->
  Forall2 (fun name v => str_format_field kwargs tt name = Ok (v, tt))
    (field_names segs) vals ->
  (pattern self = (template_of segs ++ "(")%string ->
   str_format (pattern self) kwargs = Ok (fill segs vals ++ "(")%string /\
   re_match self message h =
     Raise (re_error "missing ), unterminated subpattern")) /\
  (pattern self = (template_of segs ++ ")")%string ->
   str_format (pattern self) kwargs = Ok (fill segs vals ++ ")")%string /\
   re_match self message h = Raise (re_error "unbalanced parenthesis")).
Proof.
  intros Hplain Hfresh Hvals.
  pose proof (str_format_fill segs kwargs Hplain vals Hvals) as Hfill.
  unfold str_format in Hfill.
  destruct (format_loop (str_format_field kwargs) InLit tt (template_of segs))
    as [[out []]|e] eqn:Hloop; cbn [bind] in Hfill; [|discriminate].
  injection Hfill as ->.
  pose proof (esc_push_segs segs pstate0 eq_refl) as He.
  destruct (push_segs_spec segs pstate0) as (_ & Hstack & _).
  split; intros Hpat; (split;
    [rewrite Hpat; unfold str_format;
     rewrite (format_loop_app _ _ _ _ _ _ Hloop); reflexivity|]);
    rewrite (re_match_first _ _ _ Hfresh), Hpat; unfold compile_pattern;
    rewrite escape_app.
  - change (escape "(") with "("%string.
    rewrite (regexp_of_with_suffix segs "(" Hplain eq_refl). cbn [bind].
    unfold re_compile. rewrite append_assoc, (re_parse_after_segments _ _ Hplain).
    cbn [append re_parse]. unfold re_step at 1. rewrite He. cbn [bind].
    reflexivity.
  - change (escape ")") with ")"%string.
    rewrite (regexp_of_with_suffix segs ")" Hplain eq_refl). cbn [bind].
    unfold re_compile. rewrite append_assoc, (re_parse_after_segments _ _ Hplain).
    cbn [append re_parse]. unfold re_step at 1. rewrite He, Hstack. reflexivity.
Qed.

Lemma unescaped_parenthesis_raises_witness :
  str_format "Stars for {name} (" [("name", VStr "octo")] = Ok "Stars for octo (" /\
  re_match (mk_pattern 0 RepoTweet "Stars for {name} (") "Stars for octo (" [] =
    Raise (re_error "missing ), unterminated subpattern").
Proof.
  refine (proj1 (unescaped_parenthesis_raises
    (mk_pattern 0 RepoTweet "Stars for {name} (")
    [Lit "Stars for "; Field "name"; Lit " "] [("name", VStr "octo")] ["octo"]
    "Stars for octo (" [] eq_refl eq_refl _) eq_refl).
  cbn [field_names]. constructor; [reflexivity | constructor].
Defined.

(** ** The patterns of the program in the recency filter *)

(** X21. Every pattern that the program defines compiles, and the pruning
    step goes through for them when they are passed as a list: for every
    timeline and every pool whose records carry the fields uuid, name and
    url, [drop_recent] returns the patterns that match no message of the
    timeline. *)
Theorem program_patterns_are_pruned (timeline : list string) (content : dict) :
  pool_ready content = true ->
  Forall compiles (all_patterns_all_subclasses hierarchy true) /\
  exists h',
    drop_recent timeline (PyList (all_patterns_all_subclasses hierarchy true))
      content [] =
      Ok (unmatched timeline (all_patterns_all_subclasses hierarchy true),
          pruned_pool timeline (all_patterns_all_subclasses hierarchy true) content,
          h').
Proof.
  intros Hready.
  assert (Hcomp : Forall compiles (all_patterns_all_subclasses hierarchy true)).
  { vm_compute all_patterns_all_subclasses.
    repeat (constructor; [eexists; vm_compute; reflexivity|]). constructor. }
  split; [exact Hcomp|].
  apply (drop_recent_patterns_spec timeline
           (all_patterns_all_subclasses hierarchy true) [] content []).
  - vm_compute. repeat constructor; cbn; intuition discriminate.
  - exact Hcomp.
  - apply Forall_forall. intros p _ m Hm. discriminate.
  - exact Hready.
Qed.

Lemma program_patterns_are_pruned_witness :
  exists h',
    drop_recent ["Good morning"] (PyList (all_patterns_all_subclasses hierarchy true))
      [("a", VDict [("uuid", VStr "a"); ("name", VStr "octo"); ("url", VStr "r.io/a")])]
      [] =
      Ok (unmatched ["Good morning"] (all_patterns_all_subclasses hierarchy true),
          pruned_pool ["Good morning"] (all_patterns_all_subclasses hierarchy true)
            [("a", VDict [("uuid", VStr "a"); ("name", VStr "octo");
                          ("url", VStr "r.io/a")])],
          h').
Proof.
  exact (proj2 (program_patterns_are_pruned ["Good morning"]
    [("a", VDict [("uuid", VStr "a"); ("name", VStr "octo"); ("url", VStr "r.io/a")])]
    eq_refl)).
Defined.

(** ** The matchers stored by the recency filter *)

Lemma re_match_frame (p : pattern_obj) (message : string) (h h' : attrs)
  (r : option match_obj) :
  re_match p message h = Ok (r, h') ->
  forall i, i <> oid p -> assoc i h' = assoc i h.
Proof.
  unfold re_match. intros H i Hi.
  destruct (hasattr h p); cbn [negb bind] in H.
  - destruct (getattrs h p); cbn [bind] in H; [|discriminate].
    injection H as _ <-. reflexivity.
  - destruct (compile_pattern (pattern p)) as [m'|e]; cbn [bind] in H; [|discriminate].
    destruct (getattrs ((oid p, m') :: h) p); cbn [bind] in H; [|discriminate].
    injection H as _ <-. cbn [assoc].
    destruct (Nat.eqb_spec i (oid p)); [contradiction | reflexivity].
Qed.

Lemma re_match_stores (p : pattern_obj) (message : string) (h h' : attrs)
  (r : option match_obj) :
  attrs_ok h p ->
  re_match p message h = Ok (r, h') ->
  exists m, compile_pattern (pattern p) = Ok m /\ assoc (oid p) h' = Some m.
Proof.
  unfold re_match, hasattr, getattrs. intros Hok H.
  destruct (assoc (oid p) h) as [m|] eqn:Hm; cbn [negb bind] in H.
  - rewrite Hm in H. cbn [bind] in H. injection H as _ <-.
    exists m. split; [apply Hok, Hm | exact Hm].
  - destruct (compile_pattern (pattern p)) as [m'|e]; cbn [bind] in H; [|discriminate].
    cbn [assoc] in H. rewrite Nat.eqb_refl in H. cbn [bind] in H.
    injection H as _ <-. exists m'. split; [reflexivity|].
    cbn [assoc]. rewrite Nat.eqb_refl. reflexivity.
Qed.

Lemma drop_content_frame (p : pattern_obj) (message : string)
  (content content' : dict) (h h' : attrs) :
  drop_content p message content h = Ok (content', h') ->
  forall i, i <> oid p -> assoc i h' = assoc i h.
Proof.
  assert (Hrepo :
    RepoTweet_drop_content p message content h = Ok (content', h') ->
    forall i, i <> oid p -> assoc i h' = assoc i h).
  { unfold RepoTweet_drop_content. intros H.
    destruct (re_match p message h) as [[r h1]|e] eqn:Hre; cbn [bind] in H;
      [|discriminate].
    destruct (getattrs h1 p) as [flds|e]; cbn [bind] in H; [|discriminate].
    destruct r as [groups|]; [|discriminate].
    destruct (drop_content_loop (combine (re_fields flds) groups) content)
      as [c|e]; cbn [bind] in H; [|discriminate].
    injection H as _ <-. exact (re_match_frame _ _ _ _ _ Hre). }
  unfold drop_content.
  destruct (cls p); try exact Hrepo; intros H; injection H as _ <-; reflexivity.
Qed.

Lemma drop_recent_messages_frame (p : pattern_obj) (msgs : list string) :
  forall content res h res' content' h',
    drop_recent_messages p msgs content res h = Ok (res', content', h') ->
    forall i, i <> oid p -> assoc i h' = assoc i h.
Proof.
  induction msgs as [|msg msgs IH]; intros content res h res' content' h' H i Hi;
    cbn [drop_recent_messages] in H.
  - injection H as _ _ <-. reflexivity.
  - destruct (re_match p msg h) as [[r h1]|e] eqn:Hre; cbn [bind] in H;
      [|discriminate].
    rewrite <- (re_match_frame _ _ _ _ _ Hre i Hi).
    destruct r as [groups|].
    + destruct (drop_content p msg content h1) as [[c h2]|e] eqn:Hdrop;
        cbn [bind] in H; [|discriminate].
      rewrite <- (drop_content_frame _ _ _ _ _ _ Hdrop i Hi).
      exact (IH _ _ _ _ _ _ H i Hi).
    + exact (IH _ _ _ _ _ _ H i Hi).
Qed.

Lemma drop_recent_messages_stores (p : pattern_obj) (msgs : list string)
  (content : dict) (res : list pattern_obj) (h : attrs)
  (res' : list pattern_obj) (content' : dict) (h' : attrs) :
  msgs <> [] ->
  attrs_ok h p ->
  drop_recent_messages p msgs content res h = Ok (res', content', h') ->
  exists m, compile_pattern (pattern p) = Ok m /\ assoc (oid p) h' = Some m.
Proof.
  intros Hne Hok H. destruct msgs as [|msg msgs]; [contradiction|].
  cbn [drop_recent_messages] in H.
  destruct (re_match p msg h) as [[r h1]|e] eqn:Hre; cbn [bind] in H;
    [|discriminate].
  destruct (re_match_stores _ _ _ _ _ Hok Hre) as (m & Hm & Hst).
  exists m. split; [exact Hm|].
  destruct r as [groups|].
  - destruct (drop_content p msg content h1) as [[c h2]|e] eqn:Hdrop;
      cbn [bind] in H; [|discriminate].
    destruct (drop_content_shrinks _ _ _ _ _ _ Hdrop) as (_ & _ & Hh2).
    destruct (drop_recent_messages_shrinks _ _ _ _ _ _ _ _ H) as (_ & _ & _ & Hh').
    auto.
  - destruct (drop_recent_messages_shrinks _ _ _ _ _ _ _ _ H) as (_ & _ & _ & Hh').
    auto.
Qed.

Lemma drop_recent_patterns_stores (msgs : list string) (pats : list pattern_obj) :
  msgs <> [] ->
  forall content res h res' content' h',
    NoDup (map oid pats) ->
    Forall (attrs_ok h) pats ->
    drop_recent_patterns pats msgs content res h = Ok (res', content', h') ->
    (forall p, In p pats ->
       exists m, compile_pattern (pattern p) = Ok m /\ assoc (oid p) h' = Some m) /\
    (forall i, ~ In i (map oid pats) -> assoc i h' = assoc i h).
Proof.
  intros Hne.
  induction pats as [|p pats IH]; intros content res h res' content' h' Hnd Hok H;
    cbn [drop_recent_patterns] in H.
  - injection H as _ _ <-. split; [intros p []|reflexivity].
  - destruct (drop_recent_messages p msgs content res h) as [[[r1 c1] h1]|e] eqn:E;
      cbn [bind] in H; [|discriminate].
    cbn [map] in Hnd. inversion Hnd as [|? ? Hnotin Hnd']; subst.
    inversion Hok as [|? ? Hokp Hokr]; subst.
    pose proof (drop_recent_messages_frame _ _ _ _ _ _ _ _ E) as Hframe.
    assert (Hok1 : Forall (attrs_ok h1) pats).
    { apply Forall_forall. intros q Hq m Hm.
      rewrite Forall_forall in Hokr. apply (Hokr q Hq).
      rewrite <- Hm. symmetry. apply Hframe.
      intros Heq. apply Hnotin. rewrite <- Heq. apply in_map, Hq. }
    destruct (IH _ _ _ _ _ _ Hnd' Hok1 H) as (Hst & Hfr).
    split.
    + intros q [<-|Hq]; [|exact (Hst q Hq)].
      destruct (drop_recent_messages_stores _ _ _ _ _ _ _ _ Hne Hokp E)
        as (m & Hm & Hs).
      exists m. split; [exact Hm|].
      destruct (drop_recent_patterns_shrinks _ _ _ _ _ _ _ _ H) as (_ & _ & _ & Hk).
      auto.
    + intros i Hi. cbn [map In] in Hi.
      rewrite (Hfr i (fun Hin => Hi (or_intror Hin))).
      apply Hframe. intros Heq. apply Hi. left. symmetry. exact Heq.
Qed.

(** X22. When [drop_recent] returns for a timeline that is not empty and
    distinct pattern objects, every pattern passed carries the matcher
    compiled from its own template afterwards, whether or not a message
    matched it, and what is stored for any other object is as before. *)
Theorem drop_recent_stores_every_matcher
  (recent_messages : list string) (pats res : list pattern_obj)
  (content content' : dict) (h h' : attrs) :
  recent_messages <> [] ->
  NoDup (map oid pats) ->
  Forall (attrs_ok h) pats ->
  drop_recent recent_messages (PyList pats) content h = Ok (res, content', h') ->
  (forall p, In p pats ->
     exists m, compile_pattern (pattern p) = Ok m /\ assoc (oid p) h' = Some m) /\
  (forall i, ~ In i (map oid pats) -> assoc i h' = assoc i h).
Proof.
  intros Hne Hnd Hok H. unfold drop_recent in H.
  exact (drop_recent_patterns_stores _ _ Hne _ _ _ _ _ _ Hnd Hok H).
Qed.

Lemma drop_recent_stores_every_matcher_witness :
  exists res content' h',
    drop_recent ["Good morning"] (PyList (all_patterns_all_subclasses hierarchy true))
      [("a", VDict [("uuid", VStr "a"); ("name", VStr "octo"); ("url", VStr "r.io/a")])]
      [] = Ok (res, content', h') /\
    forall p, In p (all_patterns_all_subclasses hierarchy true) ->
      exists m, compile_pattern (pattern p) = Ok m /\ assoc (oid p) h' = Some m.
Proof.
  destruct (drop_recent ["Good morning"]
              (PyList (all_patterns_all_subclasses hierarchy true))
              [("a", VDict [("uuid", VStr "a"); ("name", VStr "octo");
                            ("url", VStr "r.io/a")])] [])
    as [[[res content'] h']|e] eqn:E.
  - exists res, content', h'. split; [reflexivity|].
    refine (proj1 (drop_recent_stores_every_matcher _ _ _ _ _ _ _ _ _ _ E)).
    + discriminate.
    + vm_compute. repeat constructor; cbn; intuition discriminate.
    + apply Forall_forall. intros p _ m Hm. discriminate.
  - vm_compute in E. discriminate.
Defined.
